(** * zwave-js-server: the session and coordination layer

    A shallow embedding of [src/lib/server.ts] ([Client], [ClientsController]),
    [src/lib/controller/message_handler.ts] ([ControllerMessageHandler.handle],
    [processInclusionOptions]) and the log transport of [src/lib/logging.ts].

    JavaScript objects live in heaps (lists indexed by references), so that a
    closure, the registry and a handler can share one [Client] or one deferred
    promise.  One event-loop task is a state transformer followed by the
    microtask checkpoint [run_microtasks]; an [await] splits a handler into
    the part before it and a resumption that receives the awaited outcome. *)

From Stdlib Require Import ZArith Ascii String List Bool Lia.
From stdpp Require Import base tactics option list strings relations gmap.

Open Scope string_scope.
Open Scope list_scope.

(** ** Wire data *)

(** [JSONValue] of [outgoing_message.ts]: payloads the server only carries.
    [JUndefined] is [undefined], which a property of an outgoing message can
    hold and [JSON.stringify] leaves out. *)
#[local] Unset Elimination Schemes.
Inductive JSONValue :=
| JUndefined
| JNull
| JBool (b : bool)
| JNumber (n : Z)
| JString (s : string)
| JArray (items : list JSONValue)
| JObject (fields : list (string * JSONValue)).
#[local] Set Elimination Schemes.

(** References into the heaps of the state below. *)
Abbreviation ClientRef := nat (only parsing).
Abbreviation PromiseRef := nat (only parsing).
Abbreviation ClosureRef := nat (only parsing).

(** [InclusionStrategy] of zwave-js. *)
Inductive InclusionStrategy :=
| Default | SmartStart | Insecure | Security_S0 | Security_S2.

(** [InclusionOptions | ReplaceNodeOptions]: the strategy, the callbacks
    object that [processInclusionOptions] installs (a reference to the closure
    environment it allocates), and the fields that are only passed on. *)
Record InclusionOptions := mkInclusionOptions {
  strategy : InclusionStrategy;
  userCallbacks : option ClosureRef;
  other_options : list (string * JSONValue);
}.

(** An incoming message as a JavaScript object: [command], [messageId] and
    the parameters the modelled handlers read.  [msg_options = None] and
    [msg_includeNonSecure = None] stand for an absent key. *)
Record IncomingMessage := mkIncomingMessage {
  msg_command : string;
  msg_messageId : string;
  msg_schemaVersion : Z;
  msg_config : JSONValue;
  msg_options : option InclusionOptions;
  msg_includeNonSecure : option bool;
  msg_inclusionGrant : JSONValue;
  msg_pin : JSONValue;
  msg_nodeId : JSONValue;
  msg_endpoint : JSONValue;
  msg_group : JSONValue;
  msg_association : JSONValue;
  msg_associations : JSONValue;
}.

(** Modelled from the spec: the [ErrorCode] enum of [error.ts], which is not
    among the sources.  [unknownError] and [zwaveError] are named in
    [server.ts]; the others are the error kinds of the spec (unknown command,
    schema incompatibility, phase not in progress, conflict already in
    progress). *)
Inductive ErrorCode :=
| unknownError
| unknownCommand
| schemaIncompatible
| zwaveError
| inclusionPhaseNotInProgress
| inclusionAlreadyInProgress
| otherErrorCode (name : string).

(** Modelled from the spec: a [BaseError] of [error.ts] is its [errorCode]
    and the remaining own fields, which [receiveMessage] sends as [args]. *)
Record BaseError := mkBaseError {
  errorCode : ErrorCode;
  args : list (string * JSONValue);
}.

Definition SchemaIncompatibleError (schemaId : Z) : BaseError :=
  mkBaseError schemaIncompatible [("schemaId", JNumber schemaId)].
Definition UnknownCommandError (command : string) : BaseError :=
  mkBaseError unknownCommand [("command", JString command)].
Definition InclusionPhaseNotInProgressError (phase : string) : BaseError :=
  mkBaseError inclusionPhaseNotInProgress [("phase", JString phase)].
Definition InclusionAlreadyInProgressError : BaseError :=
  mkBaseError inclusionAlreadyInProgress [].

(** What a [throw] can carry, as the [catch] of [receiveMessage] tells them
    apart: a [BaseError], a [ZWaveError] of the driver, anything else. *)
Inductive Exn :=
| ThrowBaseError (e : BaseError)
| ThrowZWaveError (code : Z) (message : string)
| ThrowOther (description : string).

(** Events pushed with [sendEvent]. *)
Inductive OutgoingEvent :=
| GrantSecurityClassesEvent (requested : JSONValue)
| ValidateDSKAndEnterPinEvent (dsk : string)
| InclusionAbortedEvent
| LoggingEvent (info : JSONValue)
| ForwardedEvent (payload : JSONValue).

(** [OutgoingMessage] of [outgoing_message.ts], by the shapes built in
    [server.ts]. *)
Inductive OutgoingMessage :=
| VersionMessage (driverVersion serverVersion : string) (homeId : Z)
    (minSchema maxSchema : Z)
| ResultSuccess (messageId : string) (result : JSONValue)
| ResultError (messageId : string) (code : ErrorCode)
    (error_args : list (string * JSONValue))
| ResultZWaveError (messageId : string) (zwaveErrorCode : Z)
    (zwaveErrorMessage : string)
| EventMessage (event : OutgoingEvent).

(** Calls made on a session's WebSocket. *)
Inductive SocketOp :=
| Send (data : OutgoingMessage) (compress : bool)
| Close
| Ping.

(** ** Objects *)

(** [class Client]: its four fields, and its socket as the ready state and
    the calls made on it, oldest first. *)
Record Client := mkClient {
  receiveEvents : bool;
  _outstandingPing : bool;
  schemaVersion : Z;
  receiveLogs : bool;
  socket_open : bool;
  socket_log : list SocketOp;
}.

Inductive Channel := GrantChannel | ValidateChannel.

#[global] Instance Channel_eq_dec : EqDecision Channel.
Proof. solve_decision. Defined.

Inductive PromiseState :=
| Pending
| Fulfilled (value : JSONValue)
| Rejected (reason : string).

(** A deferred promise made by [createDeferredPromise], with the one
    [finally] callback the source registers on it: the callback belongs to a
    channel and to the closure environment whose local variable it reads. *)
Record Deferred := mkDeferred {
  promise_state : PromiseState;
  finally_channel : Channel;
  finally_closure : ClosureRef;
}.

(** The environment of one [processInclusionOptions] call that installs
    callbacks: the captured [client] and the two [let] variables. *)
Record Closure := mkClosure {
  closure_client : ClientRef;
  local_grantSecurityClassesPromise : option PromiseRef;
  local_validateDSKAndEnterPinPromise : option PromiseRef;
}.

(** Calls into the driver collaborator. *)
Inductive DriverCall :=
| call_beginInclusion (options : InclusionOptions)
| call_stopInclusion
| call_beginExclusion
| call_stopExclusion
| call_removeFailedNode (nodeId : JSONValue)
| call_replaceFailedNode (nodeId : JSONValue) (options : InclusionOptions)
| call_healNode (nodeId : JSONValue)
| call_beginHealingNetwork
| call_stopHealingNetwork
| call_isFailedNode (nodeId : JSONValue)
| call_getAssociationGroups (nodeId endpoint : JSONValue)
| call_getAssociations (nodeId endpoint : JSONValue)
| call_isAssociationAllowed (nodeId endpoint group association : JSONValue)
| call_addAssociations (nodeId endpoint group associations : JSONValue)
| call_removeAssociations (nodeId endpoint group associations : JSONValue)
| call_removeNodeFromAllAssociations (nodeId : JSONValue)
| call_getNodeNeighbors (nodeId : JSONValue)
| call_updateLogConfig (config : JSONValue).

(** A job of the microtask queue: the [finally] callback of a settled
    deferred. *)
Inductive Microtask :=
| FinallyCallback (ch : Channel) (env : ClosureRef).

(** [class ClientsController] together with the heaps of the objects it
    shares with sessions and closures, the microtask queue and the record of
    the calls made on the driver. *)
Record ServerState := mkServerState {
  client_heap : list Client;
  clients : list ClientRef;
  pingInterval : bool;
  eventForwarder : bool;
  grantSecurityClassesPromise : option PromiseRef;
  validateDSKAndEnterPinPromise : option PromiseRef;
  promises : list Deferred;
  closures : list Closure;
  microtasks : list Microtask;
  driver_calls : list DriverCall;
}.

Definition initial_state : ServerState :=
  mkServerState [] [] false false None None [] [] [] [].

(** Field updates. *)
Definition with_client_heap (h : list Client) (s : ServerState) :=
  mkServerState h (clients s) (pingInterval s) (eventForwarder s)
    (grantSecurityClassesPromise s) (validateDSKAndEnterPinPromise s)
    (promises s) (closures s) (microtasks s) (driver_calls s).
Definition with_clients (l : list ClientRef) (s : ServerState) :=
  mkServerState (client_heap s) l (pingInterval s) (eventForwarder s)
    (grantSecurityClassesPromise s) (validateDSKAndEnterPinPromise s)
    (promises s) (closures s) (microtasks s) (driver_calls s).
Definition with_grantSecurityClassesPromise (p : option PromiseRef)
    (s : ServerState) :=
  mkServerState (client_heap s) (clients s) (pingInterval s) (eventForwarder s)
    p (validateDSKAndEnterPinPromise s)
    (promises s) (closures s) (microtasks s) (driver_calls s).
Definition with_validateDSKAndEnterPinPromise (p : option PromiseRef)
    (s : ServerState) :=
  mkServerState (client_heap s) (clients s) (pingInterval s) (eventForwarder s)
    (grantSecurityClassesPromise s) p
    (promises s) (closures s) (microtasks s) (driver_calls s).
Definition with_promises (l : list Deferred) (s : ServerState) :=
  mkServerState (client_heap s) (clients s) (pingInterval s) (eventForwarder s)
    (grantSecurityClassesPromise s) (validateDSKAndEnterPinPromise s)
    l (closures s) (microtasks s) (driver_calls s).
Definition with_closures (l : list Closure) (s : ServerState) :=
  mkServerState (client_heap s) (clients s) (pingInterval s) (eventForwarder s)
    (grantSecurityClassesPromise s) (validateDSKAndEnterPinPromise s)
    (promises s) l (microtasks s) (driver_calls s).
Definition with_microtasks (l : list Microtask) (s : ServerState) :=
  mkServerState (client_heap s) (clients s) (pingInterval s) (eventForwarder s)
    (grantSecurityClassesPromise s) (validateDSKAndEnterPinPromise s)
    (promises s) (closures s) l (driver_calls s).
Definition with_driver_calls (l : list DriverCall) (s : ServerState) :=
  mkServerState (client_heap s) (clients s) (pingInterval s) (eventForwarder s)
    (grantSecurityClassesPromise s) (validateDSKAndEnterPinPromise s)
    (promises s) (closures s) (microtasks s) l.

(** The slot of a channel on the [ClientsController]. *)
Definition slot (ch : Channel) (s : ServerState) : option PromiseRef :=
  match ch with
  | GrantChannel => grantSecurityClassesPromise s
  | ValidateChannel => validateDSKAndEnterPinPromise s
  end.

Definition with_slot (ch : Channel) (p : option PromiseRef) (s : ServerState) :=
  match ch with
  | GrantChannel => with_grantSecurityClassesPromise p s
  | ValidateChannel => with_validateDSKAndEnterPinPromise p s
  end.

(** The [let] variable of a channel in a closure environment. *)
Definition local (ch : Channel) (c : Closure) : option PromiseRef :=
  match ch with
  | GrantChannel => local_grantSecurityClassesPromise c
  | ValidateChannel => local_validateDSKAndEnterPinPromise c
  end.

Definition with_local (ch : Channel) (p : option PromiseRef) (c : Closure) :=
  match ch with
  | GrantChannel =>
      mkClosure (closure_client c) p (local_validateDSKAndEnterPinPromise c)
  | ValidateChannel =>
      mkClosure (closure_client c) (local_grantSecurityClassesPromise c) p
  end.

(** ** [class Client]: the socket and the send methods *)

Definition update_client (this : ClientRef) (f : Client -> Client)
    (s : ServerState) : ServerState :=
  with_client_heap (alter f this (client_heap s)) s.

Definition socket_call (op : SocketOp) (c : Client) : Client :=
  mkClient (receiveEvents c) (_outstandingPing c) (schemaVersion c)
    (receiveLogs c) (socket_open c) (socket_log c ++ [op]).

(** [socket.close()]: the ready state leaves [OPEN]. *)
Definition socket_close (c : Client) : Client :=
  mkClient (receiveEvents c) (_outstandingPing c) (schemaVersion c)
    (receiveLogs c) false (socket_log c ++ [Close]).

Definition set_receiveEvents (b : bool) (c : Client) : Client :=
  mkClient b (_outstandingPing c) (schemaVersion c)
    (receiveLogs c) (socket_open c) (socket_log c).

Definition set_outstandingPing (b : bool) (c : Client) : Client :=
  mkClient (receiveEvents c) b (schemaVersion c)
    (receiveLogs c) (socket_open c) (socket_log c).

Definition set_schemaVersion (v : Z) (c : Client) : Client :=
  mkClient (receiveEvents c) (_outstandingPing c) v
    (receiveLogs c) (socket_open c) (socket_log c).

(** [get isConnected()]. *)
Definition isConnected (c : Client) : bool := socket_open c.

(** [sendData(data, compress = false)]. *)
Definition sendData (this : ClientRef) (data : OutgoingMessage)
    (compress : bool) : ServerState -> ServerState :=
  update_client this (socket_call (Send data compress)).

(** [sendResultSuccess(messageId, result, compress = false)]. *)
Definition sendResultSuccess (this : ClientRef) (messageId : string)
    (result : JSONValue) (compress : bool) : ServerState -> ServerState :=
  sendData this (ResultSuccess messageId result) compress.

Definition sendResultError (this : ClientRef) (messageId : string)
    (code : ErrorCode) (error_args : list (string * JSONValue))
    : ServerState -> ServerState :=
  sendData this (ResultError messageId code error_args) false.

Definition sendResultZWaveError (this : ClientRef) (messageId : string)
    (zjsErrorCode : Z) (message : string) : ServerState -> ServerState :=
  sendData this (ResultZWaveError messageId zjsErrorCode message) false.

Definition sendEvent (this : ClientRef) (event : OutgoingEvent)
    : ServerState -> ServerState :=
  sendData this (EventMessage event) false.

(** [disconnect()] of a session. *)
Definition disconnect (this : ClientRef) : ServerState -> ServerState :=
  update_client this socket_close.

(** [checkAlive()]. *)
Definition checkAlive (this : ClientRef) (s : ServerState) : ServerState :=
  match client_heap s !! this with
  | Some c =>
      if _outstandingPing c then disconnect this s
      else update_client this (socket_call Ping)
             (update_client this (set_outstandingPing true) s)
  | None => s
  end.

(** The ["pong"] listener installed by the constructor. *)
Definition on_pong (this : ClientRef) : ServerState -> ServerState :=
  update_client this (set_outstandingPing false).

(** ** Deferred promises and the microtask queue *)

(** [createDeferredPromise()] followed by the [finally] registration. *)
Definition createDeferredPromise (ch : Channel) (env : ClosureRef)
    (s : ServerState) : ServerState * PromiseRef :=
  (with_promises (promises s ++ [mkDeferred Pending ch env]) s,
   length (promises s)).

(** [resolve] and [reject] of a deferred: only a pending promise changes, and
    its [finally] callback is then queued as a microtask. *)
Definition settle (p : PromiseRef) (outcome : PromiseState)
    (s : ServerState) : ServerState :=
  match promises s !! p with
  | Some d =>
      match promise_state d with
      | Pending =>
          with_microtasks
            (microtasks s ++ [FinallyCallback (finally_channel d) (finally_closure d)])
            (with_promises
               (<[p := mkDeferred outcome (finally_channel d) (finally_closure d)]>
                  (promises s)) s)
      | _ => s
      end
  | None => s
  end.

(** [===] on two possibly undefined promise references. *)
Definition same_promise (a b : option PromiseRef) : bool :=
  match a, b with
  | Some p, Some q => Nat.eqb p q
  | None, None => true
  | _, _ => false
  end.

(** The body of a [finally] callback: delete the controller's slot if it
    still holds what the closure's variable holds. *)
Definition run_microtask (s : ServerState) (m : Microtask) : ServerState :=
  match m with
  | FinallyCallback ch env =>
      match closures s !! env with
      | Some c =>
          if same_promise (slot ch s) (local ch c)
          then with_slot ch None s
          else s
      | None => s
      end
  end.

(** The microtask checkpoint at the end of a task. *)
Definition run_microtasks (s : ServerState) : ServerState :=
  foldl run_microtask (with_microtasks [] s) (microtasks s).

(** ** [processInclusionOptions] and the callbacks it installs *)

Definition interactive (st : InclusionStrategy) : bool :=
  match st with
  | Default | Security_S2 => true
  | _ => false
  end.

(** [processInclusionOptions(clientsController, client, message)]. *)
Definition processInclusionOptions (client : ClientRef)
    (message : IncomingMessage) (s : ServerState)
    : ServerState * InclusionOptions :=
  match msg_options message with
  | Some options =>
      if interactive (strategy options) then
        (with_closures (closures s ++ [mkClosure client None None]) s,
         mkInclusionOptions (strategy options) (Some (length (closures s)))
           (other_options options))
      else (s, options)
  | None =>
      match msg_includeNonSecure message with
      | Some true => (s, mkInclusionOptions Insecure None [])
      | _ => (s, mkInclusionOptions Security_S0 None [])
      end
  end.

(** The body shared by [userCallbacks.grantSecurityClasses] and
    [userCallbacks.validateDSKAndEnterPIN] of the environment [env]: make the
    deferred, store it in the controller's slot and in the closure's
    variable, register [finally], push the event to the captured client. *)
Definition user_callback (ch : Channel) (event : OutgoingEvent)
    (env : ClosureRef) (s : ServerState) : ServerState :=
  match closures s !! env with
  | Some c =>
      let '(s1, p) := createDeferredPromise ch env s in
      let s2 := with_slot ch (Some p) s1 in
      let s3 := with_closures (<[env := with_local ch (Some p) c]> (closures s2)) s2 in
      sendEvent (closure_client c) event s3
  | None => s
  end.

Definition grantSecurityClasses_callback (env : ClosureRef)
    (requested : JSONValue) : ServerState -> ServerState :=
  user_callback GrantChannel (GrantSecurityClassesEvent requested) env.

Definition validateDSKAndEnterPIN_callback (env : ClosureRef) (dsk : string)
    : ServerState -> ServerState :=
  user_callback ValidateChannel (ValidateDSKAndEnterPinEvent dsk) env.

(** [p?.reject("aborted")]. *)
Definition reject_if_defined (p : option PromiseRef) (s : ServerState)
    : ServerState :=
  match p with
  | Some q => settle q (Rejected "aborted") s
  | None => s
  end.

(** [userCallbacks.abort] of the environment [env]. *)
Definition abort_callback (env : ClosureRef) (s : ServerState) : ServerState :=
  match closures s !! env with
  | Some c =>
      let s1 := reject_if_defined (local_grantSecurityClassesPromise c) s in
      let s2 := reject_if_defined (local_validateDSKAndEnterPinPromise c) s1 in
      sendEvent (closure_client c) InclusionAbortedEvent s2
  | None => s
  end.

(** ** Command names *)

(** Modelled from the spec: the [ServerCommand] enum of [command.ts], which
    is not among the sources; the spec lists the four reserved names. *)
Module ServerCommand.
Definition setApiSchema := "set_api_schema".
Definition startListening := "start_listening".
Definition updateLogConfig := "update_log_config".
Definition getLogConfig := "get_log_config".
End ServerCommand.

(** Modelled from the spec: the [Instance] enum of [instance.ts], which is
    not among the sources; the spec lists the six namespaces. *)
Module Instance.
Definition controller := "controller".
Definition driver := "driver".
Definition node := "node".
Definition multicast_group := "multicast_group".
Definition broadcast_node := "broadcast_node".
Definition endpoint := "endpoint".
End Instance.

(** Modelled from the spec: the [ControllerCommand] enum of
    [controller/command.ts], which is not among the sources.  The spec names
    the commands as ["<namespace>.<action>"]; the members are those of the
    [switch] in [ControllerMessageHandler.handle]. *)
Module ControllerCommand.
Definition beginInclusion := "controller.begin_inclusion".
Definition grantSecurityClasses := "controller.grant_security_classes".
Definition validateDSKAndEnterPIN := "controller.validate_dsk_and_enter_pin".
Definition stopInclusion := "controller.stop_inclusion".
Definition beginExclusion := "controller.begin_exclusion".
Definition stopExclusion := "controller.stop_exclusion".
Definition removeFailedNode := "controller.remove_failed_node".
Definition replaceFailedNode := "controller.replace_failed_node".
Definition healNode := "controller.heal_node".
Definition beginHealingNetwork := "controller.begin_healing_network".
Definition stopHealingNetwork := "controller.stop_healing_network".
Definition isFailedNode := "controller.is_failed_node".
Definition getAssociationGroups := "controller.get_association_groups".
Definition getAssociations := "controller.get_associations".
Definition isAssociationAllowed := "controller.is_association_allowed".
Definition addAssociations := "controller.add_associations".
Definition removeAssociations := "controller.remove_associations".
Definition removeNodeFromAllAssocations :=
  "controller.remove_node_from_all_assocations".
Definition removeNodeFromAllAssociations :=
  "controller.remove_node_from_all_associations".
Definition getNodeNeighbors := "controller.get_node_neighbors".
End ControllerCommand.

(** ** [ControllerMessageHandler] *)

(** What a call of a [driver.controller] method throws: a [ZWaveError] or
    another error of the driver, never a [BaseError] of this server. *)
Inductive DriverThrown :=
| DriverZWaveError (code : Z) (message : string)
| DriverError (description : string).

Definition thrown (t : DriverThrown) : Exn :=
  match t with
  | DriverZWaveError code message => ThrowZWaveError code message
  | DriverError description => ThrowOther description
  end.

(** [driver.controller], as far as its methods are called with no [await]:
    what such a call throws or returns. *)
Abbreviation ControllerDriver :=
  (DriverCall -> DriverThrown + JSONValue) (only parsing).

(** How far an [async] handler gets in the task that calls it: it returns,
    it throws, or it awaits a call of the driver and its result is the
    driver's value wrapped under [field] ([None]: the value is dropped and
    the result is the empty object). *)
Inductive HandlerStep :=
| Return (result : JSONValue)
| Throw (e : Exn)
| Await (call : DriverCall) (field : option string).

Definition is_defined {A} (o : option A) : bool :=
  match o with Some _ => true | None => false end.

Module ControllerMessageHandler.

(** The result built from the driver's [value]: [{field: value}], or the
    empty object. *)
Definition wrap_result (field : option string) (value : JSONValue)
    : JSONValue :=
  match field with
  | Some name => JObject [(name, value)]
  | None => JObject []
  end.

(** [await driver.controller.m(...)]: the call is recorded, and the handler
    goes on when the driver answers. *)
Definition call_driver (call : DriverCall) (field : option string)
    (s : ServerState) : ServerState * HandlerStep :=
  (with_driver_calls (driver_calls s ++ [call]) s, Await call field).

(** [driver.controller.m(...)] with no [await]: the call is recorded, and
    the handler returns the driver's value wrapped under [field], or throws
    what the call throws, in the same turn. *)
Definition call_now (driver : ControllerDriver) (call : DriverCall)
    (field : option string) (s : ServerState) : ServerState * HandlerStep :=
  let s1 := with_driver_calls (driver_calls s ++ [call]) s in
  match driver call with
  | inr value => (s1, Return (wrap_result field value))
  | inl t => (s1, Throw (thrown t))
  end.

(** The two answer commands: [if (!slot) throw ...; slot.resolve(value);
    return {}]. *)
Definition answer (ch : Channel) (phase : string) (value : JSONValue)
    (s : ServerState) : ServerState * HandlerStep :=
  match slot ch s with
  | None =>
      (s, Throw (ThrowBaseError (InclusionPhaseNotInProgressError phase)))
  | Some p => (settle p (Fulfilled value) s, Return (JObject []))
  end.

(** [static async handle(message, clientsController, driver, client)]. *)
Definition handle (driver : ControllerDriver) (message : IncomingMessage)
    (client : ClientRef) (s : ServerState) : ServerState * HandlerStep :=
  let command := msg_command message in
  if command =? ControllerCommand.beginInclusion then
    if is_defined (grantSecurityClassesPromise s)
       || is_defined (validateDSKAndEnterPinPromise s)
    then (s, Throw (ThrowBaseError InclusionAlreadyInProgressError))
    else
      let '(s1, options) := processInclusionOptions client message s in
      call_driver (call_beginInclusion options) (Some "success") s1
  else if command =? ControllerCommand.grantSecurityClasses then
    answer GrantChannel "grantSecurityClassesPromise"
      (msg_inclusionGrant message) s
  else if command =? ControllerCommand.validateDSKAndEnterPIN then
    answer ValidateChannel "validateDSKAndEnterPinPromise"
      (msg_pin message) s
  else if command =? ControllerCommand.stopInclusion then
    call_driver call_stopInclusion (Some "success") s
  else if command =? ControllerCommand.beginExclusion then
    call_driver call_beginExclusion (Some "success") s
  else if command =? ControllerCommand.stopExclusion then
    call_driver call_stopExclusion (Some "success") s
  else if command =? ControllerCommand.removeFailedNode then
    call_driver (call_removeFailedNode (msg_nodeId message)) None s
  else if command =? ControllerCommand.replaceFailedNode then
    let '(s1, options) := processInclusionOptions client message s in
    call_driver (call_replaceFailedNode (msg_nodeId message) options)
      (Some "success") s1
  else if command =? ControllerCommand.healNode then
    call_driver (call_healNode (msg_nodeId message)) (Some "success") s
  else if command =? ControllerCommand.beginHealingNetwork then
    call_now driver call_beginHealingNetwork (Some "success") s
  else if command =? ControllerCommand.stopHealingNetwork then
    call_now driver call_stopHealingNetwork (Some "success") s
  else if command =? ControllerCommand.isFailedNode then
    call_driver (call_isFailedNode (msg_nodeId message)) (Some "failed") s
  else if command =? ControllerCommand.getAssociationGroups then
    call_now driver
      (call_getAssociationGroups (msg_nodeId message) (msg_endpoint message))
      (Some "groups") s
  else if command =? ControllerCommand.getAssociations then
    call_now driver
      (call_getAssociations (msg_nodeId message) (msg_endpoint message))
      (Some "associations") s
  else if command =? ControllerCommand.isAssociationAllowed then
    call_now driver
      (call_isAssociationAllowed (msg_nodeId message) (msg_endpoint message)
         (msg_group message) (msg_association message))
      (Some "allowed") s
  else if command =? ControllerCommand.addAssociations then
    call_driver
      (call_addAssociations (msg_nodeId message) (msg_endpoint message)
         (msg_group message) (msg_associations message))
      None s
  else if command =? ControllerCommand.removeAssociations then
    call_driver
      (call_removeAssociations (msg_nodeId message) (msg_endpoint message)
         (msg_group message) (msg_associations message))
      None s
  else if (command =? ControllerCommand.removeNodeFromAllAssocations)
          || (command =? ControllerCommand.removeNodeFromAllAssociations) then
    call_driver (call_removeNodeFromAllAssociations (msg_nodeId message))
      None s
  else if command =? ControllerCommand.getNodeNeighbors then
    call_driver (call_getNodeNeighbors (msg_nodeId message))
      (Some "neighbors") s
  else (s, Throw (ThrowBaseError (UnknownCommandError command))).

End ControllerMessageHandler.

(** ** [Client.receiveMessage] *)

(** What [receiveMessage] is waiting for at its [await]: a driver call made
    by the controller handler, or the handler of another namespace (those
    handlers are not among the sources: only their outcome is modelled). *)
Inductive Awaited :=
| AwaitDriver (call : DriverCall) (field : option string)
| AwaitHandler (instance : string) (message : IncomingMessage).

Record Suspended := mkSuspended {
  susp_messageId : string;
  susp_awaited : Awaited;
}.

(** The outcome of what was awaited. *)
Inductive Outcome :=
| Returned (value : JSONValue)
| Threw (e : Exn).

(** What [JSON.parse] does with a frame: it throws a [SyntaxError], or it
    returns a value.  The value is taken at the declared type
    [IncomingMessage], except for the one value on which reading a property
    throws: [null]. *)
Inductive JSONParse :=
| JSON_SyntaxError
| JSON_null
| JSON_message (msg : IncomingMessage).

(** Reading a property of what [JSON.parse] returned: [None] when the read
    throws a [TypeError]. *)
Definition property_owner (parsed : JSONParse) : option IncomingMessage :=
  match parsed with
  | JSON_message msg => Some msg
  | _ => None
  end.

Definition TypeError : Exn := ThrowOther "TypeError".

(** How far the promise of [receiveMessage] is at the end of the task: it is
    fulfilled, it waits at the [await], or it is rejected with what escaped
    the [catch] block. *)
Inductive Progress :=
| Done
| Waiting (k : Suspended)
| Escaped (e : Exn).

(** Where the [try] block of [receiveMessage] stops in the current task. *)
Inductive TryResult :=
| Completed
| Suspend (k : Suspended)
| Raised (e : Exn).

(** [command.split(".")[0]]. *)
Fixpoint before_dot (command : string) : string :=
  match command with
  | EmptyString => EmptyString
  | String c rest =>
      if Ascii.eqb c "."%char then EmptyString else String c (before_dot rest)
  end.

(** The [catch] block of [receiveMessage]. *)
Definition receiveMessage_catch (this : ClientRef) (messageId : string)
    (err : Exn) : ServerState -> ServerState :=
  match err with
  | ThrowBaseError e => sendResultError this messageId (errorCode e) (args e)
  | ThrowZWaveError code message =>
      sendResultZWaveError this messageId code message
  | ThrowOther _ => sendResultError this messageId unknownError []
  end.

(** What the table [instanceHandlers], a plain object, inherits from
    [Object.prototype], as the call [this.instanceHandlers[name](msg)] sees
    it: [None] when the lookup gives [undefined], otherwise what the call
    throws or returns.  [value] is [msg] itself, which [Object(msg)] returns;
    the table has no [toString] of its own, so it is ["[object Object]"] as
    a string and as a property key; [valueOf] returns the table, whose six
    functions [JSON.stringify] leaves out; [__proto__] is the prototype, an
    object that cannot be called, and the two [__define...__] methods want a
    function as second argument. *)
Definition Object_prototype (name : string) (value : JSONValue)
    : option (Exn + JSONValue) :=
  if name =? "constructor" then Some (inr value)
  else if (name =? "toString") || (name =? "toLocaleString") then
    Some (inr (JString "[object Object]"))
  else if name =? "valueOf" then Some (inr (JObject []))
  else if (name =? "hasOwnProperty") || (name =? "isPrototypeOf")
          || (name =? "propertyIsEnumerable") then
    Some (inr (JBool false))
  else if (name =? "__lookupGetter__") || (name =? "__lookupSetter__") then
    Some (inr JUndefined)
  else if (name =? "__proto__") || (name =? "__defineGetter__")
          || (name =? "__defineSetter__") then
    Some (inl TypeError)
  else None.

Section Server.

(** The driver collaborator, and the parts of the repository that are not
    among the sources: the constants of [const.ts], [dumpState] and
    [dumpLogConfig] of [state.ts].  [JSON_parse] is [JSON.parse]. *)
Variable Driver : Type.
Variables minSchemaVersion maxSchemaVersion : Z.
Variables version libVersion : string.
Variable homeId : Driver -> Z.
Variable dumpState : Driver -> Z -> JSONValue.
Variable dumpLogConfig : Driver -> Z -> JSONValue.
Variable updateLogConfig : Driver -> JSONValue -> option Exn.
Variable JSON_parse : string -> JSONParse.

(** [driver.controller] of a driver, and the value that [JSON.parse]
    returned for a message, of which the record is the typed view. *)
Variable driver_controller : Driver -> ControllerDriver.
Variable message_value : IncomingMessage -> JSONValue.

(** The field initialisers of [class Client], on an open socket. *)
Definition new_Client : Client :=
  mkClient false false minSchemaVersion false true [].

(** A field read [this.f]. *)
Definition this_ (this : ClientRef) (s : ServerState) : Client :=
  default new_Client (client_heap s !! this).

(** [sendVersion()]. *)
Definition sendVersion (driver : Driver) (this : ClientRef)
    : ServerState -> ServerState :=
  sendData this
    (VersionMessage libVersion version (homeId driver)
       minSchemaVersion maxSchemaVersion)
    false.

(** The [try] block of [receiveMessage], up to its [await].  The lookup
    [this.instanceHandlers[instance]] finds the six keys the table is built
    with and, under any other name, what the table inherits from
    [Object.prototype]: that value is called like a handler, and what it
    returns is sent as the result in the same turn. *)
Definition receiveMessage_try (driver : Driver) (this : ClientRef)
    (msg : IncomingMessage) (s : ServerState) : ServerState * TryResult :=
  let messageId := msg_messageId msg in
  if msg_command msg =? ServerCommand.setApiSchema then
    let s1 := update_client this (set_schemaVersion (msg_schemaVersion msg)) s in
    if (schemaVersion (this_ this s1) <? minSchemaVersion)%Z
       || (schemaVersion (this_ this s1) >? maxSchemaVersion)%Z
    then
      (s1, Raised (ThrowBaseError
                     (SchemaIncompatibleError (schemaVersion (this_ this s1)))))
    else (sendResultSuccess this messageId (JObject []) false s1, Completed)
  else if msg_command msg =? ServerCommand.startListening then
    let s1 :=
      sendResultSuccess this messageId
        (JObject [("state", dumpState driver (schemaVersion (this_ this s)))])
        true s in
    (update_client this (set_receiveEvents true) s1, Completed)
  else if msg_command msg =? ServerCommand.updateLogConfig then
    let s1 :=
      with_driver_calls
        (driver_calls s ++ [call_updateLogConfig (msg_config msg)]) s in
    match updateLogConfig driver (msg_config msg) with
    | Some e => (s1, Raised e)
    | None => (sendResultSuccess this messageId (JObject []) false s1, Completed)
    end
  else if msg_command msg =? ServerCommand.getLogConfig then
    (sendResultSuccess this messageId
       (JObject [("config",
                  dumpLogConfig driver (schemaVersion (this_ this s)))])
       false s,
     Completed)
  else
    let instance := before_dot (msg_command msg) in
    if instance =? Instance.controller then
      match
        ControllerMessageHandler.handle (driver_controller driver) msg this s
      with
      | (s1, Return result) =>
          (sendResultSuccess this messageId result false s1, Completed)
      | (s1, Throw e) => (s1, Raised e)
      | (s1, Await call field) =>
          (s1, Suspend (mkSuspended messageId (AwaitDriver call field)))
      end
    else if (instance =? Instance.driver) || (instance =? Instance.node)
            || (instance =? Instance.multicast_group)
            || (instance =? Instance.broadcast_node)
            || (instance =? Instance.endpoint) then
      (s, Suspend (mkSuspended messageId (AwaitHandler instance msg)))
    else
      match Object_prototype instance (message_value msg) with
      | Some (inr value) =>
          (sendResultSuccess this messageId value false s, Completed)
      | Some (inl e) => (s, Raised e)
      | None =>
          (s, Raised (ThrowBaseError (UnknownCommandError (msg_command msg))))
      end.

(** [async receiveMessage(data)] up to its [await]: a frame that does not
    parse closes the socket; otherwise the [try] block runs on [msg], and
    what it throws goes to the [catch] block, which reads [msg.messageId] to
    build the failure result.  What the [catch] block throws itself leaves
    the function. *)
Definition receiveMessage (driver : Driver) (this : ClientRef)
    (data : string) (s : ServerState) : ServerState * Progress :=
  match JSON_parse data with
  | JSON_SyntaxError => (update_client this socket_close s, Done)
  | parsed =>
      let '(s1, r) :=
        match property_owner parsed with
        | Some msg => receiveMessage_try driver this msg s
        | None => (s, Raised TypeError)
        end in
      match r with
      | Completed => (s1, Done)
      | Suspend k => (s1, Waiting k)
      | Raised e =>
          match property_owner parsed with
          | Some msg =>
              (receiveMessage_catch this (msg_messageId msg) e s1, Done)
          | None => (s1, Escaped TypeError)
          end
      end
  end.

(** The value a suspended command sends once what it awaits returns. *)
Definition result_of (a : Awaited) (value : JSONValue) : JSONValue :=
  match a with
  | AwaitDriver _ field => ControllerMessageHandler.wrap_result field value
  | AwaitHandler _ _ => value
  end.

(** The rest of [receiveMessage] after its [await]: still inside the
    [try], so a thrown outcome goes to the same [catch] block. *)
Definition receiveMessage_resume (this : ClientRef) (k : Suspended)
    (o : Outcome) : ServerState -> ServerState :=
  match o with
  | Returned value =>
      sendResultSuccess this (susp_messageId k)
        (result_of (susp_awaited k) value) false
  | Threw e => receiveMessage_catch this (susp_messageId k) e
  end.

(** ** [class ClientsController] *)

Definition connected (this : ClientRef) (s : ServerState) : bool :=
  match client_heap s !! this with
  | Some c => isConnected c
  | None => false
  end.

(** The callback given to [setInterval] in [addSocket]. *)
Definition pingInterval_callback (s : ServerState) : ServerState :=
  let '(s1, newClients) :=
    foldl
      (fun '(st, acc) client =>
         if connected client st then (st, acc ++ [client])
         else (disconnect client st, acc))
      (s, []) (clients s) in
  with_clients newClients s1.

(** [addSocket(socket)]: the new session, its version frame, its
    registration, and the timer and the event forwarder on first use. *)
Definition addSocket (driver : Driver) (s : ServerState) : ServerState :=
  let this := length (client_heap s) in
  let s1 := with_client_heap (client_heap s ++ [new_Client]) s in
  let s2 := sendVersion driver this s1 in
  let s3 := with_clients (clients s2 ++ [this]) s2 in
  mkServerState (client_heap s3) (clients s3) true true
    (grantSecurityClassesPromise s3) (validateDSKAndEnterPinPromise s3)
    (promises s3) (closures s3) (microtasks s3) (driver_calls s3).

(** The peer or the network closes a session's socket. *)
Definition socket_lost (this : ClientRef) : ServerState -> ServerState :=
  update_client this
    (fun c => mkClient (receiveEvents c) (_outstandingPing c)
                (schemaVersion c) (receiveLogs c) false (socket_log c)).

(** [WebSocketLogTransport.log(info, next)] of [logging.ts]. *)
Definition log (info : JSONValue) (s : ServerState) : ServerState :=
  foldl (fun st client => sendEvent client (LoggingEvent info) st) s
    (filter (fun client => receiveLogs (this_ client s) && connected client s = true)
       (clients s)).

(** Modelled from the spec: the [EventForwarder] of [forward.ts], which is
    not among the sources: "for each event, pushes to every session with
    [receiveEvents=true] and currently connected". *)
Definition forwardEvent (payload : JSONValue) (s : ServerState) : ServerState :=
  foldl (fun st client => sendEvent client (ForwardedEvent payload) st) s
    (filter (fun client => receiveEvents (this_ client s) && connected client s = true)
       (clients s)).

(** One task of the event loop: the job, then the microtask checkpoint. *)
Definition task (job : ServerState -> ServerState) (s : ServerState)
    : ServerState :=
  run_microtasks (job s).

(** ** Vocabulary of the statements and invariants *)

(** The command that answers a channel, the value it carries and the name
    under which [handle] reports the channel. *)
Definition answer_command (ch : Channel) : string :=
  match ch with
  | GrantChannel => ControllerCommand.grantSecurityClasses
  | ValidateChannel => ControllerCommand.validateDSKAndEnterPIN
  end.

Definition answer_value (ch : Channel) (message : IncomingMessage) : JSONValue :=
  match ch with
  | GrantChannel => msg_inclusionGrant message
  | ValidateChannel => msg_pin message
  end.

Definition phase_name (ch : Channel) : string :=
  match ch with
  | GrantChannel => "grantSecurityClassesPromise"
  | ValidateChannel => "validateDSKAndEnterPinPromise"
  end.

(** A deferred is pending in a state. *)
Definition pending (p : PromiseRef) (s : ServerState) : Prop :=
  exists d, promises s !! p = Some d /\ promise_state d = Pending.

(** The state of a deferred, if it exists. *)
Definition state_of (p : PromiseRef) (s : ServerState) : option PromiseState :=
  promise_state <$> promises s !! p.

(** The calls made on the socket of a session. *)
Definition socket_log_of (this : ClientRef) (s : ServerState) : list SocketOp :=
  match client_heap s !! this with
  | Some c => socket_log c
  | None => []
  end.

(** A frame is a failure result that carries a given correlation id. *)
Definition failure_result_for (messageId : string) (frame : OutgoingMessage)
    : Prop :=
  match frame with
  | ResultError mid _ _ => mid = messageId
  | ResultZWaveError mid _ _ => mid = messageId
  | _ => False
  end.

Definition Channel_eqb (a b : Channel) : bool :=
  match a, b with
  | GrantChannel, GrantChannel | ValidateChannel, ValidateChannel => true
  | _, _ => false
  end.

(** A queued [finally] callback clears the slot of [ch] in [s]. *)
Definition fires (ch : Channel) (s : ServerState) (m : Microtask) : bool :=
  match m with
  | FinallyCallback ch' env =>
      Channel_eqb ch' ch
      && match closures s !! env with
         | Some c => same_promise (slot ch s) (local ch c)
         | None => false
         end
  end.

Definition is_pending (p : PromiseRef) (s : ServerState) : bool :=
  match promises s !! p with
  | Some d =>
      match promise_state d with
      | Pending => true
      | _ => false
      end
  | None => false
  end.

(** The microtask that settling [p] queues. *)
Definition finally_job (p : PromiseRef) (s : ServerState) : list Microtask :=
  match promises s !! p with
  | Some d =>
      match promise_state d with
      | Pending => [FinallyCallback (finally_channel d) (finally_closure d)]
      | _ => []
      end
  | None => []
  end.

(** Every promise held by a closure variable was registered with that
    closure and that channel. *)
Definition locals_registered (s : ServerState) : Prop :=
  forall env c ch p,
    closures s !! env = Some c -> local ch c = Some p ->
    exists d, promises s !! p = Some d
              /\ finally_channel d = ch /\ finally_closure d = env.

(** Every promise held by a slot is pending and is the one its closure's
    variable holds. *)
Definition slots_pending (s : ServerState) : Prop :=
  forall ch p,
    slot ch s = Some p ->
    exists d c, promises s !! p = Some d
                /\ promise_state d = Pending
                /\ closures s !! finally_closure d = Some c
                /\ local ch c = Some p.

(** The coordinator between two tasks. *)
Definition wf (s : ServerState) : Prop :=
  microtasks s = [] /\ locals_registered s /\ slots_pending s.

(** The callbacks that an abort of the closure [c] queues. *)
Definition abort_jobs (env : ClosureRef) (c : Closure) (s : ServerState)
    : list Microtask :=
  match local_grantSecurityClassesPromise c with
  | Some p => if is_pending p s then [FinallyCallback GrantChannel env] else []
  | None => []
  end
  ++ match local_validateDSKAndEnterPinPromise c with
     | Some p =>
         if is_pending p s then [FinallyCallback ValidateChannel env] else []
     | None => []
     end.

(** One task of the event loop, for every entry point modelled above: one
    socket event, one timer tick, one resumption or one callback invoked by
    the driver, each followed by the microtask checkpoint.  A resumption may
    carry any continuation and any outcome: the driver and the handlers of
    the other namespaces are outside this development. *)
Inductive step : ServerState -> ServerState -> Prop :=
| step_addSocket driver s :
    step s (task (addSocket driver) s)
| step_receiveMessage driver this data s :
    step s (task (fun s0 => (receiveMessage driver this data s0).1) s)
| step_resume this k o s :
    step s (task (receiveMessage_resume this k o) s)
| step_grantSecurityClasses env requested s :
    step s (task (grantSecurityClasses_callback env requested) s)
| step_validateDSKAndEnterPIN env dsk s :
    step s (task (validateDSKAndEnterPIN_callback env dsk) s)
| step_abort env s :
    step s (task (abort_callback env) s)
| step_pong this s :
    step s (task (on_pong this) s)
| step_checkAlive this s :
    step s (task (checkAlive this) s)
| step_pingInterval s :
    step s (task pingInterval_callback s)
| step_socket_lost this s :
    step s (task (socket_lost this) s)
| step_log info s :
    step s (task (log info) s)
| step_forwardEvent payload s :
    step s (task (forwardEvent payload) s).

Inductive reachable : ServerState -> Prop :=
| reachable_initial : reachable initial_state
| reachable_step s s' : reachable s -> step s s' -> reachable s'.

(** A success result whose payload is a state dump. *)
Definition is_snapshot (m : OutgoingMessage) : bool :=
  match m with
  | ResultSuccess _ (JObject [(key, _)]) => key =? "state"
  | _ => false
  end.

Definition snapshot_op (op : SocketOp) : bool :=
  match op with
  | Send m true => is_snapshot m
  | _ => false
  end.

Definition compressed (op : SocketOp) : bool :=
  match op with
  | Send _ compress => compress
  | _ => false
  end.

(** A controller event pushed by the event forwarder. *)
Definition forwarded (op : SocketOp) : bool :=
  match op with
  | Send (EventMessage (ForwardedEvent _)) _ => true
  | _ => false
  end.

Definition has_snapshot (l : list SocketOp) : bool := existsb snapshot_op l.

(** Every compressed frame of a log is a snapshot result. *)
Definition only_snapshots_compressed (l : list SocketOp) : bool :=
  forallb (fun op => negb (compressed op) || snapshot_op op) l.

(** Every forwarded event of a log comes after a snapshot result; [seen]
    tells whether one came before the log. *)
Fixpoint events_follow_snapshot (seen : bool) (l : list SocketOp) : bool :=
  match l with
  | [] => true
  | op :: rest =>
      (negb (forwarded op) || seen)
      && events_follow_snapshot (seen || snapshot_op op) rest
  end.

Definition log_ok (c : Client) : Prop :=
  only_snapshots_compressed (socket_log c) = true
  /\ events_follow_snapshot false (socket_log c) = true
  /\ (receiveEvents c = true -> has_snapshot (socket_log c) = true).

Definition logs_ok (s : ServerState) : Prop := Forall log_ok (client_heap s).

(** The frames that are neither compressed nor forwarded events. *)
Definition plain (m : OutgoingMessage) : bool :=
  match m with
  | EventMessage (ForwardedEvent _) => false
  | _ => true
  end.

(** The part of the state that coherence reads. *)
Definition coordinator (s : ServerState) :=
  (grantSecurityClassesPromise s, validateDSKAndEnterPinPromise s,
   promises s, closures s, microtasks s).

(** ** Vocabulary of the further properties *)

(** The members of [ControllerCommand] that have a [case] in [handle]. *)
Definition controller_commands : list string :=
  [ControllerCommand.beginInclusion;
   ControllerCommand.grantSecurityClasses;
   ControllerCommand.validateDSKAndEnterPIN;
   ControllerCommand.stopInclusion;
   ControllerCommand.beginExclusion;
   ControllerCommand.stopExclusion;
   ControllerCommand.removeFailedNode;
   ControllerCommand.replaceFailedNode;
   ControllerCommand.healNode;
   ControllerCommand.beginHealingNetwork;
   ControllerCommand.stopHealingNetwork;
   ControllerCommand.isFailedNode;
   ControllerCommand.getAssociationGroups;
   ControllerCommand.getAssociations;
   ControllerCommand.isAssociationAllowed;
   ControllerCommand.addAssociations;
   ControllerCommand.removeAssociations;
   ControllerCommand.removeNodeFromAllAssocations;
   ControllerCommand.removeNodeFromAllAssociations;
   ControllerCommand.getNodeNeighbors].

(** A socket call that sends a result frame for a given correlation id. *)
Definition result_for (messageId : string) (op : SocketOp) : Prop :=
  match op with
  | Send (ResultSuccess mid _) _ => mid = messageId
  | Send (ResultError mid _ _) _ => mid = messageId
  | Send (ResultZWaveError mid _ _) _ => mid = messageId
  | _ => False
  end.

(** ** The rest of [class ClientsController], and [LoggingEventForwarder] *)

(** [class WebSocketLogTransport]: an object with an identity and the level
    it was constructed with. *)
Record WebSocketLogTransport := mkTransport {
  transport_id : nat;
  transport_level : string;
}.

(** A transport of the driver's log configuration: one of the driver's own,
    or one attached by the server. *)
Inductive Transport :=
| ForeignTransport (name : string)
| ServerTransport (t : WebSocketLogTransport).

(** What [driver.getLogConfig()] returns, as far as [logging.ts] reads it. *)
Record LogConfig := mkLogConfig {
  transports : list Transport;
  level : string;
}.

(** [class LoggingEventForwarder]: its one field. *)
Record LoggingEventForwarder := mkForwarder {
  serverTransport : option WebSocketLogTransport;
}.

(** The [ClientsController] with the fields left out of [ServerState]: the
    cleanup flag, the [setTimeout] callbacks that have not run yet, the log
    forwarder, and the driver's log configuration.  The driver keeps the
    configuration it is given: [getLogConfig] reads [logConfig], and
    [updateLogConfig({transports})] replaces its transports. *)
Record Registry := mkRegistry {
  controller : ServerState;
  cleanupScheduled : bool;
  timeouts : nat;
  loggingEventForwarder : option LoggingEventForwarder;
  logConfig : LogConfig;
  transports_made : nat;
}.

Definition with_controller (s : ServerState) (r : Registry) : Registry :=
  mkRegistry s (cleanupScheduled r) (timeouts r) (loggingEventForwarder r)
    (logConfig r) (transports_made r).

Definition with_pingInterval (b : bool) (s : ServerState) : ServerState :=
  mkServerState (client_heap s) (clients s) b (eventForwarder s)
    (grantSecurityClassesPromise s) (validateDSKAndEnterPinPromise s)
    (promises s) (closures s) (microtasks s) (driver_calls s).

(** [transport !== this.serverTransport], negated. *)
Definition same_transport (t : Transport) (o : option WebSocketLogTransport)
    : bool :=
  match t, o with
  | ServerTransport a, Some b => Nat.eqb (transport_id a) (transport_id b)
  | _, _ => false
  end.

(** [get started()] through [this.loggingEventForwarder?.started === true]. *)
Definition loggingEventForwarderStarted (r : Registry) : bool :=
  match loggingEventForwarder r with
  | Some f => is_defined (serverTransport f)
  | None => false
  end.

(** [LoggingEventForwarder.start()]. *)
Definition start (r : Registry) : Registry :=
  let t := mkTransport (transports_made r) (level (logConfig r)) in
  mkRegistry (controller r) (cleanupScheduled r) (timeouts r)
    (Some (mkForwarder (Some t)))
    (mkLogConfig (transports (logConfig r) ++ [ServerTransport t])
       (level (logConfig r)))
    (S (transports_made r)).

(** [LoggingEventForwarder.stop()]. *)
Definition stop (r : Registry) : Registry :=
  match loggingEventForwarder r with
  | Some f =>
      mkRegistry (controller r) (cleanupScheduled r) (timeouts r)
        (Some (mkForwarder None))
        (mkLogConfig
           (filter (fun t => same_transport t (serverTransport f) = false)
              (transports (logConfig r)))
           (level (logConfig r)))
        (transports_made r)
  | None => r
  end.

(** [LoggingEventForwarder.restartIfNeeded()] through
    [restartLoggingEventForwarderIfNeeded()]. *)
Definition restartLoggingEventForwarderIfNeeded (r : Registry) : Registry :=
  match loggingEventForwarder r with
  | Some f =>
      match serverTransport f with
      | Some t =>
          if negb (transport_level t =? level (logConfig r))
          then start (stop r)
          else r
      | None => r
      end
  | None => r
  end.

(** [configureLoggingEventForwarder()]. *)
Definition configureLoggingEventForwarder (r : Registry) : Registry :=
  let r1 :=
    match loggingEventForwarder r with
    | None =>
        mkRegistry (controller r) (cleanupScheduled r) (timeouts r)
          (Some (mkForwarder None)) (logConfig r) (transports_made r)
    | Some _ => r
    end in
  if negb (loggingEventForwarderStarted r1) then start r1 else r1.

(** [cl.receiveLogs] of a registered session. *)
Definition wants_logs (s : ServerState) (this : ClientRef) : bool :=
  match client_heap s !! this with
  | Some c => receiveLogs c
  | None => false
  end.

(** [cleanupLoggingEventForwarder()]. *)
Definition cleanupLoggingEventForwarder (r : Registry) : Registry :=
  if (length (filter (fun cl => wants_logs (controller r) cl = true)
                (clients (controller r))) =? 0)%nat
     && loggingEventForwarderStarted r
  then stop r
  else r.

(** [scheduleClientCleanup()]. *)
Definition scheduleClientCleanup (r : Registry) : Registry :=
  if cleanupScheduled r then r
  else
    mkRegistry (controller r) true (S (timeouts r)) (loggingEventForwarder r)
      (logConfig r) (transports_made r).

(** [cleanupClients()]. *)
Definition cleanupClients (r : Registry) : Registry :=
  cleanupLoggingEventForwarder
    (mkRegistry
       (with_clients
          (filter (fun cl => connected cl (controller r) = true)
             (clients (controller r)))
          (controller r))
       false (timeouts r) (loggingEventForwarder r) (logConfig r)
       (transports_made r)).

(** The callback given to [setTimeout] runs. *)
Definition timeout_fires (r : Registry) : Registry :=
  cleanupClients
    (mkRegistry (controller r) (cleanupScheduled r) (pred (timeouts r))
       (loggingEventForwarder r) (logConfig r) (transports_made r)).

(** The ["close"] listener installed by [addSocket], when the socket of a
    session has closed. *)
Definition on_close (this : ClientRef) (r : Registry) : Registry :=
  scheduleClientCleanup (with_controller (socket_lost this (controller r)) r).

(** [ClientsController.disconnect()]. *)
Definition ClientsController_disconnect (r : Registry) : Registry :=
  let s := controller r in
  let s1 := with_pingInterval false s in
  let s2 := foldl (fun st client => disconnect client st) s1 (clients s1) in
  cleanupLoggingEventForwarder (with_controller (with_clients [] s2) r).

(** Every server transport of the driver's configuration was made by this
    registry. *)
Definition transports_known (r : Registry) : Prop :=
  forall t, ServerTransport t ∈ transports (logConfig r) ->
            transport_id t < transports_made r.

(** ** Vocabulary of the session invariants *)

(** A version frame. *)
Definition is_version (op : SocketOp) : bool :=
  match op with
  | Send (VersionMessage _ _ _ _ _) _ => true
  | _ => false
  end.

Definition no_version (l : list SocketOp) : bool :=
  forallb (fun op => negb (is_version op)) l.

(** The socket log of [c'] is the log of [c] followed by calls that send
    no version frame. *)
Definition extends (c c' : Client) : Prop :=
  exists l, socket_log c' = socket_log c ++ l /\ no_version l = true.

(** The first call on the socket sent the version frame of this server,
    uncompressed, and no later call sent a version frame. *)
Definition greeted (c : Client) : bool :=
  match socket_log c with
  | Send (VersionMessage driverVersion serverVersion _ minSchema maxSchema)
      false :: rest =>
      (driverVersion =? libVersion) && (serverVersion =? version)
      && (minSchema =? minSchemaVersion)%Z && (maxSchema =? maxSchemaVersion)%Z
      && no_version rest
  | _ => false
  end.

(** The registered sessions are distinct and exist. *)
Definition registry_ok (s : ServerState) : Prop :=
  NoDup (clients s)
  /\ forall x, x ∈ clients s -> x < length (client_heap s).

(** Every session of [s] is a session of [s'], with a socket log that
    extends the one it has in [s]. *)
Definition sessions_extend (s s' : ServerState) : Prop :=
  forall x c, client_heap s !! x = Some c ->
              exists c', client_heap s' !! x = Some c' /\ extends c c'.

(** A step that registers and removes no session: the sessions stay the
    same ones, each with an extended socket log. *)
Definition evolves (s s' : ServerState) : Prop :=
  clients s' = clients s
  /\ length (client_heap s') = length (client_heap s)
  /\ sessions_extend s s'.

End Server.

(** * [bin/server.ts]: the keys of the configuration file *)

Module Bin.

(** A [Buffer]: its bytes. *)
Abbreviation Buffer := (list N) (only parsing).

(** A key of the configuration file, at the declared type
    [Buffer | string] of [normalizeKey].  The strings are ASCII, so that
    [length] counts their characters and [toLowerCase] changes the capital
    letters only. *)
Inductive Key :=
| KeyBuffer (b : Buffer)
| KeyString (s : string).

(** The value of a hexadecimal digit, as [Buffer.from(_, "hex")] reads it. *)
Definition unhex (c : ascii) : option N :=
  let n := N_of_ascii c in
  if (48 <=? n)%N && (n <=? 57)%N then Some (n - 48)%N
  else if (97 <=? n)%N && (n <=? 102)%N then Some (n - 87)%N
  else if (65 <=? n)%N && (n <=? 70)%N then Some (n - 55)%N
  else None.

(** [Buffer.from(s, "hex")]: two digits make a byte; decoding stops at the
    first pair that is not two hexadecimal digits, and a last single
    character is dropped. *)
Fixpoint Buffer_from_hex (s : string) : Buffer :=
  match s with
  | String a (String b rest) =>
      match unhex a, unhex b with
      | Some x, Some y => (16 * x + y)%N :: Buffer_from_hex rest
      | _, _ => []
      end
  | _ => []
  end.

Definition toLowerCase_char (c : ascii) : ascii :=
  let n := N_of_ascii c in
  if (65 <=? n)%N && (n <=? 90)%N then ascii_of_N (n + 32) else c.

(** [s.toLowerCase()]. *)
Fixpoint toLowerCase (s : string) : string :=
  match s with
  | EmptyString => EmptyString
  | String c rest => String (toLowerCase_char c) (toLowerCase rest)
  end.

(** [s.includes(pattern)]. *)
Fixpoint includes (pattern s : string) : bool :=
  String.prefix pattern s
  || match s with
     | EmptyString => false
     | String _ rest => includes pattern rest
     end.

(** [s.replace(/ab/g, "")] for a pattern of the two characters [a] and
    [b]: the occurrences are taken from the left and do not overlap. *)
Fixpoint remove_all (a b : ascii) (s : string) : string :=
  match s with
  | String c (String d rest as tail) =>
      if Ascii.eqb c a && Ascii.eqb d b then remove_all a b rest
      else String c (remove_all a b tail)
  | other => other
  end.

(** [normalizeKey(key, keyName)]; [new Error(message)] is thrown as
    [ThrowOther message]. *)
Definition normalizeKey (key : Key) (keyName : string) : Exn + Buffer :=
  match key with
  | KeyBuffer b => inr b
  | KeyString key =>
      if (String.length key =? 32)%nat then inr (Buffer_from_hex key)
      else
        let key := toLowerCase key in
        if includes "0x" key
        then inr (Buffer_from_hex
                    (remove_all "," " " (remove_all "0" "x" key)))
        else inl (ThrowOther
                    (String.append "Invalid key format for "
                       (String.append keyName " option")))
  end.

(** The options read from the configuration file, as far as the script
    looks at them: [securityKeys] is an object or undefined. *)
Record Options := mkOptions {
  securityKeys : option (gmap string Key);
  networkKey : option Key;
}.

(** The truth value of an optional key: undefined and the empty string are
    falsy, every [Buffer] is truthy. *)
Definition truthy (k : option Key) : bool :=
  match k with
  | Some (KeyBuffer _) => true
  | Some (KeyString s) => negb (s =? "")
  | None => false
  end.

Definition securityKeyNames : list string :=
  ["S0_Legacy"; "S2_AccessControl"; "S2_Authenticated"; "S2_Unauthenticated"].

(** One round of the loop over [securityKeyNames]. *)
Definition normalize_named (acc : Exn + gmap string Key) (key : string)
    : Exn + gmap string Key :=
  match acc with
  | inl e => inl e
  | inr keys =>
      match keys !! key with
      | Some value =>
          match normalizeKey value (String.append "securityKeys." key) with
          | inl e => inl e
          | inr b => inr (<[key := KeyBuffer b]> keys)
          end
      | None => inr keys
      end
  end.

(** The last [else if] of the block: without a truthy [networkKey] the
    script reads [options.securityKeys.S0_Legacy], which throws a
    [TypeError] when [securityKeys] is undefined. *)
Definition require_S0_Legacy (options : Options) : Exn + Options :=
  match securityKeys options with
  | Some keys =>
      if truthy (keys !! "S0_Legacy") then inr options
      else inl (ThrowOther "Error: `securityKeys.S0_Legacy` key is missing.")
  | None => inl TypeError
  end.

(** The body of the [try] block that follows [require(configPath)]: what it
    throws, or the options given to the driver. *)
Definition load_config (options : Options) : Exn + Options :=
  if truthy (securityKeys options ≫= (fun keys => keys !! "S0_Legacy"))
     && truthy (networkKey options)
  then
    inl (ThrowOther
           "Both `networkKey` and `securityKeys.S0_Legacy` options are present in the config. Remove `networkKey`.")
  else
    let normalized :=
      match securityKeys options with
      | Some keys =>
          match foldl normalize_named (inr keys) securityKeyNames with
          | inl e => inl e
          | inr keys' => inr (Some keys')
          end
      | None => inr None
      end in
    match normalized with
    | inl e => inl e
    | inr sk =>
        let options1 := mkOptions sk (networkKey options) in
        match networkKey options with
        | Some value =>
            if truthy (Some value) then
              match normalizeKey value "networkKey" with
              | inl e => inl e
              | inr b =>
                  inr (mkOptions
                         (Some (<["S0_Legacy" := KeyBuffer b]> (default ∅ sk)))
                         None)
              end
            else require_S0_Legacy options1
        | None => require_S0_Legacy options1
        end
    end.

End Bin.

(** * A concrete server

    An instance of the collaborators and a handful of frames, to run the
    model on: a driver with no state, schema versions 0 to 9, and a parser
    that knows the frames of [example_frames] by name. *)

Definition example_message (command : string) : IncomingMessage :=
  mkIncomingMessage command "m1" 0 JNull None None JNull JNull JNull JNull
    JNull JNull JNull.

Definition example_schema (v : Z) : IncomingMessage :=
  mkIncomingMessage ServerCommand.setApiSchema "m2" v JNull None None JNull
    JNull JNull JNull JNull JNull JNull.

Definition example_inclusion (command : string) (st : InclusionStrategy)
    : IncomingMessage :=
  mkIncomingMessage command "m3" 0 JNull (Some (mkInclusionOptions st None []))
    None JNull JNull (JNumber 5) JNull JNull JNull JNull.

Definition example_grant : IncomingMessage :=
  mkIncomingMessage ControllerCommand.grantSecurityClasses "m4" 0 JNull None
    None (JObject [("clientSideAuth", JBool false)]) JNull JNull JNull JNull
    JNull JNull.

Definition example_frames : list (string * IncomingMessage) :=
  [("schema 99", example_schema 99);
   ("schema 5", example_schema 5);
   ("listen", example_message ServerCommand.startListening);
   ("begin", example_inclusion ControllerCommand.beginInclusion Default);
   ("begin legacy", example_message ControllerCommand.beginInclusion);
   ("replace", example_inclusion ControllerCommand.replaceFailedNode Default);
   ("grant", example_grant)].

Fixpoint example_lookup (frames : list (string * IncomingMessage))
    (data : string) : option IncomingMessage :=
  match frames with
  | [] => None
  | (name, msg) :: rest =>
      if data =? name then Some msg else example_lookup rest data
  end.

Definition example_parse (data : string) : JSONParse :=
  if data =? "null" then JSON_null
  else match example_lookup example_frames data with
       | Some msg => JSON_message msg
       | None => JSON_SyntaxError
       end.

Definition example_dump (_ : unit) (v : Z) : JSONValue :=
  JObject [("schema", JNumber v)].

(** A driver whose controller answers every call with [true], and the
    value of a message: its [command] and [messageId]. *)
Definition example_controller (_ : unit) (_ : DriverCall)
    : DriverThrown + JSONValue :=
  inr (JBool true).

Definition example_value (msg : IncomingMessage) : JSONValue :=
  JObject [("command", JString (msg_command msg));
           ("messageId", JString (msg_messageId msg))].

Definition example_receiveMessage (this : ClientRef) (data : string)
    (s : ServerState) : ServerState :=
  (receiveMessage unit 0 9 example_dump example_dump (fun _ _ => None)
     example_parse example_controller example_value tt this data s).1.

(** One session is connected. *)
Definition example_connected : ServerState :=
  task (addSocket unit 0 9 "1.0" "8.0" (fun _ => 1%Z) tt) initial_state.

(** That session has started an inclusion with the Default strategy; the
    driver has not called back yet. *)
Definition example_started : ServerState :=
  task (example_receiveMessage 0 "begin") example_connected.

(** The driver has asked for the security classes to grant. *)
Definition example_asked : ServerState :=
  task (grantSecurityClasses_callback 0 (JArray [JNumber 0; JNumber 1]))
    example_started.

Abbreviation example_reachable :=
  (reachable unit 0 9 "1.0" "8.0" (fun _ => 1%Z) example_dump example_dump
     (fun _ _ => None) example_parse example_controller example_value).

(** Two sessions are connected. *)
Definition example_pair : ServerState :=
  task (addSocket unit 0 9 "1.0" "8.0" (fun _ => 1%Z) tt) example_connected.

(** The first of the two sessions receives the driver's logs. *)
Definition example_listening : ServerState :=
  update_client 0
    (fun c => mkClient (receiveEvents c) (_outstandingPing c) (schemaVersion c)
                true (socket_open c) (socket_log c))
    example_pair.

(** The registry of the two sessions; the driver logs to its console at
    level info. *)
Definition example_registry : Registry :=
  mkRegistry example_pair false 0 None
    (mkLogConfig [ForeignTransport "console"] "info") 0.

(** The log forwarder was started at level info, and the driver's level is
    debug now. *)
Definition example_logging : Registry :=
  mkRegistry example_listening false 0
    (Some (mkForwarder (Some (mkTransport 0 "info"))))
    (mkLogConfig
       [ForeignTransport "console"; ServerTransport (mkTransport 0 "info")]
       "debug")
    1.

(** A configuration file with the deprecated [networkKey] only. *)
Definition example_options : Bin.Options :=
  Bin.mkOptions None
    (Some (Bin.KeyString "0102030405060708090AABCDEF1020FF")).

(** ** The spellings of a key

    The two spellings of the bytes of a key that [normalizeKey] reads: two
    hexadecimal digits for each byte, and the OpenZWave spelling
    [0x01, 0x02, ...].  [upper] chooses capital digits. *)

Definition hex_digit (upper : bool) (d : N) : ascii :=
  if (d <? 10)%N then ascii_of_N (48 + d)
  else ascii_of_N ((if upper then 55 else 87) + d).

Definition hex_byte (upper : bool) (b : N) (rest : string) : string :=
  String (hex_digit upper (b / 16)) (String (hex_digit upper (b mod 16)) rest).

Fixpoint hex_string (upper : bool) (bs : list N) : string :=
  match bs with
  | [] => EmptyString
  | b :: rest => hex_byte upper b (hex_string upper rest)
  end.

Fixpoint openzwave_string (upper : bool) (bs : list N) : string :=
  match bs with
  | [] => EmptyString
  | b :: rest =>
      String "0" (String "x"
        (hex_byte upper b
           match rest with
           | [] => EmptyString
           | _ => String "," (String " " (openzwave_string upper rest))
           end))
  end.

Definition example_key : list N :=
  [1; 2; 3; 4; 5; 6; 7; 8; 9; 10; 171; 205; 239; 16; 32; 255]%N.

(** * Properties *)

Section Properties.

Variable Driver : Type.
Variables minSchemaVersion maxSchemaVersion : Z.
Variables version libVersion : string.
Variable homeId : Driver -> Z.
Variable dumpState : Driver -> Z -> JSONValue.
Variable dumpLogConfig : Driver -> Z -> JSONValue.
Variable updateLogConfig : Driver -> JSONValue -> option Exn.
Variable JSON_parse : string -> JSONParse.
Variable driver_controller : Driver -> ControllerDriver.
Variable message_value : IncomingMessage -> JSONValue.

Local Abbreviation new_Client := (new_Client minSchemaVersion).
Local Abbreviation this_ := (this_ minSchemaVersion).
Local Abbreviation receiveMessage_try :=
  (receiveMessage_try Driver minSchemaVersion maxSchemaVersion dumpState
     dumpLogConfig updateLogConfig driver_controller message_value).
Local Abbreviation receiveMessage :=
  (receiveMessage Driver minSchemaVersion maxSchemaVersion dumpState
     dumpLogConfig updateLogConfig JSON_parse driver_controller message_value).
Local Abbreviation sendVersion :=
  (sendVersion Driver minSchemaVersion maxSchemaVersion version libVersion homeId).
Local Abbreviation addSocket :=
  (addSocket Driver minSchemaVersion maxSchemaVersion version libVersion homeId).
Local Abbreviation log := (log minSchemaVersion).
Local Abbreviation greeted :=
  (greeted minSchemaVersion maxSchemaVersion version libVersion).
Local Abbreviation forwardEvent := (forwardEvent minSchemaVersion).
Local Abbreviation step :=
  (step Driver minSchemaVersion maxSchemaVersion version libVersion homeId
     dumpState dumpLogConfig updateLogConfig JSON_parse driver_controller
     message_value).
Local Abbreviation reachable :=
  (reachable Driver minSchemaVersion maxSchemaVersion version libVersion homeId
     dumpState dumpLogConfig updateLogConfig JSON_parse driver_controller
     message_value).

(** ** Heap lemmas *)

Lemma update_client_lookup this f s c :
  client_heap s !! this = Some c ->
  client_heap (update_client this f s) !! this = Some (f c).
Proof.
  intros H. unfold update_client, with_client_heap. cbn [client_heap].
  rewrite list_lookup_alter_eq, H. reflexivity.
Qed.

Lemma update_client_lookup_ne this other f s :
  this <> other ->
  client_heap (update_client this f s) !! other = client_heap s !! other.
Proof.
  intros H. unfold update_client, with_client_heap. cbn [client_heap].
  apply list_lookup_alter_ne. exact H.
Qed.

Lemma this_lookup this s c :
  client_heap s !! this = Some c -> this_ this s = c.
Proof. intros H. unfold this_. rewrite H. reflexivity. Qed.

Lemma sendData_lookup this data compress s c :
  client_heap s !! this = Some c ->
  client_heap (sendData this data compress s) !! this
  = Some (socket_call (Send data compress) c).
Proof. apply update_client_lookup. Qed.

(** ** [receiveMessage] by what the frame parses to *)

Lemma receiveMessage_SyntaxError driver this data s :
  JSON_parse data = JSON_SyntaxError ->
  receiveMessage driver this data s = (update_client this socket_close s, Done).
Proof. intros H. unfold receiveMessage. rewrite H. reflexivity. Qed.

Lemma receiveMessage_null driver this data s :
  JSON_parse data = JSON_null ->
  receiveMessage driver this data s = (s, Escaped TypeError).
Proof. intros H. unfold receiveMessage. rewrite H. reflexivity. Qed.

Lemma receiveMessage_message driver this data msg s :
  JSON_parse data = JSON_message msg ->
  receiveMessage driver this data s
  = match receiveMessage_try driver this msg s with
    | (s1, Completed) => (s1, Done)
    | (s1, Suspend k) => (s1, Waiting k)
    | (s1, Raised e) =>
        (receiveMessage_catch this (msg_messageId msg) e s1, Done)
    end.
Proof.
  intros H. unfold receiveMessage. rewrite H. cbn [property_owner].
  destruct (receiveMessage_try driver this msg s) as [s1 [|k|e]]; reflexivity.
Qed.

(** ** The controller handler *)

Lemma handle_beginInclusion controller message client s :
  msg_command message = ControllerCommand.beginInclusion ->
  ControllerMessageHandler.handle controller message client s =
  if is_defined (grantSecurityClassesPromise s)
     || is_defined (validateDSKAndEnterPinPromise s)
  then (s, Throw (ThrowBaseError InclusionAlreadyInProgressError))
  else
    let '(s1, options) := processInclusionOptions client message s in
    ControllerMessageHandler.call_driver (call_beginInclusion options)
      (Some "success") s1.
Proof.
  intros H. unfold ControllerMessageHandler.handle. rewrite H. reflexivity.
Qed.

Lemma handle_replaceFailedNode controller message client s :
  msg_command message = ControllerCommand.replaceFailedNode ->
  ControllerMessageHandler.handle controller message client s =
  let '(s1, options) := processInclusionOptions client message s in
  ControllerMessageHandler.call_driver
    (call_replaceFailedNode (msg_nodeId message) options) (Some "success") s1.
Proof.
  intros H. unfold ControllerMessageHandler.handle. rewrite H. reflexivity.
Qed.

Lemma handle_answer controller ch message client s :
  msg_command message = answer_command ch ->
  ControllerMessageHandler.handle controller message client s =
  ControllerMessageHandler.answer ch (phase_name ch) (answer_value ch message) s.
Proof.
  intros H. unfold ControllerMessageHandler.handle. rewrite H.
  destruct ch; reflexivity.
Qed.

(** The half of the conflict rule that the code has: [begin_inclusion]
    refuses to start while either slot is defined, and leaves the driver
    alone. *)
Lemma beginInclusion_conflict controller message client s :
  msg_command message = ControllerCommand.beginInclusion ->
  is_defined (grantSecurityClassesPromise s)
  || is_defined (validateDSKAndEnterPinPromise s) = true ->
  ControllerMessageHandler.handle controller message client s =
  (s, Throw (ThrowBaseError InclusionAlreadyInProgressError)).
Proof.
  intros Hc Hp. rewrite handle_beginInclusion by exact Hc.
  rewrite Hp. reflexivity.
Qed.

Lemma processInclusionOptions_legacy client message s :
  msg_options message = None ->
  processInclusionOptions client message s =
  (s, mkInclusionOptions
        (match msg_includeNonSecure message with
         | Some true => Insecure
         | _ => Security_S0
         end) None []).
Proof.
  intros H. unfold processInclusionOptions. rewrite H.
  destruct (msg_includeNonSecure message) as [[|]|]; reflexivity.
Qed.

(** ** Claims about the controller handler *)

(** C10: a [begin_inclusion] or [replace_failed_node] message without an
    [options] object gets the [Insecure] strategy when [includeNonSecure]
    is present and true, and the [Security_S0] strategy otherwise (absent
    or false); no callbacks are installed, the state is not touched, and
    these are the options the driver is called with. *)
Theorem legacy_inclusion_strategy controller message client s :
  msg_options message = None ->
  let options :=
    mkInclusionOptions
      (match msg_includeNonSecure message with
       | Some true => Insecure
       | _ => Security_S0
       end) None [] in
  processInclusionOptions client message s = (s, options)
  /\ (msg_command message = ControllerCommand.beginInclusion ->
      grantSecurityClassesPromise s = None ->
      validateDSKAndEnterPinPromise s = None ->
      ControllerMessageHandler.handle controller message client s =
      (with_driver_calls (driver_calls s ++ [call_beginInclusion options]) s,
       Await (call_beginInclusion options) (Some "success")))
  /\ (msg_command message = ControllerCommand.replaceFailedNode ->
      ControllerMessageHandler.handle controller message client s =
      (with_driver_calls
         (driver_calls s ++ [call_replaceFailedNode (msg_nodeId message) options]) s,
       Await (call_replaceFailedNode (msg_nodeId message) options)
         (Some "success"))).
Proof.
  intros Hopt options.
  pose proof (processInclusionOptions_legacy client message s Hopt) as Hp.
  fold options in Hp.
  split; [exact Hp|]. split.
  - intros Hc Hg Hv. rewrite handle_beginInclusion by exact Hc.
    rewrite Hg, Hv. cbn [is_defined orb]. rewrite Hp. reflexivity.
  - intros Hc. rewrite handle_replaceFailedNode by exact Hc.
    rewrite Hp. reflexivity.
Qed.

(** C1, as the code has it for [replace_failed_node]: with an interactive
    strategy (Default or Security_S2) the handler does not look at the two
    slots.  Whatever they hold, it installs the callbacks, calls
    [driver.controller.replaceFailedNode] and waits for the driver; it
    throws nothing. *)
Theorem replaceFailedNode_ignores_pending controller message client s options p :
  msg_command message = ControllerCommand.replaceFailedNode ->
  msg_options message = Some options ->
  interactive (strategy options) = true ->
  grantSecurityClassesPromise s = Some p ->
  pending p s ->
  let call :=
    call_replaceFailedNode (msg_nodeId message)
      (mkInclusionOptions (strategy options) (Some (length (closures s)))
         (other_options options)) in
  exists s1,
    ControllerMessageHandler.handle controller message client s
    = (s1, Await call (Some "success"))
    /\ driver_calls s1 = driver_calls s ++ [call]
    /\ grantSecurityClassesPromise s1 = Some p.
Proof.
  intros Hc Ho Hi Hg Hp call.
  rewrite handle_replaceFailedNode by exact Hc.
  unfold processInclusionOptions. rewrite Ho, Hi.
  eexists. split; [reflexivity|]. split; [reflexivity|exact Hg].
Qed.

(** C8: an answer command ([controller.grant_security_classes] or
    [controller.validate_dsk_and_enter_pin]) on a channel whose slot is
    empty throws the phase-not-in-progress error that names the channel and
    leaves the whole state as it was, so the session answers with that
    failure and neither slot changes; on a channel whose slot holds a
    pending deferred it fulfils that deferred with the supplied value and
    returns the empty result. *)
Theorem answer_needs_pending_exchange controller ch message client s :
  msg_command message = answer_command ch ->
  (slot ch s = None ->
   ControllerMessageHandler.handle controller message client s
   = (s, Throw (ThrowBaseError (InclusionPhaseNotInProgressError (phase_name ch))))
   /\ forall driver data c,
       JSON_parse data = JSON_message message ->
       client_heap s !! client = Some c ->
       exists s',
         receiveMessage driver client data s = (s', Done)
         /\ client_heap s' !! client
            = Some (socket_call
                      (Send (ResultError (msg_messageId message)
                               inclusionPhaseNotInProgress
                               [("phase", JString (phase_name ch))]) false) c)
         /\ grantSecurityClassesPromise s' = grantSecurityClassesPromise s
         /\ validateDSKAndEnterPinPromise s' = validateDSKAndEnterPinPromise s
         /\ promises s' = promises s)
  /\ (forall p, slot ch s = Some p -> pending p s ->
      exists s',
        ControllerMessageHandler.handle controller message client s
        = (s', Return (JObject []))
        /\ state_of p s' = Some (Fulfilled (answer_value ch message))
        /\ forall q, q <> p -> promises s' !! q = promises s !! q).
Proof.
  intros Hc. split.
  - intros Hs. rewrite (handle_answer _ ch) by exact Hc.
    unfold ControllerMessageHandler.answer. rewrite Hs.
    split; [reflexivity|].
    intros driver data c Hparse Hcl.
    rewrite (receiveMessage_message _ _ _ _ _ Hparse).
    unfold receiveMessage_try. rewrite Hc.
    replace (answer_command ch =? ServerCommand.setApiSchema) with false
      by (destruct ch; reflexivity).
    replace (answer_command ch =? ServerCommand.startListening) with false
      by (destruct ch; reflexivity).
    replace (answer_command ch =? ServerCommand.updateLogConfig) with false
      by (destruct ch; reflexivity).
    replace (answer_command ch =? ServerCommand.getLogConfig) with false
      by (destruct ch; reflexivity).
    replace (before_dot (answer_command ch) =? Instance.controller) with true
      by (destruct ch; reflexivity).
    rewrite (handle_answer _ ch) by exact Hc.
    unfold ControllerMessageHandler.answer. rewrite Hs.
    eexists. split; [reflexivity|].
    cbn [receiveMessage_catch InclusionPhaseNotInProgressError errorCode args].
    unfold sendResultError. rewrite (sendData_lookup _ _ _ _ c Hcl).
    repeat split.
  - intros p Hs [d [Hd Hpend]].
    rewrite (handle_answer _ ch) by exact Hc.
    unfold ControllerMessageHandler.answer. rewrite Hs.
    eexists. split; [reflexivity|].
    unfold settle. rewrite Hd, Hpend. unfold state_of.
    cbn [promises with_microtasks with_promises]. split.
    + rewrite list_lookup_insert_eq by (eapply lookup_lt_Some; exact Hd).
      reflexivity.
    + intros q Hq. apply list_lookup_insert_ne. congruence.
Qed.

(** ** The session boundary *)

Lemma settle_client_heap p o s : client_heap (settle p o s) = client_heap s.
Proof.
  unfold settle. destruct (promises s !! p) as [d|]; [|reflexivity].
  destruct (promise_state d); reflexivity.
Qed.

Lemma processInclusionOptions_client_heap client message s :
  client_heap (processInclusionOptions client message s).1 = client_heap s.
Proof.
  unfold processInclusionOptions.
  destruct (msg_options message) as [o|].
  - destruct (interactive (strategy o)); reflexivity.
  - destruct (msg_includeNonSecure message) as [[|]|]; reflexivity.
Qed.

(** The controller handler never writes to a socket. *)
Lemma handle_client_heap controller message client s :
  client_heap (ControllerMessageHandler.handle controller message client s).1
  = client_heap s.
Proof.
  unfold ControllerMessageHandler.handle, ControllerMessageHandler.answer,
    ControllerMessageHandler.call_driver, ControllerMessageHandler.call_now.
  repeat match goal with
         | |- context [if ?b then _ else _] => destruct b
         end;
    try reflexivity;
    try (destruct (processInclusionOptions client message s) as [s1 o] eqn:E;
         pose proof (processInclusionOptions_client_heap client message s) as H;
         rewrite E in H; exact H);
    try (match goal with
         | |- context [match controller ?call with _ => _ end] =>
             destruct (controller call); reflexivity
         end);
    match goal with
    | |- context [slot ?ch s] =>
        destruct (slot ch s); cbn [fst]; [apply settle_client_heap|reflexivity]
    end.
Qed.

Lemma settle_clients p o s : clients (settle p o s) = clients s.
Proof.
  unfold settle. destruct (promises s !! p) as [d|]; [|reflexivity].
  destruct (promise_state d); reflexivity.
Qed.

Lemma processInclusionOptions_clients client message s :
  clients (processInclusionOptions client message s).1 = clients s.
Proof.
  unfold processInclusionOptions.
  destruct (msg_options message) as [o|].
  - destruct (interactive (strategy o)); reflexivity.
  - destruct (msg_includeNonSecure message) as [[|]|]; reflexivity.
Qed.

Lemma handle_clients controller message client s :
  clients (ControllerMessageHandler.handle controller message client s).1 = clients s.
Proof.
  unfold ControllerMessageHandler.handle, ControllerMessageHandler.answer,
    ControllerMessageHandler.call_driver, ControllerMessageHandler.call_now.
  repeat match goal with
         | |- context [if ?b then _ else _] => destruct b
         end;
    try reflexivity;
    try (destruct (processInclusionOptions client message s) as [s1 o] eqn:E;
         pose proof (processInclusionOptions_clients client message s) as H;
         rewrite E in H; exact H);
    try (match goal with
         | |- context [match controller ?call with _ => _ end] =>
             destruct (controller call); reflexivity
         end);
    match goal with
    | |- context [slot ?ch s] =>
        destruct (slot ch s); cbn [fst]; [apply settle_clients|reflexivity]
    end.
Qed.

(** A [try] block that throws has sent nothing and closed nothing. *)
Lemma try_raised_quiet driver this msg s s1 e c :
  receiveMessage_try driver this msg s = (s1, Raised e) ->
  client_heap s !! this = Some c ->
  exists c1, client_heap s1 !! this = Some c1
             /\ socket_log c1 = socket_log c
             /\ socket_open c1 = socket_open c.
Proof.
  unfold receiveMessage_try. intros H Hc.
  repeat match type of H with
         | context [if ?b then _ else _] => destruct b
         end;
    try discriminate.
  - injection H as <- _.
    erewrite update_client_lookup by exact Hc. eexists. repeat split.
  - destruct (updateLogConfig driver (msg_config msg)); [|discriminate].
    injection H as <- _. exists c. repeat split. exact Hc.
  - pose proof (handle_client_heap (driver_controller driver) msg this s)
      as Hh.
    destruct (ControllerMessageHandler.handle (driver_controller driver)
                msg this s) as [s2 r].
    destruct r; try discriminate.
    injection H as <- _. exists c. cbn [fst] in Hh. rewrite Hh.
    repeat split. exact Hc.
  - destruct (Object_prototype _ _) as [[e'|v]|]; try discriminate;
      injection H as <- _; exists c; repeat split; exact Hc.
Qed.

(** The failure result the [catch] block sends for a thrown value. *)
Lemma catch_sends_one_failure this messageId e s c :
  client_heap s !! this = Some c ->
  exists frame,
    client_heap (receiveMessage_catch this messageId e s) !! this
    = Some (socket_call (Send frame false) c)
    /\ failure_result_for messageId frame
    /\ (forall b, e = ThrowBaseError b ->
        frame = ResultError messageId (errorCode b) (args b))
    /\ (forall code message, e = ThrowZWaveError code message ->
        frame = ResultZWaveError messageId code message).
Proof.
  intros Hc. destruct e as [b|code message|d]; cbn [receiveMessage_catch];
    unfold sendResultError, sendResultZWaveError;
    rewrite (sendData_lookup _ _ _ _ c Hc);
    eexists; (split; [reflexivity|]); (split; [reflexivity|]);
    split; intros; congruence.
Qed.

(** The session boundary for the frames that [JSON.parse] rejects and for
    the frames that parse to a message.  A frame that does not parse closes
    the socket and sends nothing.  For a parsed message, whatever the [try]
    block throws before the [await] (unknown command, schema
    incompatibility, conflict, phase not in progress, a failing collaborator
    call) and whatever the awaited handler or driver call throws after it
    ends in exactly one frame on the session's socket: an uncompressed
    failure result with the command's own [messageId]; the socket stays as
    open as it was.  A [BaseError] is sent with its own code and arguments, a
    [ZWaveError] with its own code and message. *)
Lemma failures_end_at_the_session_boundary driver this data s c :
  client_heap s !! this = Some c ->
  (JSON_parse data = JSON_SyntaxError ->
   exists s',
     receiveMessage driver this data s = (s', Done)
     /\ client_heap s' !! this = Some (socket_close c))
  /\ (forall msg s1 e,
       JSON_parse data = JSON_message msg ->
       receiveMessage_try driver this msg s = (s1, Raised e) ->
       exists s' frame,
         receiveMessage driver this data s = (s', Done)
         /\ socket_log_of this s' = socket_log c ++ [Send frame false]
         /\ socket_open (this_ this s') = socket_open c
         /\ failure_result_for (msg_messageId msg) frame
         /\ (forall b, e = ThrowBaseError b ->
             frame = ResultError (msg_messageId msg) (errorCode b) (args b))
         /\ (forall code message, e = ThrowZWaveError code message ->
             frame = ResultZWaveError (msg_messageId msg) code message))
  /\ (forall msg s1 k,
       JSON_parse data = JSON_message msg ->
       receiveMessage_try driver this msg s = (s1, Suspend k) ->
       receiveMessage driver this data s = (s1, Waiting k)
       /\ susp_messageId k = msg_messageId msg)
  /\ (forall k e,
       exists frame,
         client_heap (receiveMessage_resume this k (Threw e) s) !! this
         = Some (socket_call (Send frame false) c)
         /\ failure_result_for (susp_messageId k) frame
         /\ (forall b, e = ThrowBaseError b ->
             frame = ResultError (susp_messageId k) (errorCode b) (args b))
         /\ (forall code message, e = ThrowZWaveError code message ->
             frame = ResultZWaveError (susp_messageId k) code message)).
Proof.
  intros Hc. split; [|split; [|split]].
  - intros Hp. rewrite (receiveMessage_SyntaxError _ _ _ _ Hp).
    eexists. split; [reflexivity|]. apply update_client_lookup. exact Hc.
  - intros msg s1 e Hp Ht. rewrite (receiveMessage_message _ _ _ _ _ Hp), Ht.
    destruct (try_raised_quiet _ _ _ _ _ _ _ Ht Hc) as [c1 [Hc1 [Hlog Hopen]]].
    destruct (catch_sends_one_failure this (msg_messageId msg) e s1 c1 Hc1)
      as [frame [Hf [Hfor [Hb Hz]]]].
    exists (receiveMessage_catch this (msg_messageId msg) e s1), frame.
    split; [reflexivity|].
    unfold socket_log_of. rewrite (this_lookup _ _ _ Hf), Hf.
    cbn [socket_call socket_log socket_open]. rewrite Hlog, Hopen.
    repeat split; assumption.
  - intros msg s1 k Hp Ht. rewrite (receiveMessage_message _ _ _ _ _ Hp), Ht.
    split; [reflexivity|].
    unfold receiveMessage_try in Ht.
    repeat match type of Ht with
           | context [if ?b then _ else _] => destruct b
           end;
      try discriminate.
    + destruct (updateLogConfig driver (msg_config msg)); discriminate.
    + destruct (ControllerMessageHandler.handle (driver_controller driver)
                  msg this s) as [s2 [r|e|call f]];
        try discriminate.
      injection Ht as _ <-. reflexivity.
    + injection Ht as _ <-. reflexivity.
    + destruct (Object_prototype _ _) as [[e'|v]|]; discriminate.
  - intros k e. cbn [receiveMessage_resume].
    apply catch_sends_one_failure. exact Hc.
Qed.

(** C3, as the code has it for a frame that parses to [null]: the socket is
    not closed and no result is sent.  The state is left as it was, and the
    [TypeError] raised in the [catch] block leaves [receiveMessage]
    uncaught. *)
Theorem null_frame_escapes_the_catch_block driver this data s :
  JSON_parse data = JSON_null ->
  exists e,
    receiveMessage driver this data s = (s, Escaped e)
    /\ socket_log_of this (receiveMessage driver this data s).1
       = socket_log_of this s
    /\ connected this (receiveMessage driver this data s).1 = connected this s.
Proof.
  intros H. rewrite (receiveMessage_null _ _ _ _ H).
  eexists. split; [reflexivity|]. split; reflexivity.
Qed.

(** C9: a [set_api_schema] command whose version is below the minimum or
    above the maximum is answered with one failure result carrying the
    schema-incompatibility code, and the socket is left open; one whose
    version is in range is answered with the empty success result and that
    version becomes the session's.  This holds in every state of the
    session, so also after any number of refused or accepted attempts: the
    last accepted version is the one stored. *)
Theorem setApiSchema_negotiation driver this data msg s c :
  JSON_parse data = JSON_message msg ->
  msg_command msg = ServerCommand.setApiSchema ->
  client_heap s !! this = Some c ->
  let v := msg_schemaVersion msg in
  exists s' c',
    receiveMessage driver this data s = (s', Done)
    /\ client_heap s' !! this = Some c'
    /\ socket_open c' = socket_open c
    /\ ((v < minSchemaVersion \/ maxSchemaVersion < v)%Z ->
        socket_log c'
        = socket_log c
          ++ [Send (ResultError (msg_messageId msg) schemaIncompatible
                      [("schemaId", JNumber v)]) false])
    /\ ((minSchemaVersion <= v <= maxSchemaVersion)%Z ->
        schemaVersion c' = v
        /\ socket_log c'
           = socket_log c
             ++ [Send (ResultSuccess (msg_messageId msg) (JObject [])) false]).
Proof.
  intros Hp Hcmd Hc v. subst v.
  set (v := msg_schemaVersion msg).
  rewrite (receiveMessage_message _ _ _ _ _ Hp).
  unfold receiveMessage_try. rewrite Hcmd.
  change (ServerCommand.setApiSchema =? ServerCommand.setApiSchema) with true.
  cbv iota. fold v.
  pose proof (update_client_lookup this (set_schemaVersion v) s c Hc) as H1.
  rewrite (this_lookup _ _ _ H1). cbn [set_schemaVersion schemaVersion].
  destruct ((v <? minSchemaVersion)%Z || (v >? maxSchemaVersion)%Z) eqn:E.
  - eexists. eexists. split; [reflexivity|].
    cbn [receiveMessage_catch SchemaIncompatibleError errorCode args].
    unfold sendResultError. rewrite (sendData_lookup _ _ _ _ _ H1).
    split; [reflexivity|]. split; [reflexivity|]. split.
    + intros _. reflexivity.
    + intros Hr. apply orb_true_iff in E. destruct E as [E|E]; lia.
  - eexists. eexists. split; [reflexivity|].
    unfold sendResultSuccess. rewrite (sendData_lookup _ _ _ _ _ H1).
    split; [reflexivity|]. split; [reflexivity|]. split.
    + intros Hr. apply orb_false_iff in E. destruct E as [E1 E2]. lia.
    + intros _. split; reflexivity.
Qed.

(** C2, as the code has it: [set_api_schema] writes the version into the
    session before it compares it with the bounds, so a refused version
    stays stored, and a [start_listening] that follows dumps the state
    under that version. *)
Theorem refused_schema_version_is_kept
    driver this data1 msg1 data2 msg2 s c :
  JSON_parse data1 = JSON_message msg1 ->
  msg_command msg1 = ServerCommand.setApiSchema ->
  (msg_schemaVersion msg1 < minSchemaVersion
   \/ maxSchemaVersion < msg_schemaVersion msg1)%Z ->
  JSON_parse data2 = JSON_message msg2 ->
  msg_command msg2 = ServerCommand.startListening ->
  client_heap s !! this = Some c ->
  let v := msg_schemaVersion msg1 in
  let s1 := (receiveMessage driver this data1 s).1 in
  let s2 := (receiveMessage driver this data2 s1).1 in
  schemaVersion (this_ this s1) = v
  /\ schemaVersion (this_ this s2) = v
  /\ socket_log_of this s2
     = socket_log c
       ++ [Send (ResultError (msg_messageId msg1) schemaIncompatible
                   [("schemaId", JNumber v)]) false;
           Send (ResultSuccess (msg_messageId msg2)
                   (JObject [("state", dumpState driver v)])) true].
Proof.
  intros Hp1 Hc1 Hr Hp2 Hc2 Hc v s1 s2. subst v.
  set (v := msg_schemaVersion msg1) in *.
  assert (client_heap s1 !! this
          = Some (socket_call
                    (Send (ResultError (msg_messageId msg1) schemaIncompatible
                             [("schemaId", JNumber v)]) false)
                    (set_schemaVersion v c))) as H1.
  { subst s1. rewrite (receiveMessage_message _ _ _ _ _ Hp1).
    unfold receiveMessage_try. rewrite Hc1.
    change (ServerCommand.setApiSchema =? ServerCommand.setApiSchema) with true.
    cbv iota. fold v.
    pose proof (update_client_lookup this (set_schemaVersion v) s c Hc) as H1.
    rewrite (this_lookup _ _ _ H1). cbn [set_schemaVersion schemaVersion].
    replace ((v <? minSchemaVersion)%Z || (v >? maxSchemaVersion)%Z) with true
      by (symmetry; apply orb_true_iff; lia).
    cbn [fst receiveMessage_catch SchemaIncompatibleError errorCode args].
    unfold sendResultError. apply sendData_lookup. exact H1. }
  assert (client_heap s2 !! this
          = Some (set_receiveEvents true
                    (socket_call
                       (Send (ResultSuccess (msg_messageId msg2)
                                (JObject [("state", dumpState driver v)])) true)
                       (socket_call
                          (Send (ResultError (msg_messageId msg1)
                                   schemaIncompatible
                                   [("schemaId", JNumber v)]) false)
                          (set_schemaVersion v c))))) as H2.
  { subst s2. rewrite (receiveMessage_message _ _ _ _ _ Hp2).
    unfold receiveMessage_try. rewrite Hc2.
    change (ServerCommand.startListening =? ServerCommand.setApiSchema)
      with false.
    change (ServerCommand.startListening =? ServerCommand.startListening)
      with true.
    cbv iota. cbn [fst].
    rewrite (this_lookup _ _ _ H1).
    apply update_client_lookup. unfold sendResultSuccess.
    apply sendData_lookup. exact H1. }
  unfold socket_log_of.
  rewrite (this_lookup _ _ _ H1), (this_lookup _ _ _ H2), H2.
  cbn. rewrite <- app_assoc. repeat split.
Qed.

(** ** The microtask checkpoint *)

Lemma Channel_eqb_eq a b : Channel_eqb a b = true <-> a = b.
Proof. destruct a, b; cbn; split; congruence. Qed.

Lemma same_promise_eq a b : same_promise a b = true <-> a = b.
Proof.
  destruct a as [p|], b as [q|]; cbn; try (split; congruence).
  rewrite Nat.eqb_eq. split; congruence.
Qed.

Lemma slot_with_slot ch ch' o s :
  slot ch (with_slot ch' o s) = if Channel_eqb ch' ch then o else slot ch s.
Proof. destruct ch, ch'; reflexivity. Qed.

Lemma run_microtask_closures s m : closures (run_microtask s m) = closures s.
Proof.
  destruct m as [ch env]. cbn. destruct (closures s !! env); [|reflexivity].
  destruct (same_promise _ _); [|reflexivity]. destruct ch; reflexivity.
Qed.

Lemma run_microtask_promises s m : promises (run_microtask s m) = promises s.
Proof.
  destruct m as [ch env]. cbn. destruct (closures s !! env); [|reflexivity].
  destruct (same_promise _ _); [|reflexivity]. destruct ch; reflexivity.
Qed.

Lemma run_microtask_client_heap s m :
  client_heap (run_microtask s m) = client_heap s.
Proof.
  destruct m as [ch env]. cbn. destruct (closures s !! env); [|reflexivity].
  destruct (same_promise _ _); [|reflexivity]. destruct ch; reflexivity.
Qed.

Lemma run_microtask_microtasks s m :
  microtasks (run_microtask s m) = microtasks s.
Proof.
  destruct m as [ch env]. cbn. destruct (closures s !! env); [|reflexivity].
  destruct (same_promise _ _); [|reflexivity]. destruct ch; reflexivity.
Qed.

Lemma run_microtask_slot ch s m :
  slot ch (run_microtask s m) = if fires ch s m then None else slot ch s.
Proof.
  destruct m as [ch' env]. cbn [run_microtask fires].
  destruct (closures s !! env) as [c|].
  - destruct (Channel_eqb ch' ch) eqn:E.
    + apply Channel_eqb_eq in E. subst ch'. cbn [andb].
      destruct (same_promise (slot ch s) (local ch c)); [|reflexivity].
      rewrite slot_with_slot.
      replace (Channel_eqb ch ch) with true
        by (symmetry; apply Channel_eqb_eq; reflexivity).
      reflexivity.
    + cbn [andb]. destruct (same_promise (slot ch' s) (local ch' c));
        [|reflexivity].
      rewrite slot_with_slot, E. reflexivity.
  - rewrite andb_false_r. reflexivity.
Qed.

Lemma existsb_pointwise {A} (f g : A -> bool) l :
  (forall a, f a = g a) -> existsb f l = existsb g l.
Proof.
  intros H. induction l as [|a l IH]; cbn; [reflexivity|].
  rewrite H, IH. reflexivity.
Qed.

Lemma foldl_run_microtask_closures ms s :
  closures (foldl run_microtask s ms) = closures s.
Proof.
  revert s. induction ms as [|m ms IH]; intros s; cbn; [reflexivity|].
  rewrite IH. apply run_microtask_closures.
Qed.

Lemma foldl_run_microtask_promises ms s :
  promises (foldl run_microtask s ms) = promises s.
Proof.
  revert s. induction ms as [|m ms IH]; intros s; cbn; [reflexivity|].
  rewrite IH. apply run_microtask_promises.
Qed.

Lemma foldl_run_microtask_client_heap ms s :
  client_heap (foldl run_microtask s ms) = client_heap s.
Proof.
  revert s. induction ms as [|m ms IH]; intros s; cbn; [reflexivity|].
  rewrite IH. apply run_microtask_client_heap.
Qed.

Lemma foldl_run_microtask_microtasks ms s :
  microtasks (foldl run_microtask s ms) = microtasks s.
Proof.
  revert s. induction ms as [|m ms IH]; intros s; cbn; [reflexivity|].
  rewrite IH. apply run_microtask_microtasks.
Qed.

(** After the queue has run, a slot is empty if one of the callbacks found
    it holding its closure's promise, and is untouched otherwise. *)
Lemma foldl_run_microtask_slot ch ms s :
  slot ch (foldl run_microtask s ms)
  = if existsb (fires ch s) ms then None else slot ch s.
Proof.
  revert s. induction ms as [|m ms IH]; intros s; cbn [foldl existsb];
    [reflexivity|].
  rewrite IH. rewrite (run_microtask_slot ch s m).
  destruct (fires ch s m) eqn:E; cbn [orb].
  - destruct (existsb _ ms); reflexivity.
  - assert (forall m', fires ch (run_microtask s m) m' = fires ch s m') as Hf.
    { intros [ch' env]. cbn [fires].
      rewrite run_microtask_closures, (run_microtask_slot ch s m), E.
      reflexivity. }
    rewrite (existsb_pointwise _ _ ms Hf). reflexivity.
Qed.

Lemma run_microtasks_slot ch s :
  slot ch (run_microtasks s)
  = if existsb (fires ch s) (microtasks s) then None else slot ch s.
Proof.
  unfold run_microtasks. rewrite foldl_run_microtask_slot.
  assert (slot ch (with_microtasks [] s) = slot ch s) as -> by (destruct ch; reflexivity).
  apply (f_equal (fun b : bool => if b then None else slot ch s)).
  apply existsb_pointwise.
  intros [ch' env]. cbn [fires]. cbn [closures with_microtasks].
  assert (slot ch (with_microtasks [] s) = slot ch s) as -> by (destruct ch; reflexivity).
  reflexivity.
Qed.

Lemma run_microtasks_promises s : promises (run_microtasks s) = promises s.
Proof. unfold run_microtasks. rewrite foldl_run_microtask_promises. reflexivity. Qed.

Lemma run_microtasks_closures s : closures (run_microtasks s) = closures s.
Proof. unfold run_microtasks. rewrite foldl_run_microtask_closures. reflexivity. Qed.

Lemma run_microtasks_client_heap s :
  client_heap (run_microtasks s) = client_heap s.
Proof. unfold run_microtasks. rewrite foldl_run_microtask_client_heap. reflexivity. Qed.

Lemma run_microtasks_microtasks s : microtasks (run_microtasks s) = [].
Proof. unfold run_microtasks. rewrite foldl_run_microtask_microtasks. reflexivity. Qed.

(** ** Settling a deferred *)

Lemma is_pending_spec p s : is_pending p s = true <-> pending p s.
Proof.
  unfold is_pending, pending. split.
  - destruct (promises s !! p) as [d|]; [|discriminate].
    destruct (promise_state d) eqn:E; try discriminate.
    intros _. exists d. split; [reflexivity|exact E].
  - intros [d [-> ->]]. reflexivity.
Qed.

Lemma settle_closures p o s : closures (settle p o s) = closures s.
Proof.
  unfold settle. destruct (promises s !! p) as [d|]; [|reflexivity].
  destruct (promise_state d); reflexivity.
Qed.

Lemma settle_slot ch p o s : slot ch (settle p o s) = slot ch s.
Proof.
  unfold settle. destruct (promises s !! p) as [d|]; [|reflexivity].
  destruct (promise_state d), ch; reflexivity.
Qed.

Lemma settle_microtasks p o s :
  microtasks (settle p o s) = microtasks s ++ finally_job p s.
Proof.
  unfold settle, finally_job. destruct (promises s !! p) as [d|].
  - destruct (promise_state d); cbn; rewrite ?app_nil_r; reflexivity.
  - rewrite app_nil_r. reflexivity.
Qed.

Lemma settle_lookup_ne p q o s :
  q <> p -> promises (settle p o s) !! q = promises s !! q.
Proof.
  intros H. unfold settle. destruct (promises s !! p) as [d|]; [|reflexivity].
  destruct (promise_state d); try reflexivity.
  cbn [promises with_microtasks with_promises].
  apply list_lookup_insert_ne. congruence.
Qed.

Lemma settle_lookup_pending p o s d :
  promises s !! p = Some d -> promise_state d = Pending ->
  promises (settle p o s) !! p
  = Some (mkDeferred o (finally_channel d) (finally_closure d)).
Proof.
  intros H1 H2. unfold settle. rewrite H1, H2.
  cbn [promises with_microtasks with_promises].
  apply list_lookup_insert_eq. eapply lookup_lt_Some. exact H1.
Qed.

Lemma settle_settled p o s : is_pending p s = false -> settle p o s = s.
Proof.
  unfold is_pending, settle. destruct (promises s !! p) as [d|]; [|reflexivity].
  destruct (promise_state d); [discriminate|reflexivity|reflexivity].
Qed.

(** Settling keeps what every deferred was registered with. *)
Lemma settle_registration p o s q d :
  promises (settle p o s) !! q = Some d ->
  exists d0, promises s !! q = Some d0
             /\ finally_channel d0 = finally_channel d
             /\ finally_closure d0 = finally_closure d
             /\ (q <> p -> d0 = d).
Proof.
  destruct (decide (q = p)) as [->|Hne].
  - destruct (is_pending p s) eqn:E.
    + apply is_pending_spec in E. destruct E as [d0 [H0 Hp]].
      rewrite (settle_lookup_pending p o s d0 H0 Hp). intros [= <-].
      exists d0. repeat split; [exact H0|congruence].
    + rewrite (settle_settled _ _ _ E). intros H. exists d. repeat split. exact H.
  - rewrite settle_lookup_ne by exact Hne. intros H. exists d. repeat split. exact H.
Qed.

Lemma state_of_settle p q o s :
  state_of q (settle p o s)
  = if bool_decide (q = p) && is_pending p s then Some o else state_of q s.
Proof.
  unfold state_of. case_bool_decide as Hq; cbn [andb].
  - subst q. destruct (is_pending p s) eqn:E.
    + apply is_pending_spec in E. destruct E as [d0 [H0 Hp]].
      rewrite (settle_lookup_pending p o s d0 H0 Hp). reflexivity.
    + rewrite (settle_settled _ _ _ E). reflexivity.
  - rewrite settle_lookup_ne by exact Hq. reflexivity.
Qed.

Lemma is_pending_settle_ne p q o s :
  q <> p -> is_pending q (settle p o s) = is_pending q s.
Proof. intros H. unfold is_pending. rewrite settle_lookup_ne by exact H. reflexivity. Qed.

Lemma finally_job_settle_ne p q o s :
  q <> p -> finally_job q (settle p o s) = finally_job q s.
Proof. intros H. unfold finally_job. rewrite settle_lookup_ne by exact H. reflexivity. Qed.

(** ** Coherence of the coordinator *)

Lemma wf_initial_state : wf initial_state.
Proof.
  split; [reflexivity|]. split.
  - intros env c ch p H. discriminate.
  - intros [] p H; discriminate.
Qed.

Lemma finally_job_local s env c ch p :
  locals_registered s ->
  closures s !! env = Some c -> local ch c = Some p ->
  finally_job p s = if is_pending p s then [FinallyCallback ch env] else [].
Proof.
  intros Hw Hc Hl. destruct (Hw env c ch p Hc Hl) as [d [Hd [<- <-]]].
  unfold finally_job, is_pending. rewrite Hd.
  destruct (promise_state d); reflexivity.
Qed.

Lemma locals_distinct s env c p q :
  locals_registered s ->
  closures s !! env = Some c ->
  local_grantSecurityClassesPromise c = Some p ->
  local_validateDSKAndEnterPinPromise c = Some q ->
  p <> q.
Proof.
  intros Hw Hc Hp Hq ->.
  destruct (Hw env c GrantChannel q Hc Hp) as [d [Hd [H1 _]]].
  destruct (Hw env c ValidateChannel q Hc Hq) as [d' [Hd' [H2 _]]].
  congruence.
Qed.

(** ** The abort callback as a task *)

Lemma reject_if_defined_closures o s :
  closures (reject_if_defined o s) = closures s.
Proof. destruct o; [apply settle_closures|reflexivity]. Qed.

Lemma reject_if_defined_slot ch o s :
  slot ch (reject_if_defined o s) = slot ch s.
Proof. destruct o; [apply settle_slot|reflexivity]. Qed.

Lemma reject_if_defined_client_heap o s :
  client_heap (reject_if_defined o s) = client_heap s.
Proof. destruct o; [apply settle_client_heap|reflexivity]. Qed.

Lemma update_client_frame this f s :
  closures (update_client this f s) = closures s
  /\ promises (update_client this f s) = promises s
  /\ microtasks (update_client this f s) = microtasks s
  /\ (forall ch, slot ch (update_client this f s) = slot ch s)
  /\ driver_calls (update_client this f s) = driver_calls s
  /\ clients (update_client this f s) = clients s.
Proof. repeat split. Qed.

Lemma abort_callback_microtasks s env c :
  wf s -> closures s !! env = Some c ->
  microtasks (abort_callback env s) = abort_jobs env c s.
Proof.
  intros [Hm [Hw _]] Hc. unfold abort_callback, abort_jobs. rewrite Hc.
  unfold sendEvent, sendData.
  rewrite (proj1 (proj2 (proj2 (update_client_frame _ _ _)))).
  destruct (local_grantSecurityClassesPromise c) as [p|] eqn:Hp;
    destruct (local_validateDSKAndEnterPinPromise c) as [q|] eqn:Hq;
    cbn [reject_if_defined]; rewrite ?settle_microtasks, Hm; cbn [app].
  - pose proof (locals_distinct s env c p q Hw Hc Hp Hq) as Hne.
    rewrite finally_job_settle_ne by congruence.
    rewrite (finally_job_local s env c GrantChannel p Hw Hc Hp).
    rewrite (finally_job_local s env c ValidateChannel q Hw Hc Hq).
    reflexivity.
  - rewrite (finally_job_local s env c GrantChannel p Hw Hc Hp).
    rewrite app_nil_r. reflexivity.
  - rewrite (finally_job_local s env c ValidateChannel q Hw Hc Hq).
    reflexivity.
  - reflexivity.
Qed.

Lemma abort_callback_closures s env :
  closures (abort_callback env s) = closures s.
Proof.
  unfold abort_callback. destruct (closures s !! env) as [c|]; [|reflexivity].
  unfold sendEvent, sendData.
  rewrite (proj1 (update_client_frame _ _ _)).
  rewrite !reject_if_defined_closures. reflexivity.
Qed.

Lemma abort_callback_slot ch s env :
  slot ch (abort_callback env s) = slot ch s.
Proof.
  unfold abort_callback. destruct (closures s !! env) as [c|]; [|reflexivity].
  unfold sendEvent, sendData.
  rewrite (proj1 (proj2 (proj2 (proj2 (update_client_frame _ _ _))))).
  rewrite !reject_if_defined_slot. reflexivity.
Qed.

(** What an abort does to a slot: it empties the slot exactly when the
    slot holds the closure's own promise and that promise was pending. *)
Lemma abort_task_slot s env c ch :
  wf s -> closures s !! env = Some c ->
  slot ch (task (abort_callback env) s)
  = match local ch c with
    | Some p =>
        if is_pending p s && same_promise (slot ch s) (Some p)
        then None else slot ch s
    | None => slot ch s
    end.
Proof.
  intros Hwf Hc. unfold task. rewrite run_microtasks_slot.
  rewrite (abort_callback_microtasks s env c Hwf Hc).
  rewrite abort_callback_slot.
  assert (forall ch', fires ch (abort_callback env s) (FinallyCallback ch' env)
                      = Channel_eqb ch' ch
                        && same_promise (slot ch s) (local ch c)) as Hf.
  { intros ch'. cbn [fires].
    rewrite abort_callback_closures, Hc, abort_callback_slot. reflexivity. }
  unfold abort_jobs.
  destruct ch; cbn [local] in *;
    destruct (local_grantSecurityClassesPromise c) as [p|];
    destruct (local_validateDSKAndEnterPinPromise c) as [q|];
    repeat match goal with
           | |- context [is_pending ?x s] => destruct (is_pending x s)
           end;
    cbn [app existsb orb andb]; rewrite ?Hf; cbn [Channel_eqb andb orb local];
    rewrite ?orb_false_r;
    repeat match goal with
           | |- context [same_promise ?a ?b] => destruct (same_promise a b)
           end;
    reflexivity.
Qed.

(** What an abort does to a deferred: it rejects the closure's own
    promises that were pending, and no other. *)
Lemma abort_task_state s env c q :
  wf s -> closures s !! env = Some c ->
  state_of q (task (abort_callback env) s)
  = if is_pending q s
       && (bool_decide (local_grantSecurityClassesPromise c = Some q)
           || bool_decide (local_validateDSKAndEnterPinPromise c = Some q))
    then Some (Rejected "aborted")
    else state_of q s.
Proof.
  intros [_ [Hw _]] Hc. unfold task, state_of.
  rewrite run_microtasks_promises.
  unfold abort_callback. rewrite Hc. unfold sendEvent, sendData.
  rewrite (proj1 (proj2 (update_client_frame _ _ _))).
  fold (state_of q (reject_if_defined (local_validateDSKAndEnterPinPromise c)
                      (reject_if_defined (local_grantSecurityClassesPromise c) s))).
  fold (state_of q s).
  destruct (local_grantSecurityClassesPromise c) as [p1|] eqn:H1;
    destruct (local_validateDSKAndEnterPinPromise c) as [p2|] eqn:H2;
    cbn [reject_if_defined]; rewrite ?state_of_settle.
  - pose proof (locals_distinct s env c p1 p2 Hw Hc H1 H2) as Hne.
    rewrite is_pending_settle_ne by congruence.
    repeat case_bool_decide; try congruence; cbn [andb orb];
      subst; rewrite ?andb_false_r, ?andb_true_r;
      try destruct (is_pending _ s); reflexivity.
  - repeat case_bool_decide; try congruence; cbn [andb orb];
      subst; rewrite ?andb_false_r, ?andb_true_r;
      try destruct (is_pending _ s); reflexivity.
  - repeat case_bool_decide; try congruence; cbn [andb orb];
      subst; rewrite ?andb_false_r, ?andb_true_r;
      try destruct (is_pending _ s); reflexivity.
  - repeat case_bool_decide; try congruence; cbn [andb orb];
      rewrite ?andb_false_r; reflexivity.
Qed.

(** An abort pushes its event to the captured client, once, always. *)
Lemma abort_task_client_heap s env c :
  closures s !! env = Some c ->
  client_heap (task (abort_callback env) s)
  = alter (socket_call (Send (EventMessage InclusionAbortedEvent) false))
      (closure_client c) (client_heap s).
Proof.
  intros Hc. unfold task. rewrite run_microtasks_client_heap.
  unfold abort_callback. rewrite Hc. unfold sendEvent, sendData, update_client.
  cbn [client_heap with_client_heap].
  rewrite !reject_if_defined_client_heap. reflexivity.
Qed.

(** ** Claims about the interactive exchange *)

Lemma slot_holds_registered_pending s ch p :
  wf s -> slot ch s = Some p ->
  exists d c, promises s !! p = Some d
              /\ promise_state d = Pending
              /\ finally_channel d = ch
              /\ closures s !! finally_closure d = Some c
              /\ local ch c = Some p.
Proof.
  intros [_ [Hw Hs]] H. destruct (Hs ch p H) as [d [c [Hd [Hp [Hc Hl]]]]].
  destruct (Hw _ c ch p Hc Hl) as [d' [Hd' [Hch _]]].
  exists d, c. repeat split; try assumption. congruence.
Qed.

(** Settling the deferred that a slot holds, as a task: its [finally]
    callback empties that slot and leaves the other. *)
Lemma settle_task s ch p o :
  wf s ->
  slot ch s = Some p ->
  let s' := run_microtasks (settle p o s) in
  state_of p s' = Some o
  /\ slot ch s' = None
  /\ forall ch', ch' <> ch -> slot ch' s' = slot ch' s.
Proof.
  intros Hwf Hs s'. subst s'.
  destruct (slot_holds_registered_pending s ch p Hwf Hs)
    as [d [c [Hd [Hp [Hch [Hc Hl]]]]]].
  split; [|split].
  - unfold state_of. rewrite run_microtasks_promises.
    rewrite (settle_lookup_pending p _ s d Hd Hp). reflexivity.
  - rewrite run_microtasks_slot, settle_microtasks, settle_slot.
    destruct Hwf as [Hm _]. rewrite Hm. unfold finally_job. rewrite Hd, Hp.
    cbn [app existsb fires]. rewrite settle_closures, Hc, settle_slot, Hs, Hl, Hch.
    replace (Channel_eqb ch ch) with true
      by (symmetry; apply Channel_eqb_eq; reflexivity).
    replace (same_promise (Some p) (Some p)) with true
      by (symmetry; apply same_promise_eq; reflexivity).
    reflexivity.
  - intros ch' Hne.
    rewrite run_microtasks_slot, settle_microtasks, settle_slot.
    destruct Hwf as [Hm _]. rewrite Hm. unfold finally_job. rewrite Hd, Hp.
    cbn [app existsb fires]. rewrite Hch.
    replace (Channel_eqb ch ch') with false; [reflexivity|].
    symmetry. destruct (Channel_eqb ch ch') eqn:E; [|reflexivity].
    apply Channel_eqb_eq in E. congruence.
Qed.

(** An answer command as a task: the deferred in the slot is fulfilled,
    its slot is emptied by its [finally] callback, the other slot stays. *)
Lemma answer_task controller s ch message client p :
  wf s ->
  msg_command message = answer_command ch ->
  slot ch s = Some p ->
  let s' := task (fun s0 => (ControllerMessageHandler.handle controller message client s0).1) s in
  state_of p s' = Some (Fulfilled (answer_value ch message))
  /\ slot ch s' = None
  /\ forall ch', ch' <> ch -> slot ch' s' = slot ch' s.
Proof.
  intros Hwf Hcmd Hs s'. subst s'.
  unfold task. rewrite (handle_answer _ ch) by exact Hcmd.
  unfold ControllerMessageHandler.answer. rewrite Hs. cbn [fst].
  apply settle_task; assumption.
Qed.

(** An abort of one closure leaves a slot that holds another deferred than
    the closure's own as it is, and that deferred pending. *)
Lemma abort_task_keeps_other s env c ch q :
  wf s ->
  closures s !! env = Some c ->
  slot ch s = Some q ->
  local ch c <> Some q ->
  let s' := task (abort_callback env) s in
  slot ch s' = Some q /\ state_of q s' = Some Pending.
Proof.
  intros Hwf Hc Hs Hl s'. subst s'.
  destruct (slot_holds_registered_pending s ch q Hwf Hs)
    as [d [c' [Hd [Hp [Hch _]]]]].
  split.
  + rewrite (abort_task_slot s env c ch Hwf Hc), Hs.
    destruct (local ch c) as [p'|]; [|reflexivity].
    replace (same_promise (Some q) (Some p')) with false;
      [rewrite andb_false_r; reflexivity|].
    symmetry. destruct (same_promise (Some q) (Some p')) eqn:E; [|reflexivity].
    apply same_promise_eq in E. congruence.
  + rewrite (abort_task_state s env c q Hwf Hc).
    assert (bool_decide (local_grantSecurityClassesPromise c = Some q)
            || bool_decide (local_validateDSKAndEnterPinPromise c = Some q)
            = false) as ->.
    { destruct Hwf as [_ [Hw _]].
      apply orb_false_iff. split; apply bool_decide_eq_false_2; intros Hq.
      - destruct (Hw env c GrantChannel q Hc Hq) as [d' [Hd' [Hch' _]]].
        destruct ch; [exact (Hl Hq)|congruence].
      - destruct (Hw env c ValidateChannel q Hc Hq) as [d' [Hd' [Hch' _]]].
        destruct ch; [congruence|exact (Hl Hq)]. }
    rewrite andb_false_r. unfold state_of. rewrite Hd, <- Hp. reflexivity.
Qed.

(** C7: once the deferred of an exchange is settled, its slot is empty at
    the end of that task.  If a client answers, the deferred in the slot is
    fulfilled and the slot is cleared.  If the controller aborts and no
    client ever answered, the closure's pending deferred is rejected and
    the slot that holds it is cleared.  A slot that holds another, newer
    deferred than the closure's own keeps it, and that deferred stays
    pending. *)
Theorem settled_exchange_frees_its_slot controller s :
  wf s ->
  (forall ch message client p,
      msg_command message = answer_command ch ->
      slot ch s = Some p ->
      let s' := task (fun s0 => (ControllerMessageHandler.handle controller message client s0).1) s in
      state_of p s' = Some (Fulfilled (answer_value ch message))
      /\ slot ch s' = None)
  /\ (forall env c ch p,
        closures s !! env = Some c ->
        local ch c = Some p ->
        slot ch s = Some p ->
        let s' := task (abort_callback env) s in
        state_of p s' = Some (Rejected "aborted")
        /\ slot ch s' = None)
  /\ (forall env c ch q,
        closures s !! env = Some c ->
        slot ch s = Some q ->
        local ch c <> Some q ->
        let s' := task (abort_callback env) s in
        slot ch s' = Some q
        /\ state_of q s' = Some Pending).
Proof.
  intros Hwf. split; [|split].
  - intros ch message client p Hcmd Hs s'.
    destruct (answer_task controller s ch message client p Hwf Hcmd Hs) as [H1 [H2 _]].
    split; assumption.
  - intros env c ch p Hc Hl Hs s'. subst s'.
    destruct (slot_holds_registered_pending s ch p Hwf Hs)
      as [d [c' [Hd [Hp _]]]].
    assert (is_pending p s = true) as Hpend
        by (apply is_pending_spec; exists d; split; assumption).
    split.
    + rewrite (abort_task_state s env c p Hwf Hc), Hpend.
      destruct ch; cbn [local] in Hl; rewrite Hl;
        rewrite (bool_decide_eq_true_2 (Some p = Some p)) by reflexivity;
        rewrite ?orb_true_r; reflexivity.
    + rewrite (abort_task_slot s env c ch Hwf Hc), Hl, Hpend, Hs.
      replace (same_promise (Some p) (Some p)) with true
        by (symmetry; apply same_promise_eq; reflexivity).
      reflexivity.
  - intros env c ch q Hc Hs Hl.
    apply (abort_task_keeps_other s env c ch q); assumption.
Qed.

(** C4, amended: an abort of an interactive operation rejects the deferred
    that the operation last created on each channel if it is still pending,
    and a slot that holds that deferred is empty at the end of the task; a
    slot that does not hold it is left as it was.  Exactly one "inclusion
    aborted" event is pushed to the session that started the operation in
    every case, also when no deferred is pending. *)
Theorem abort_rejects_own_deferreds_and_always_notifies s env c cl :
  wf s ->
  closures s !! env = Some c ->
  client_heap s !! closure_client c = Some cl ->
  let s' := task (abort_callback env) s in
  client_heap s' !! closure_client c
  = Some (socket_call (Send (EventMessage InclusionAbortedEvent) false) cl)
  /\ (forall other, other <> closure_client c ->
      client_heap s' !! other = client_heap s !! other)
  /\ (forall ch p, local ch c = Some p -> pending p s ->
      state_of p s' = Some (Rejected "aborted")
      /\ (slot ch s = Some p -> slot ch s' = None))
  /\ (forall ch, slot ch s = None -> slot ch s' = None)
  /\ (forall ch, (forall p, slot ch s = Some p -> local ch c <> Some p) ->
      slot ch s' = slot ch s).
Proof.
  intros Hwf Hc Hcl s'. subst s'.
  rewrite (abort_task_client_heap s env c Hc).
  split; [|split; [|split; [|split]]].
  - rewrite list_lookup_alter_eq, Hcl. reflexivity.
  - intros other Hne. apply list_lookup_alter_ne. congruence.
  - intros ch p Hl Hp. apply is_pending_spec in Hp. split.
    + rewrite (abort_task_state s env c p Hwf Hc), Hp.
      destruct ch; cbn [local] in Hl; rewrite Hl;
        rewrite (bool_decide_eq_true_2 (Some p = Some p)) by reflexivity;
        rewrite ?orb_true_r; reflexivity.
    + intros Hs. rewrite (abort_task_slot s env c ch Hwf Hc), Hl, Hp, Hs.
      replace (same_promise (Some p) (Some p)) with true
        by (symmetry; apply same_promise_eq; reflexivity).
      reflexivity.
  - intros ch Hs. rewrite (abort_task_slot s env c ch Hwf Hc), Hs.
    destruct (local ch c) as [p|]; [|reflexivity].
    destruct (is_pending p s && same_promise None (Some p)); reflexivity.
  - intros ch Hn. rewrite (abort_task_slot s env c ch Hwf Hc).
    destruct (local ch c) as [p|]; [|reflexivity].
    destruct (same_promise (slot ch s) (Some p)) eqn:E;
      [|rewrite andb_false_r; reflexivity].
    apply same_promise_eq in E. exfalso. exact (Hn p E eq_refl).
Qed.

(** ** Liveness *)

Lemma checkAlive_outstanding this s c :
  client_heap s !! this = Some c ->
  _outstandingPing c = true ->
  client_heap (checkAlive this s) !! this = Some (socket_close c).
Proof.
  intros Hc Hp. unfold checkAlive. rewrite Hc, Hp.
  apply update_client_lookup. exact Hc.
Qed.

Lemma checkAlive_first_probe this s c :
  client_heap s !! this = Some c ->
  _outstandingPing c = false ->
  client_heap (checkAlive this s) !! this
  = Some (socket_call Ping (set_outstandingPing true c)).
Proof.
  intros Hc Hp. unfold checkAlive. rewrite Hc, Hp.
  apply update_client_lookup. apply update_client_lookup. exact Hc.
Qed.

Lemma on_pong_clears this s c :
  client_heap s !! this = Some c ->
  client_heap (on_pong this s) !! this = Some (set_outstandingPing false c).
Proof. apply update_client_lookup. Qed.

(** [checkAlive] itself is as the claim describes it: two calls with no
    pong in between close the socket. *)
Lemma checkAlive_twice_disconnects this s c :
  client_heap s !! this = Some c ->
  _outstandingPing c = false ->
  client_heap (checkAlive this (checkAlive this s)) !! this
  = Some (socket_close (socket_call Ping (set_outstandingPing true c))).
Proof.
  intros Hc Hp.
  apply checkAlive_outstanding; [|reflexivity].
  apply checkAlive_first_probe; assumption.
Qed.

Lemma with_clients_same s : with_clients (clients s) s = s.
Proof. destruct s; reflexivity. Qed.

Lemma pingInterval_loop_connected l s acc :
  (forall this, this ∈ l -> connected this s = true) ->
  foldl
    (fun '(st, acc) client =>
       if connected client st then (st, acc ++ [client])
       else (disconnect client st, acc))
    (s, acc) l
  = (s, acc ++ l).
Proof.
  revert acc. induction l as [|x l IH]; intros acc H; cbn [foldl].
  - rewrite app_nil_r. reflexivity.
  - rewrite (H x) by (left). rewrite IH.
    + rewrite <- app_assoc. reflexivity.
    + intros this Hin. apply H. right. exact Hin.
Qed.

(** C6, as the code has it: the callback of the recurring timer never
    calls [checkAlive].  While the sockets of the registered sessions are
    open it changes nothing at all, however often it runs: no ping is sent,
    no probe is marked outstanding, no session is disconnected. *)
Theorem pingInterval_never_probes s n :
  (forall this, this ∈ clients s -> connected this s = true) ->
  Nat.iter n pingInterval_callback s = s.
Proof.
  intros H. induction n as [|n IH]; [reflexivity|].
  change (Nat.iter (S n) pingInterval_callback s)
    with (pingInterval_callback (Nat.iter n pingInterval_callback s)).
  rewrite IH. unfold pingInterval_callback.
  rewrite (pingInterval_loop_connected (clients s) s [] H).
  cbn [app]. apply with_clients_same.
Qed.

(** ** What a session's socket has been asked to send *)

Lemma events_follow_snapshot_app seen l1 l2 :
  events_follow_snapshot seen (l1 ++ l2)
  = events_follow_snapshot seen l1
    && events_follow_snapshot (seen || has_snapshot l1) l2.
Proof.
  revert seen. induction l1 as [|op l1 IH]; intros seen; cbn.
  - rewrite orb_false_r. reflexivity.
  - rewrite IH, orb_assoc, andb_assoc. reflexivity.
Qed.

Lemma log_ok_socket_call c op :
  log_ok c ->
  (compressed op = true -> snapshot_op op = true) ->
  (forwarded op = true -> receiveEvents c = true) ->
  log_ok (socket_call op c).
Proof.
  intros [H1 [H2 H3]] Hc Hf. unfold log_ok. cbn [socket_call socket_log receiveEvents].
  split; [|split].
  - unfold only_snapshots_compressed. rewrite forallb_app.
    fold (only_snapshots_compressed (socket_log c)). rewrite H1. cbn.
    destruct (compressed op); [rewrite Hc by reflexivity|]; reflexivity.
  - rewrite events_follow_snapshot_app, H2. cbn.
    destruct (forwarded op); [rewrite (H3 (Hf eq_refl))|]; reflexivity.
  - intros Hr. unfold has_snapshot. rewrite existsb_app.
    fold (has_snapshot (socket_log c)). rewrite (H3 Hr). reflexivity.
Qed.

Lemma log_ok_start_listening c m :
  log_ok c -> is_snapshot m = true ->
  log_ok (set_receiveEvents true (socket_call (Send m true) c)).
Proof.
  intros H Hm.
  destruct (log_ok_socket_call c (Send m true) H) as [H1 [H2 H3]].
  - intros _. exact Hm.
  - intros Hf. destruct m as [| | | |[]]; discriminate.
  - split; [exact H1|]. split; [exact H2|]. intros _.
    cbn [set_receiveEvents socket_call socket_log].
    unfold has_snapshot. rewrite existsb_app. cbn. rewrite Hm.
    rewrite orb_true_r. reflexivity.
Qed.

Lemma log_ok_new_Client m :
  forwarded (Send m false) = false ->
  log_ok (socket_call (Send m false) new_Client).
Proof.
  intros Hm. apply log_ok_socket_call.
  - repeat split. discriminate.
  - discriminate.
  - rewrite Hm. discriminate.
Qed.

Lemma logs_ok_ext s s' :
  client_heap s' = client_heap s -> logs_ok s -> logs_ok s'.
Proof. unfold logs_ok. intros ->. exact id. Qed.

Lemma logs_ok_update_client this f s :
  (forall c, client_heap s !! this = Some c -> log_ok c -> log_ok (f c)) ->
  logs_ok s -> logs_ok (update_client this f s).
Proof.
  intros Hf H. unfold logs_ok, update_client. cbn [client_heap with_client_heap].
  apply Forall_alter; assumption.
Qed.

Lemma logs_ok_sendData_plain this m s :
  plain m = true -> logs_ok s -> logs_ok (sendData this m false s).
Proof.
  intros Hm. apply logs_ok_update_client. intros c _ Hc.
  apply log_ok_socket_call; [exact Hc|discriminate|].
  destruct m as [| | | |[]]; discriminate.
Qed.

Lemma logs_ok_quiet this f s :
  (forall c, socket_log (f c) = socket_log c
             /\ receiveEvents (f c) = receiveEvents c) ->
  logs_ok s -> logs_ok (update_client this f s).
Proof.
  intros Hf. apply logs_ok_update_client. intros c _ [H1 [H2 H3]].
  destruct (Hf c) as [Hl Hr]. unfold log_ok. rewrite Hl, Hr.
  repeat split; assumption.
Qed.

Lemma logs_ok_close this s :
  logs_ok s -> logs_ok (update_client this socket_close s).
Proof.
  apply logs_ok_update_client. intros c _ Hc.
  apply (log_ok_socket_call c Close Hc); discriminate.
Qed.

Lemma update_client_twice this f g s :
  update_client this g (update_client this f s) = update_client this (g ∘ f) s.
Proof.
  unfold update_client, with_client_heap. cbn.
  rewrite list_alter_alter_eq. reflexivity.
Qed.

Lemma logs_ok_task job s : logs_ok (job s) -> logs_ok (task job s).
Proof. apply logs_ok_ext. apply run_microtasks_client_heap. Qed.

Lemma logs_ok_catch this messageId e s :
  logs_ok s -> logs_ok (receiveMessage_catch this messageId e s).
Proof.
  destruct e; cbn [receiveMessage_catch];
    apply logs_ok_sendData_plain; reflexivity.
Qed.

Lemma logs_ok_try driver this msg s :
  logs_ok s -> logs_ok (receiveMessage_try driver this msg s).1.
Proof.
  intros H. unfold receiveMessage_try.
  repeat match goal with
         | |- context [if ?b then _ else _] => destruct b
         end;
    cbn [fst]; try exact H.
  - apply logs_ok_quiet; [|exact H]. intros c. split; reflexivity.
  - apply logs_ok_sendData_plain; [reflexivity|].
    apply logs_ok_quiet; [|exact H]. intros c. split; reflexivity.
  - unfold sendResultSuccess, sendData. rewrite update_client_twice.
    apply logs_ok_update_client; [|exact H]. intros c _ Hc.
    apply log_ok_start_listening; [exact Hc|reflexivity].
  - destruct (updateLogConfig driver (msg_config msg)); cbn [fst].
    + exact H.
    + apply logs_ok_sendData_plain; [reflexivity|]. exact H.
  - apply logs_ok_sendData_plain; [reflexivity|exact H].
  - pose proof (handle_client_heap (driver_controller driver) msg this s)
      as Hh.
    destruct (ControllerMessageHandler.handle (driver_controller driver)
                msg this s) as [s1 [r|e|call f]];
      cbn [fst] in *.
    + apply logs_ok_sendData_plain; [reflexivity|].
      exact (logs_ok_ext _ _ Hh H).
    + exact (logs_ok_ext _ _ Hh H).
    + exact (logs_ok_ext _ _ Hh H).
  - destruct (Object_prototype _ _) as [[e'|v]|]; cbn [fst]; try exact H.
    apply logs_ok_sendData_plain; [reflexivity|exact H].
Qed.

Lemma logs_ok_receiveMessage driver this data s :
  logs_ok s -> logs_ok (receiveMessage driver this data s).1.
Proof.
  intros H. destruct (JSON_parse data) as [| |msg] eqn:E.
  - rewrite (receiveMessage_SyntaxError _ _ _ _ E). apply logs_ok_close. exact H.
  - rewrite (receiveMessage_null _ _ _ _ E). exact H.
  - rewrite (receiveMessage_message _ _ _ _ _ E). pose proof (logs_ok_try driver this msg s H) as Ht.
    destruct (receiveMessage_try driver this msg s) as [s1 [|k|e]];
      cbn [fst] in *; try exact Ht.
    apply logs_ok_catch. exact Ht.
Qed.

Lemma logs_ok_resume this k o s :
  logs_ok s -> logs_ok (receiveMessage_resume this k o s).
Proof.
  destruct o; cbn [receiveMessage_resume].
  - apply logs_ok_sendData_plain. reflexivity.
  - apply logs_ok_catch.
Qed.

Lemma logs_ok_user_callback ch event env s :
  plain (EventMessage event) = true ->
  logs_ok s -> logs_ok (user_callback ch event env s).
Proof.
  intros Hp H. unfold user_callback.
  destruct (closures s !! env) as [c|]; [|exact H].
  cbn [createDeferredPromise]. apply logs_ok_sendData_plain; [exact Hp|].
  revert H. apply logs_ok_ext. destruct ch; reflexivity.
Qed.

Lemma logs_ok_abort env s : logs_ok s -> logs_ok (abort_callback env s).
Proof.
  intros H. unfold abort_callback.
  destruct (closures s !! env) as [c|]; [|exact H].
  apply logs_ok_sendData_plain; [reflexivity|].
  revert H. apply logs_ok_ext. rewrite !reject_if_defined_client_heap. reflexivity.
Qed.

Lemma logs_ok_checkAlive this s : logs_ok s -> logs_ok (checkAlive this s).
Proof.
  intros H. unfold checkAlive. destruct (client_heap s !! this) as [c|]; [|exact H].
  destruct (_outstandingPing c).
  - apply logs_ok_close. exact H.
  - apply logs_ok_update_client.
    + intros c' _ Hc'. apply (log_ok_socket_call c' Ping Hc'); discriminate.
    + apply logs_ok_quiet; [|exact H]. intros c'. split; reflexivity.
Qed.

Lemma logs_ok_pingInterval s : logs_ok s -> logs_ok (pingInterval_callback s).
Proof.
  intros H. unfold pingInterval_callback.
  assert (forall l st acc, logs_ok st ->
            logs_ok (foldl
                       (fun '(st, acc) client =>
                          if connected client st then (st, acc ++ [client])
                          else (disconnect client st, acc))
                       (st, acc) l).1) as Hloop.
  { induction l as [|x l IH]; intros st acc Hst; cbn [foldl]; [exact Hst|].
    destruct (connected x st); apply IH; [exact Hst|].
    apply logs_ok_close. exact Hst. }
  specialize (Hloop (clients s) s [] H).
  destruct (foldl _ (s, []) (clients s)) as [s1 newClients].
  exact Hloop.
Qed.

Lemma logs_ok_addSocket driver s : logs_ok s -> logs_ok (addSocket driver s).
Proof.
  intros H. unfold logs_ok, addSocket, sendVersion, sendData, update_client.
  cbn [client_heap with_client_heap with_clients].
  rewrite alter_app_r_alt by lia.
  replace (length (client_heap s) - length (client_heap s)) with 0 by lia. cbn.
  apply Forall_app. split; [exact H|]. constructor; [|constructor].
  apply log_ok_new_Client. reflexivity.
Qed.

Lemma logs_ok_log info s : logs_ok s -> logs_ok (log info s).
Proof.
  intros H. unfold log.
  generalize (filter
                (fun client => receiveLogs (this_ client s) && connected client s = true)
                (clients s)).
  intros l. revert s H. induction l as [|x l IH]; intros s H; cbn [foldl];
    [exact H|].
  apply IH. apply logs_ok_sendData_plain; [reflexivity|exact H].
Qed.

Lemma receiveEvents_sendData this m compress other s :
  receiveEvents (this_ other (sendData this m compress s))
  = receiveEvents (this_ other s).
Proof.
  unfold this_, sendData, update_client. cbn [client_heap with_client_heap].
  destruct (decide (this = other)) as [->|Hne].
  - rewrite list_lookup_alter_eq.
    destruct (client_heap s !! other); reflexivity.
  - rewrite list_lookup_alter_ne by exact Hne. reflexivity.
Qed.

Lemma logs_ok_forward payload l s :
  logs_ok s ->
  (forall x, x ∈ l -> receiveEvents (this_ x s) = true) ->
  logs_ok (foldl (fun st client => sendEvent client (ForwardedEvent payload) st) s l).
Proof.
  revert s. induction l as [|x l IH]; intros s H Hl; cbn [foldl]; [exact H|].
  apply IH.
  - apply logs_ok_update_client; [|exact H]. intros c Hc Hok.
    apply log_ok_socket_call; [exact Hok|discriminate|].
    intros _. rewrite <- (this_lookup _ _ _ Hc). apply Hl. left.
  - intros y Hy. unfold sendEvent. rewrite receiveEvents_sendData.
    apply Hl. right. exact Hy.
Qed.

Lemma logs_ok_forwardEvent payload s :
  logs_ok s -> logs_ok (forwardEvent payload s).
Proof.
  intros H. unfold forwardEvent. apply logs_ok_forward; [exact H|].
  intros x Hx. apply list_elem_of_filter in Hx. destruct Hx as [Hx _].
  apply andb_true_iff in Hx. exact (proj1 Hx).
Qed.

(** The socket logs of every reachable state are well formed. *)
Lemma reachable_logs_ok s : reachable s -> logs_ok s.
Proof.
  induction 1 as [|s s' _ IH Hstep].
  - constructor.
  - destruct Hstep; apply logs_ok_task.
    + apply logs_ok_addSocket. exact IH.
    + apply logs_ok_receiveMessage. exact IH.
    + apply logs_ok_resume. exact IH.
    + apply logs_ok_user_callback; [reflexivity|exact IH].
    + apply logs_ok_user_callback; [reflexivity|exact IH].
    + apply logs_ok_abort. exact IH.
    + apply logs_ok_quiet; [|exact IH]. intros c. split; reflexivity.
    + apply logs_ok_checkAlive. exact IH.
    + apply logs_ok_pingInterval. exact IH.
    + apply logs_ok_quiet; [|exact IH]. intros c. split; reflexivity.
    + apply logs_ok_log. exact IH.
    + apply logs_ok_forwardEvent. exact IH.
Qed.

Lemma forwarded_after_snapshot l1 op l2 :
  events_follow_snapshot false (l1 ++ op :: l2) = true ->
  forwarded op = true ->
  has_snapshot l1 = true.
Proof.
  rewrite events_follow_snapshot_app. cbn. intros H Hf. rewrite Hf in H.
  cbn in H. apply andb_true_iff in H. destruct H as [_ H].
  apply andb_true_iff in H. exact (proj1 H).
Qed.


(** ** Coherence is an invariant *)

Lemma coordinator_inv s s' :
  coordinator s' = coordinator s ->
  closures s' = closures s /\ promises s' = promises s
  /\ microtasks s' = microtasks s /\ forall ch, slot ch s' = slot ch s.
Proof.
  unfold coordinator. intros [= H1 H2 H3 H4 H5]. repeat split; try assumption.
  intros []; assumption.
Qed.

Lemma wf_coordinator s s' : coordinator s' = coordinator s -> wf s -> wf s'.
Proof.
  intros H. destruct (coordinator_inv s s' H) as [Hc [Hp [Hm Hs]]].
  intros [W0 [W1 W2]]. split; [congruence|]. split.
  - intros env c ch p. rewrite Hc, Hp. apply W1.
  - intros ch p. rewrite Hs, Hc, Hp. apply W2.
Qed.

Lemma run_microtask_coordinator a b m :
  coordinator a = coordinator b ->
  coordinator (run_microtask a m) = coordinator (run_microtask b m).
Proof.
  intros H. destruct (coordinator_inv b a H) as [Hc [Hp [Hm Hs]]].
  destruct m as [ch env]. cbn [run_microtask]. rewrite Hc, Hs.
  destruct (closures b !! env) as [c|]; [|exact H].
  destruct (same_promise (slot ch b) (local ch c)); [|exact H].
  unfold coordinator in *. injection H as H1 H2 H3 H4 H5.
  destruct ch; cbn; congruence.
Qed.

Lemma run_microtasks_coordinator a b :
  coordinator a = coordinator b ->
  coordinator (run_microtasks a) = coordinator (run_microtasks b).
Proof.
  intros H. unfold run_microtasks.
  destruct (coordinator_inv b a H) as [_ [_ [Hm _]]]. rewrite Hm.
  assert (coordinator (with_microtasks [] a) = coordinator (with_microtasks [] b))
    as H0.
  { unfold coordinator in *. injection H as H1 H2 H3 H4 H5. cbn. congruence. }
  revert H0.
  generalize (with_microtasks [] a) (with_microtasks [] b) (microtasks b).
  clear. intros a0 b0 ms. revert a0 b0.
  induction ms as [|m ms IH]; intros a0 b0 H0; cbn [foldl]; [exact H0|].
  apply IH. apply run_microtask_coordinator. exact H0.
Qed.

Lemma run_microtasks_idle s :
  microtasks s = [] -> coordinator (run_microtasks s) = coordinator s.
Proof.
  intros H. unfold run_microtasks. rewrite H. cbn [foldl].
  unfold coordinator. cbn. rewrite H. reflexivity.
Qed.

(** A job that leaves the coordinator alone preserves coherence. *)
Lemma wf_task_quiet job s :
  coordinator (job s) = coordinator s -> wf s -> wf (task job s).
Proof.
  intros H Hwf. unfold task.
  apply (wf_coordinator (job s)).
  - apply run_microtasks_idle.
    destruct (coordinator_inv _ _ H) as [_ [_ [Hm _]]]. rewrite Hm.
    exact (proj1 Hwf).
  - exact (wf_coordinator _ _ H Hwf).
Qed.

Lemma local_with_local ch ch' o c :
  local ch' (with_local ch o c) = if Channel_eqb ch ch' then o else local ch' c.
Proof. destruct ch, ch'; reflexivity. Qed.

Lemma wf_processInclusionOptions client message s :
  wf s -> wf (processInclusionOptions client message s).1.
Proof.
  intros Hwf. unfold processInclusionOptions.
  destruct (msg_options message) as [o|].
  - destruct (interactive (strategy o)); [|exact Hwf].
    cbn [fst]. destruct Hwf as [W0 [W1 W2]]. split; [exact W0|]. split.
    + intros env c ch p Hc Hl. cbn [closures with_closures] in Hc.
      apply lookup_app_Some in Hc. destruct Hc as [Hc|[_ Hc]].
      * exact (W1 env c ch p Hc Hl).
      * apply list_lookup_singleton_Some in Hc. destruct Hc as [_ <-].
        destruct ch; discriminate.
    + intros ch p Hs.
      assert (slot ch s = Some p) as Hs' by (destruct ch; exact Hs).
      destruct (W2 ch p Hs') as [d [c [Hd [Hp [Hc Hl]]]]].
      exists d, c. repeat split; try assumption.
      cbn [closures with_closures]. apply lookup_app_l_Some. exact Hc.
  - destruct (msg_includeNonSecure message) as [[|]|]; exact Hwf.
Qed.

(** A user callback leaves the coordinator coherent: the new deferred is in
    the slot and in the closure's variable, registered with both. *)
Lemma wf_user_callback ch event env s :
  wf s -> wf (user_callback ch event env s).
Proof.
  intros Hwf. unfold user_callback.
  destruct (closures s !! env) as [c|] eqn:Hc; [|exact Hwf].
  cbn [createDeferredPromise]. unfold sendEvent, sendData.
  eapply wf_coordinator.
  { unfold coordinator.
    destruct (update_client_frame (closure_client c)
                (socket_call (Send (EventMessage event) false))
                (with_closures
                   (<[env:=with_local ch (Some (length (promises s))) c]>
                      (closures
                         (with_slot ch (Some (length (promises s)))
                            (with_promises
                               (promises s ++ [mkDeferred Pending ch env]) s))))
                   (with_slot ch (Some (length (promises s)))
                      (with_promises (promises s ++ [mkDeferred Pending ch env]) s))))
      as [H1 [H2 [H3 [H4 _]]]].
    rewrite H1, H2, H3.
    rewrite (H4 GrantChannel : grantSecurityClassesPromise _ = _).
    rewrite (H4 ValidateChannel : validateDSKAndEnterPinPromise _ = _).
    reflexivity. }
  set (p := length (promises s)).
  destruct Hwf as [W0 [W1 W2]].
  assert (env < length (closures s)) as Henv by (eapply lookup_lt_Some; exact Hc).
  assert (forall ch', closures (with_slot ch' (Some p)
                         (with_promises (promises s ++ [mkDeferred Pending ch env]) s))
                      = closures s) as Hcl by (intros []; reflexivity).
  assert (forall ch' x, promises (with_closures x (with_slot ch' (Some p)
                         (with_promises (promises s ++ [mkDeferred Pending ch env]) s)))
                      = promises s ++ [mkDeferred Pending ch env]) as Hpr
      by (intros [] x; reflexivity).
  assert (forall ch' x, microtasks (with_closures x (with_slot ch' (Some p)
                         (with_promises (promises s ++ [mkDeferred Pending ch env]) s)))
                      = microtasks s) as Hmi
      by (intros [] x; reflexivity).
  assert (forall ch0 ch' x, slot ch0 (with_closures x (with_slot ch' (Some p)
                         (with_promises (promises s ++ [mkDeferred Pending ch env]) s)))
                      = if Channel_eqb ch' ch0 then Some p else slot ch0 s) as Hsl
      by (intros [] [] x; reflexivity).
  split; [rewrite Hmi; exact W0|]. split.
  - intros env' c0 ch0 p0 Hc0 Hl0. rewrite Hpr.
    cbn [closures with_closures] in Hc0. rewrite Hcl in Hc0.
    rewrite list_lookup_insert in Hc0.
    destruct (decide (env = env' /\ env < length (closures s))) as [[<- _]|Hn].
    + injection Hc0 as <-. rewrite local_with_local in Hl0.
      destruct (Channel_eqb ch ch0) eqn:E.
      * apply Channel_eqb_eq in E. subst ch0. injection Hl0 as <-.
        exists (mkDeferred Pending ch env). split; [|split; reflexivity].
        apply list_lookup_middle. reflexivity.
      * destruct (W1 env c ch0 p0 Hc Hl0) as [d [Hd Hr]].
        exists d. split; [|exact Hr]. apply lookup_app_l_Some. exact Hd.
    + destruct (W1 env' c0 ch0 p0 Hc0 Hl0) as [d [Hd Hr]].
      exists d. split; [|exact Hr]. apply lookup_app_l_Some. exact Hd.
  - intros ch0 q Hq. rewrite Hsl in Hq. rewrite Hpr.
    cbn [closures with_closures]. rewrite Hcl.
    destruct (Channel_eqb ch ch0) eqn:E.
    + apply Channel_eqb_eq in E. subst ch0. injection Hq as <-.
      exists (mkDeferred Pending ch env), (with_local ch (Some p) c).
      split; [apply list_lookup_middle; reflexivity|]. split; [reflexivity|].
      cbn [finally_closure]. split.
      * apply list_lookup_insert_eq. exact Henv.
      * rewrite local_with_local.
        replace (Channel_eqb ch ch) with true
          by (symmetry; apply Channel_eqb_eq; reflexivity).
        reflexivity.
    + destruct (W2 ch0 q Hq) as [d [c0 [Hd [Hp [Hc0 Hl0]]]]].
      destruct (decide (finally_closure d = env)) as [He|He].
      * exists d, (with_local ch (Some p) c).
        split; [apply lookup_app_l_Some; exact Hd|]. split; [exact Hp|].
        rewrite He. split; [apply list_lookup_insert_eq; exact Henv|].
        rewrite local_with_local, E. rewrite He in Hc0. congruence.
      * exists d, c0.
        split; [apply lookup_app_l_Some; exact Hd|]. split; [exact Hp|].
        split; [|exact Hl0]. rewrite list_lookup_insert_ne by congruence.
        exact Hc0.
Qed.

Lemma wf_run_quiet s s2 :
  wf s -> coordinator s2 = coordinator s -> wf (run_microtasks s2).
Proof.
  intros Hwf H. apply (wf_coordinator s2).
  - apply run_microtasks_idle.
    destruct (coordinator_inv _ _ H) as [_ [_ [Hm _]]]. rewrite Hm.
    exact (proj1 Hwf).
  - exact (wf_coordinator _ _ H Hwf).
Qed.

Lemma settle_registration_fwd p o s q d0 :
  promises s !! q = Some d0 ->
  exists d, promises (settle p o s) !! q = Some d
            /\ finally_channel d = finally_channel d0
            /\ finally_closure d = finally_closure d0.
Proof.
  intros H0. destruct (decide (q = p)) as [->|Hne].
  - destruct (is_pending p s) eqn:E.
    + apply is_pending_spec in E. destruct E as [d1 [H1 Hp]].
      rewrite (settle_lookup_pending p o s d1 H1 Hp).
      eexists. split; [reflexivity|]. cbn. split; congruence.
    + rewrite (settle_settled _ _ _ E). exists d0. repeat split. exact H0.
  - rewrite settle_lookup_ne by exact Hne. exists d0. repeat split. exact H0.
Qed.

(** Settling the deferred of a slot, then the checkpoint, is coherent. *)
Lemma wf_run_settle s ch p o s2 :
  wf s -> slot ch s = Some p ->
  coordinator s2 = coordinator (settle p o s) ->
  wf (run_microtasks s2).
Proof.
  intros Hwf Hs H.
  apply (wf_coordinator (run_microtasks (settle p o s)));
    [apply run_microtasks_coordinator; exact H|].
  destruct (settle_task s ch p o Hwf Hs) as [_ [Hsame Hother]].
  destruct (slot_holds_registered_pending s ch p Hwf Hs)
    as [d [c [Hd [Hp [Hch _]]]]].
  destruct Hwf as [W0 [W1 W2]].
  split; [apply run_microtasks_microtasks|]. split.
  - intros env c0 ch0 p0 Hc0 Hl0.
    rewrite run_microtasks_closures, settle_closures in Hc0.
    rewrite run_microtasks_promises.
    destruct (W1 env c0 ch0 p0 Hc0 Hl0) as [d0 [Hd0 [Hf1 Hf2]]].
    destruct (settle_registration_fwd p o s p0 d0 Hd0) as [d1 [Hd1 [Hg1 Hg2]]].
    exists d1. split; [exact Hd1|]. split; congruence.
  - intros ch0 q Hq.
    destruct (decide (ch0 = ch)) as [->|Hne]; [rewrite Hsame in Hq; discriminate|].
    rewrite (Hother ch0 Hne) in Hq.
    destruct (slot_holds_registered_pending s ch0 q
                (conj W0 (conj W1 W2)) Hq)
      as [dq [cq [Hdq [Hpq [Hchq [Hcq Hlq]]]]]].
    assert (q <> p) as Hqp by (intros ->; congruence).
    exists dq, cq. rewrite run_microtasks_promises, run_microtasks_closures,
      settle_closures, settle_lookup_ne by exact Hqp.
    repeat split; assumption.
Qed.

Lemma abort_registration_fwd env s q d0 :
  promises s !! q = Some d0 ->
  exists d, promises (task (abort_callback env) s) !! q = Some d
            /\ finally_channel d = finally_channel d0
            /\ finally_closure d = finally_closure d0.
Proof.
  intros H0. unfold task. rewrite run_microtasks_promises.
  unfold abort_callback. destruct (closures s !! env) as [c|].
  - unfold sendEvent, sendData.
    rewrite (proj1 (proj2 (update_client_frame _ _ _))).
    assert (forall o s1 d1, promises s1 !! q = Some d1 ->
              exists d, promises (reject_if_defined o s1) !! q = Some d
                        /\ finally_channel d = finally_channel d1
                        /\ finally_closure d = finally_closure d1) as Hr.
    { intros [p|] s1 d1 H1; cbn [reject_if_defined].
      - apply settle_registration_fwd. exact H1.
      - exists d1. repeat split. exact H1. }
    destruct (Hr (local_grantSecurityClassesPromise c) s d0 H0)
      as [d1 [H1 [Ha Hb]]].
    destruct (Hr (local_validateDSKAndEnterPinPromise c) _ d1 H1)
      as [d2 [H2 [Hc Hd]]].
    exists d2. split; [exact H2|]. split; congruence.
  - exists d0. repeat split. exact H0.
Qed.

(** An abort, then the checkpoint, is coherent. *)
Lemma wf_task_abort env s : wf s -> wf (task (abort_callback env) s).
Proof.
  intros Hwf. destruct (closures s !! env) as [c|] eqn:Hc.
  - pose proof Hwf as [W0 [W1 W2]].
    split; [apply run_microtasks_microtasks|]. split.
    + intros env' c0 ch0 p0 Hc0 Hl0. unfold task in Hc0.
      rewrite run_microtasks_closures, abort_callback_closures in Hc0.
      destruct (W1 env' c0 ch0 p0 Hc0 Hl0) as [d0 [Hd0 [Hf1 Hf2]]].
      destruct (abort_registration_fwd env s p0 d0 Hd0) as [d1 [Hd1 [Hg1 Hg2]]].
      exists d1. split; [exact Hd1|]. split; congruence.
    + intros ch q Hq.
      assert (slot ch s = Some q /\ local ch c <> Some q) as [Hs Hl].
      { rewrite (abort_task_slot s env c ch Hwf Hc) in Hq.
        destruct (local ch c) as [p'|] eqn:Hl; [|split; [exact Hq|discriminate]].
        destruct (is_pending p' s && same_promise (slot ch s) (Some p')) eqn:E;
          [discriminate|].
        split; [exact Hq|]. intros [= ->].
        destruct (slot_holds_registered_pending s ch q Hwf Hq)
          as [d [c' [Hd [Hp _]]]].
        assert (is_pending q s = true) as Hpend
            by (apply is_pending_spec; exists d; split; assumption).
        rewrite Hpend, Hq in E.
        replace (same_promise (Some q) (Some q)) with true in E
          by (symmetry; apply same_promise_eq; reflexivity).
        discriminate. }
      destruct (abort_task_keeps_other s env c ch q Hwf Hc Hs Hl) as [_ Hst].
      destruct (W2 ch q Hs) as [dq [cq [Hdq [Hpq [Hcq Hlq]]]]].
      destruct (abort_registration_fwd env s q dq Hdq) as [d1 [Hd1 [Hg1 Hg2]]].
      exists d1, cq. split; [exact Hd1|]. split.
      * unfold state_of in Hst. rewrite Hd1 in Hst. cbn in Hst. congruence.
      * unfold task. rewrite run_microtasks_closures, abort_callback_closures.
        rewrite Hg2. split; assumption.
  - apply wf_task_quiet; [|exact Hwf]. unfold abort_callback. rewrite Hc.
    reflexivity.
Qed.

(** The controller handler, then the checkpoint, is coherent, whatever the
    session sends in between. *)
Lemma wf_run_handle controller message client s s2 :
  wf s ->
  coordinator s2
  = coordinator (ControllerMessageHandler.handle controller message client s).1 ->
  wf (run_microtasks s2).
Proof.
  intros Hwf. unfold ControllerMessageHandler.handle,
    ControllerMessageHandler.answer, ControllerMessageHandler.call_driver,
    ControllerMessageHandler.call_now.
  repeat match goal with
         | |- context [if ?b then _ else _] => destruct b
         end;
    cbn [fst];
    try (apply wf_run_quiet; exact Hwf);
    try (match goal with
         | |- context [match controller ?call with _ => _ end] =>
             destruct (controller call); cbn [fst];
             apply wf_run_quiet; exact Hwf
         end);
    try (pose proof (wf_processInclusionOptions client message s Hwf) as Hp;
         destruct (processInclusionOptions client message s) as [s1 o];
         cbn [fst] in *; intros H; apply (wf_run_quiet s1); [exact Hp|exact H]);
    match goal with
    | |- context [slot ?ch s] =>
        destruct (slot ch s) as [p|] eqn:Hs; cbn [fst];
        [intros H; exact (wf_run_settle s ch p _ s2 Hwf Hs H)
        |apply wf_run_quiet; exact Hwf]
    end.
Qed.

Lemma coordinator_catch this messageId e s :
  coordinator (receiveMessage_catch this messageId e s) = coordinator s.
Proof. destruct e; reflexivity. Qed.

Lemma wf_task_receiveMessage driver this data s :
  wf s -> wf (task (fun s0 => (receiveMessage driver this data s0).1) s).
Proof.
  intros Hwf. unfold task.
  destruct (JSON_parse data) as [| |msg] eqn:E;
    [rewrite (receiveMessage_SyntaxError _ _ _ _ E);
     apply (wf_run_quiet s); [exact Hwf|reflexivity]
    |rewrite (receiveMessage_null _ _ _ _ E);
     apply (wf_run_quiet s); [exact Hwf|reflexivity]
    |rewrite (receiveMessage_message _ _ _ _ _ E)].
  unfold receiveMessage_try.
  repeat match goal with
         | |- context [if ?b then _ else _] => destruct b
         end;
    cbn [fst]; try (apply (wf_run_quiet s); [exact Hwf|reflexivity]).
  - destruct (updateLogConfig driver (msg_config msg)) as [e|]; cbn [fst].
    + apply (wf_run_quiet s); [exact Hwf|]. rewrite coordinator_catch. reflexivity.
    + apply (wf_run_quiet s); [exact Hwf|reflexivity].
  - pose proof (fun s2 =>
                  wf_run_handle (driver_controller driver) msg this s s2 Hwf)
      as Hh.
    destruct (ControllerMessageHandler.handle (driver_controller driver)
                msg this s) as [s1 [r|e|call f]];
      cbn [fst] in *; apply Hh; [reflexivity| |reflexivity].
    apply coordinator_catch.
  - destruct (Object_prototype _ _) as [[e'|v]|]; cbn [fst];
      apply (wf_run_quiet s); try exact Hwf; try reflexivity;
      apply coordinator_catch.
Qed.

Lemma coordinator_pingInterval s :
  coordinator (pingInterval_callback s) = coordinator s.
Proof.
  unfold pingInterval_callback.
  assert (forall l st acc,
            coordinator (foldl
                           (fun '(st, acc) client =>
                              if connected client st then (st, acc ++ [client])
                              else (disconnect client st, acc))
                           (st, acc) l).1 = coordinator st) as Hloop.
  { induction l as [|x l IH]; intros st acc; cbn [foldl]; [reflexivity|].
    destruct (connected x st); rewrite IH; reflexivity. }
  specialize (Hloop (clients s) s []).
  destruct (foldl _ (s, []) (clients s)) as [s1 newClients].
  exact Hloop.
Qed.

Lemma coordinator_sendEvent_all event l s :
  coordinator (foldl (fun st client => sendEvent client event st) s l)
  = coordinator s.
Proof.
  revert s. induction l as [|x l IH]; intros s; cbn [foldl]; [reflexivity|].
  rewrite IH. reflexivity.
Qed.

(** Coherence holds in every reachable state. *)
Lemma reachable_wf s : reachable s -> wf s.
Proof.
  induction 1 as [|s s' _ IH Hstep].
  - exact wf_initial_state.
  - destruct Hstep.
    + apply wf_task_quiet; [reflexivity|exact IH].
    + apply wf_task_receiveMessage. exact IH.
    + apply wf_task_quiet; [|exact IH].
      destruct o; [reflexivity|apply coordinator_catch].
    + unfold task. apply (wf_run_quiet (grantSecurityClasses_callback env requested s));
        [|reflexivity].
      apply wf_user_callback. exact IH.
    + unfold task. apply (wf_run_quiet (validateDSKAndEnterPIN_callback env dsk s));
        [|reflexivity].
      apply wf_user_callback. exact IH.
    + apply wf_task_abort. exact IH.
    + apply wf_task_quiet; [reflexivity|exact IH].
    + apply wf_task_quiet; [|exact IH]. unfold checkAlive.
      destruct (client_heap s !! this) as [c|]; [|reflexivity].
      destruct (_outstandingPing c); reflexivity.
    + apply wf_task_quiet; [apply coordinator_pingInterval|exact IH].
    + apply wf_task_quiet; [reflexivity|exact IH].
    + apply wf_task_quiet; [apply coordinator_sendEvent_all|exact IH].
    + apply wf_task_quiet; [apply coordinator_sendEvent_all|exact IH].
Qed.

(** * Further properties *)

(** ** The controller handler *)

Ltac eval_command_tests :=
  repeat match goal with
         | |- context [String.eqb ?a ?b] =>
             let v := eval vm_compute in (String.eqb a b) in
             change (String.eqb a b) with v
         end;
  cbv beta iota delta [orb].

(** X1: while either slot holds a deferred, [controller.begin_inclusion] is
    answered with the already-in-progress failure, and nothing else happens:
    the driver is not called, no callbacks are installed, both slots and
    every deferred stay as they were. *)
Theorem beginInclusion_refused_while_exchange_pending
    driver this data msg s c :
  JSON_parse data = JSON_message msg ->
  msg_command msg = ControllerCommand.beginInclusion ->
  client_heap s !! this = Some c ->
  is_defined (grantSecurityClassesPromise s)
  || is_defined (validateDSKAndEnterPinPromise s) = true ->
  exists s',
    receiveMessage driver this data s = (s', Done)
    /\ client_heap s' !! this
       = Some (socket_call
                 (Send (ResultError (msg_messageId msg)
                          inclusionAlreadyInProgress []) false) c)
    /\ driver_calls s' = driver_calls s
    /\ coordinator s' = coordinator s.
Proof.
  intros Hp Hcmd Hc Hbusy.
  rewrite (receiveMessage_message _ _ _ _ _ Hp).
  unfold receiveMessage_try. rewrite Hcmd. eval_command_tests.
  change (before_dot ControllerCommand.beginInclusion) with "controller".
  eval_command_tests.
  rewrite (beginInclusion_conflict _ msg this s Hcmd Hbusy).
  eexists. split; [reflexivity|].
  cbn [receiveMessage_catch InclusionAlreadyInProgressError errorCode args].
  unfold sendResultError. rewrite (sendData_lookup _ _ _ _ c Hc).
  repeat split.
Qed.

(** X2: the command set of the controller namespace is closed.  A command
    that is none of the twenty names of the [switch] throws the
    unknown-command error carrying the command and changes nothing; a command
    that is one of them never throws that error. *)
Theorem controller_command_set_is_closed controller message client s :
  (~ In (msg_command message) controller_commands ->
   ControllerMessageHandler.handle controller message client s
   = (s, Throw (ThrowBaseError (UnknownCommandError (msg_command message)))))
  /\ (In (msg_command message) controller_commands ->
      forall s' e,
        ControllerMessageHandler.handle controller message client s
        = (s', Throw (ThrowBaseError e)) ->
        errorCode e <> unknownCommand).
Proof.
  split.
  - intros Hn. unfold ControllerMessageHandler.handle.
    repeat match goal with
           | |- context [String.eqb (msg_command message) ?x] =>
               let E := fresh "E" in
               destruct (String.eqb (msg_command message) x) eqn:E;
               [exfalso; apply Hn; apply String.eqb_eq in E; rewrite E;
                unfold controller_commands; simpl;
                repeat (first [left; reflexivity|right])|]
           end.
    reflexivity.
  - intros Hin s' e.
    unfold controller_commands in Hin. simpl in Hin.
    unfold ControllerMessageHandler.handle,
      ControllerMessageHandler.answer, ControllerMessageHandler.call_driver,
      ControllerMessageHandler.call_now.
    repeat (destruct Hin as [Hin|Hin];
            [rewrite <- Hin; eval_command_tests;
             repeat match goal with
                    | |- context [if ?b then _ else _] => destruct b
                    | |- context [let '(_, _) := ?x in _] => destruct x
                    | |- context [match slot ?ch s with _ => _ end] =>
                        destruct (slot ch s)
                    | |- context [match controller ?c with _ => _ end] =>
                        destruct (controller c) as [[? ?|?]|?]
                    end;
             cbv zeta; cbn [thrown];
             intros [= <- <-] || (intros H; discriminate H);
             discriminate|]).
    destruct Hin.
Qed.


(** X4: the misspelt command name kept for older clients and the corrected
    one are the same command: both call
    [driver.controller.removeNodeFromAllAssociations] with the node of the
    message and give the empty result. *)
Theorem both_spellings_remove_node_from_all_associations controller m1 m2 client s :
  msg_command m1 = ControllerCommand.removeNodeFromAllAssocations ->
  msg_command m2 = ControllerCommand.removeNodeFromAllAssociations ->
  msg_nodeId m1 = msg_nodeId m2 ->
  ControllerMessageHandler.handle controller m1 client s
  = ControllerMessageHandler.handle controller m2 client s
  /\ ControllerMessageHandler.handle controller m1 client s
     = (with_driver_calls
          (driver_calls s ++ [call_removeNodeFromAllAssociations (msg_nodeId m1)])
          s,
        Await (call_removeNodeFromAllAssociations (msg_nodeId m1)) None).
Proof.
  intros H1 H2 Hn. unfold ControllerMessageHandler.handle.
  rewrite H1, H2, Hn. eval_command_tests. split; reflexivity.
Qed.

(** ** The interactive exchange, operation by operation *)

Lemma wf_task_user_callback ch event env s :
  wf s -> wf (task (user_callback ch event env) s).
Proof.
  intros Hwf. unfold task.
  apply (wf_run_quiet (user_callback ch event env s)); [|reflexivity].
  apply wf_user_callback. exact Hwf.
Qed.

Lemma task_idle_slot job s ch :
  microtasks (job s) = [] -> slot ch (task job s) = slot ch (job s).
Proof. intros H. unfold task. rewrite run_microtasks_slot, H. reflexivity. Qed.

(** A request callback as a task, from a coherent state. *)
Lemma user_callback_task s ch event env c :
  wf s -> closures s !! env = Some c ->
  let s' := task (user_callback ch event env) s in
  let p := length (promises s) in
  slot ch s' = Some p
  /\ (forall ch', ch' <> ch -> slot ch' s' = slot ch' s)
  /\ promises s' = promises s ++ [mkDeferred Pending ch env]
  /\ closures s' = <[env := with_local ch (Some p) c]> (closures s)
  /\ client_heap s'
     = alter (socket_call (Send (EventMessage event) false)) (closure_client c)
         (client_heap s).
Proof.
  intros [Hm _] Hc s' p. subst s' p.
  assert (microtasks (user_callback ch event env s) = []) as Hm'.
  { unfold user_callback. rewrite Hc. cbn [createDeferredPromise].
    destruct ch; exact Hm. }
  split; [|split; [|split; [|split]]].
  - rewrite (task_idle_slot _ _ _ Hm'). unfold user_callback. rewrite Hc.
    destruct ch; reflexivity.
  - intros ch' Hne. rewrite (task_idle_slot _ _ _ Hm'). unfold user_callback.
    rewrite Hc. destruct ch, ch'; try congruence; reflexivity.
  - unfold task. rewrite run_microtasks_promises. unfold user_callback.
    rewrite Hc. destruct ch; reflexivity.
  - unfold task. rewrite run_microtasks_closures. unfold user_callback.
    rewrite Hc. destruct ch; reflexivity.
  - unfold task. rewrite run_microtasks_client_heap. unfold user_callback.
    rewrite Hc. destruct ch; reflexivity.
Qed.

(** X5: the callbacks that [controller.begin_inclusion] hands to the driver
    belong to the session that sent the command.  When the driver later asks
    for the security classes through them, the request event goes to that
    session's socket and to no other, and the grant slot holds a fresh
    pending deferred. *)
Theorem installed_callbacks_reach_the_requesting_session controller
    message client s o cl requested :
  wf s ->
  msg_command message = ControllerCommand.beginInclusion ->
  msg_options message = Some o ->
  interactive (strategy o) = true ->
  grantSecurityClassesPromise s = None ->
  validateDSKAndEnterPinPromise s = None ->
  client_heap s !! client = Some cl ->
  let env := length (closures s) in
  let p := length (promises s) in
  exists s1,
    ControllerMessageHandler.handle controller message client s
    = (s1, Await (call_beginInclusion
                    (mkInclusionOptions (strategy o) (Some env) (other_options o)))
             (Some "success"))
    /\ let s2 := task (grantSecurityClasses_callback env requested) s1 in
       client_heap s2 !! client
       = Some (socket_call
                 (Send (EventMessage (GrantSecurityClassesEvent requested)) false)
                 cl)
       /\ (forall other, other <> client ->
           client_heap s2 !! other = client_heap s !! other)
       /\ grantSecurityClassesPromise s2 = Some p
       /\ state_of p s2 = Some Pending.
Proof.
  intros Hwf Hcmd Ho Hi Hg Hv Hcl env p.
  rewrite handle_beginInclusion by exact Hcmd.
  rewrite Hg, Hv. cbn [is_defined orb].
  pose proof (wf_processInclusionOptions client message s Hwf) as Hwf1.
  unfold processInclusionOptions in *. rewrite Ho, Hi in *. cbn [fst] in Hwf1.
  eexists. split; [reflexivity|].
  set (s0 := with_closures (closures s ++ [mkClosure client None None]) s) in *.
  set (s1 := with_driver_calls _ s0).
  assert (wf s1) as Hwf2 by (apply (wf_coordinator s0); [reflexivity|exact Hwf1]).
  assert (closures s1 !! env = Some (mkClosure client None None)) as Hc
      by (apply list_lookup_middle; reflexivity).
  destruct (user_callback_task s1 GrantChannel
              (GrantSecurityClassesEvent requested) env _ Hwf2 Hc)
    as [H1 [_ [H3 [_ H5]]]].
  cbv zeta. unfold grantSecurityClasses_callback.
  rewrite H5. cbn [closure_client].
  split; [|split; [|split]].
  - rewrite list_lookup_alter_eq. change (client_heap s1) with (client_heap s).
    rewrite Hcl. reflexivity.
  - intros other Hne. rewrite list_lookup_alter_ne by congruence. reflexivity.
  - exact H1.
  - unfold state_of. rewrite H3.
    change (promises s1) with (promises s).
    rewrite list_lookup_middle by reflexivity. reflexivity.
Qed.

(** X6: a request followed by the client's answer is a round trip.  From a
    coherent state, once the driver has asked on a channel, the answer
    command returns the empty result, the deferred is fulfilled with exactly
    the value the client supplied, the channel is idle again and the other
    channel is as it was before the request. *)
Theorem request_then_answer_round_trip controller s ch event env c message client :
  wf s ->
  closures s !! env = Some c ->
  msg_command message = answer_command ch ->
  let p := length (promises s) in
  let s1 := task (user_callback ch event env) s in
  let s2 := task (fun s0 => (ControllerMessageHandler.handle controller message client s0).1) s1 in
  slot ch s1 = Some p
  /\ (ControllerMessageHandler.handle controller message client s1).2 = Return (JObject [])
  /\ state_of p s2 = Some (Fulfilled (answer_value ch message))
  /\ slot ch s2 = None
  /\ forall ch', ch' <> ch -> slot ch' s2 = slot ch' s.
Proof.
  intros Hwf Hc Hcmd p s1 s2.
  destruct (user_callback_task s ch event env c Hwf Hc) as [H1 [H2 _]].
  fold s1 p in H1, H2.
  pose proof (wf_task_user_callback ch event env s Hwf) as Hwf1. fold s1 in Hwf1.
  destruct (answer_task controller s1 ch message client p Hwf1 Hcmd H1) as [A1 [A2 A3]].
  fold s2 in A1, A2, A3.
  split; [exact H1|]. split.
  - rewrite (handle_answer _ ch) by exact Hcmd.
    unfold ControllerMessageHandler.answer. rewrite H1. reflexivity.
  - split; [exact A1|]. split; [exact A2|].
    intros ch' Hne. rewrite (A3 ch' Hne). apply H2. exact Hne.
Qed.

(** X7: a request is not queued behind an earlier one, it replaces it.  If
    the driver asks again on a channel whose slot still holds a pending
    deferred, the slot holds the new deferred; the client's answer fulfils
    the new one and frees the channel, and the earlier deferred is still
    pending then, out of reach of any answer command. *)
Theorem repeated_request_replaces_the_pending_one controller
    s ch p0 event env c message client :
  wf s ->
  slot ch s = Some p0 ->
  closures s !! env = Some c ->
  msg_command message = answer_command ch ->
  let p := length (promises s) in
  let s1 := task (user_callback ch event env) s in
  let s2 := task (fun s0 => (ControllerMessageHandler.handle controller message client s0).1) s1 in
  p <> p0
  /\ slot ch s1 = Some p
  /\ state_of p0 s1 = Some Pending
  /\ state_of p s2 = Some (Fulfilled (answer_value ch message))
  /\ state_of p0 s2 = Some Pending
  /\ slot ch s2 = None.
Proof.
  intros Hwf Hs Hc Hcmd p s1 s2.
  destruct (slot_holds_registered_pending s ch p0 Hwf Hs)
    as [d0 [c0 [Hd0 [Hp0 _]]]].
  assert (p0 < p) as Hlt by (eapply lookup_lt_Some; exact Hd0).
  destruct (user_callback_task s ch event env c Hwf Hc) as [H1 [_ [H3 _]]].
  fold s1 p in H1, H3.
  pose proof (wf_task_user_callback ch event env s Hwf) as Hwf1. fold s1 in Hwf1.
  destruct (answer_task controller s1 ch message client p Hwf1 Hcmd H1) as [A1 [A2 _]].
  fold s2 in A1, A2.
  assert (promises s1 !! p0 = Some d0) as Hd1
      by (rewrite H3; apply lookup_app_l_Some; exact Hd0).
  split; [lia|]. split; [exact H1|]. split.
  - unfold state_of. rewrite Hd1, <- Hp0. reflexivity.
  - split; [exact A1|]. split; [|exact A2].
    subst s2. unfold task, state_of. rewrite run_microtasks_promises.
    rewrite (handle_answer _ ch) by exact Hcmd.
    unfold ControllerMessageHandler.answer. rewrite H1. cbn [fst].
    rewrite settle_lookup_ne by lia. rewrite Hd1, <- Hp0. reflexivity.
Qed.

(** X8: on the coordinator an abort is idempotent: a second abort of the
    same operation rejects nothing and changes no slot.  On the wire it is
    not: every abort pushes one more "inclusion aborted" event. *)
Theorem abort_twice s env c cl :
  wf s ->
  closures s !! env = Some c ->
  client_heap s !! closure_client c = Some cl ->
  let s1 := task (abort_callback env) s in
  let s2 := task (abort_callback env) s1 in
  coordinator s2 = coordinator s1
  /\ client_heap s2 !! closure_client c
     = Some (socket_call (Send (EventMessage InclusionAbortedEvent) false)
               (socket_call (Send (EventMessage InclusionAbortedEvent) false) cl)).
Proof.
  intros Hwf Hc Hcl s1 s2.
  pose proof (wf_task_abort env s Hwf) as Hwf1. fold s1 in Hwf1.
  assert (closures s1 !! env = Some c) as Hc1.
  { subst s1. unfold task.
    rewrite run_microtasks_closures, abort_callback_closures. exact Hc. }
  assert (forall o, (o = local_grantSecurityClassesPromise c
                     \/ o = local_validateDSKAndEnterPinPromise c) ->
                    reject_if_defined o s1 = s1) as Hno.
  { intros [q|] Ho; [|reflexivity]. cbn [reject_if_defined].
    apply settle_settled.
    pose proof (abort_task_state s env c q Hwf Hc) as Hst. fold s1 in Hst.
    unfold is_pending. unfold state_of in Hst.
    destruct (promises s1 !! q) as [d|] eqn:Hd; [|reflexivity].
    cbn in Hst.
    destruct (is_pending q s) eqn:Hq.
    - assert (bool_decide (local_grantSecurityClassesPromise c = Some q)
              || bool_decide (local_validateDSKAndEnterPinPromise c = Some q)
              = true) as Hb.
      { apply orb_true_iff. destruct Ho as [Ho|Ho]; [left|right];
          apply bool_decide_eq_true_2; congruence. }
      rewrite Hb in Hst. cbn in Hst. injection Hst as ->. reflexivity.
    - cbn in Hst. unfold is_pending in Hq.
      destruct (promises s !! q) as [d'|]; [|discriminate].
      cbn in Hst. injection Hst as ->. exact Hq. }
  assert (abort_callback env s1
          = sendEvent (closure_client c) InclusionAbortedEvent s1) as Ha.
  { unfold abort_callback. rewrite Hc1.
    rewrite (Hno _ (or_introl eq_refl)), (Hno _ (or_intror eq_refl)).
    reflexivity. }
  split.
  - subst s2. unfold task at 1. rewrite Ha.
    rewrite run_microtasks_idle by (exact (proj1 Hwf1)). reflexivity.
  - subst s2. unfold task at 1. rewrite run_microtasks_client_heap, Ha.
    unfold sendEvent. apply sendData_lookup.
    subst s1. rewrite (abort_task_client_heap s env c Hc).
    rewrite list_lookup_alter_eq, Hcl. reflexivity.
Qed.

(** ** One result per command *)

Lemma try_completed_one_result driver this msg s s1 c :
  receiveMessage_try driver this msg s = (s1, Completed) ->
  client_heap s !! this = Some c ->
  exists c1 op,
    client_heap s1 !! this = Some c1
    /\ socket_log c1 = socket_log c ++ [op]
    /\ socket_open c1 = socket_open c
    /\ result_for (msg_messageId msg) op.
Proof.
  unfold receiveMessage_try. intros H Hc.
  repeat match type of H with
         | context [if ?b then _ else _] => destruct b
         end;
    try discriminate.
  - injection H as <-. unfold sendResultSuccess.
    erewrite sendData_lookup by (apply update_client_lookup; exact Hc).
    eexists. eexists. repeat split.
  - injection H as <-. unfold sendResultSuccess, sendData.
    rewrite update_client_twice.
    erewrite update_client_lookup by exact Hc.
    eexists. eexists. repeat split.
  - destruct (updateLogConfig driver (msg_config msg)); [discriminate|].
    injection H as <-. unfold sendResultSuccess.
    erewrite sendData_lookup by exact Hc.
    eexists. eexists. repeat split.
  - injection H as <-. unfold sendResultSuccess.
    erewrite sendData_lookup by exact Hc.
    eexists. eexists. repeat split.
  - pose proof (handle_client_heap (driver_controller driver) msg this s)
      as Hh.
    destruct (ControllerMessageHandler.handle (driver_controller driver)
                msg this s) as [s2 r].
    cbn [fst] in Hh.
    destruct r; try discriminate.
    injection H as <-. unfold sendResultSuccess.
    erewrite sendData_lookup by (rewrite Hh; exact Hc).
    eexists. eexists. repeat split.
  - destruct (Object_prototype _ _) as [[e'|v]|]; try discriminate.
    injection H as <-. unfold sendResultSuccess.
    erewrite sendData_lookup by exact Hc.
    eexists. eexists. repeat split.
Qed.

Lemma try_suspended_silent driver this msg s s1 k :
  receiveMessage_try driver this msg s = (s1, Suspend k) ->
  client_heap s1 = client_heap s /\ susp_messageId k = msg_messageId msg.
Proof.
  unfold receiveMessage_try. intros H.
  repeat match type of H with
         | context [if ?b then _ else _] => destruct b
         end;
    try discriminate.
  - destruct (updateLogConfig driver (msg_config msg)); discriminate.
  - pose proof (handle_client_heap (driver_controller driver) msg this s)
      as Hh.
    destruct (ControllerMessageHandler.handle (driver_controller driver)
                msg this s) as [s2 r].
    cbn [fst] in Hh.
    destruct r; try discriminate.
    injection H as <- <-. split; [exact Hh|reflexivity].
  - injection H as <- <-. split; reflexivity.
  - destruct (Object_prototype _ _) as [[e'|v]|]; discriminate.
Qed.

(** X9: every frame that parses to a message gets exactly one result frame,
    and the result carries the message's own [messageId].  Either the
    command is finished within its task, and then exactly one result has
    been added to the session's socket, or it waits for the driver or a
    handler, nothing has been sent yet, and its resumption adds exactly one
    result, whatever the outcome and whatever happened in between. *)
Theorem one_result_per_command driver this data msg s c :
  JSON_parse data = JSON_message msg ->
  client_heap s !! this = Some c ->
  (exists s' op,
      receiveMessage driver this data s = (s', Done)
      /\ socket_log_of this s' = socket_log c ++ [op]
      /\ result_for (msg_messageId msg) op)
  \/ (exists s' k,
        receiveMessage driver this data s = (s', Waiting k)
        /\ socket_log_of this s' = socket_log c
        /\ forall o s2 c2,
            client_heap s2 !! this = Some c2 ->
            exists op,
              socket_log_of this (receiveMessage_resume this k o s2)
              = socket_log c2 ++ [op]
              /\ result_for (msg_messageId msg) op).
Proof.
  intros Hp Hc. rewrite (receiveMessage_message _ _ _ _ _ Hp).
  destruct (receiveMessage_try driver this msg s) as [s1 [|k|e]] eqn:Ht.
  - left. destruct (try_completed_one_result _ _ _ _ _ _ Ht Hc)
      as [c1 [op [H1 [H2 [_ H3]]]]].
    exists s1, op. split; [reflexivity|]. unfold socket_log_of. rewrite H1.
    split; assumption.
  - right. destruct (try_suspended_silent _ _ _ _ _ _ Ht) as [Hh Hk].
    exists s1, k. split; [reflexivity|]. unfold socket_log_of. rewrite Hh, Hc.
    split; [reflexivity|].
    intros o s2 c2 Hc2. rewrite <- Hk. destruct o as [v|e].
    + cbn [receiveMessage_resume]. unfold sendResultSuccess.
      rewrite (sendData_lookup _ _ _ _ c2 Hc2).
      eexists. split; reflexivity.
    + cbn [receiveMessage_resume].
      destruct (catch_sends_one_failure this (susp_messageId k) e s2 c2 Hc2)
        as [frame [Hf [Hfor _]]].
      rewrite Hf. exists (Send frame false). split; [reflexivity|].
      destruct frame; try contradiction; exact Hfor.
  - left. destruct (try_raised_quiet _ _ _ _ _ _ _ Ht Hc) as [c1 [H1 [H2 _]]].
    destruct (catch_sends_one_failure this (msg_messageId msg) e s1 c1 H1)
      as [frame [Hf [Hfor _]]].
    exists (receiveMessage_catch this (msg_messageId msg) e s1), (Send frame false).
    split; [reflexivity|]. unfold socket_log_of. rewrite Hf.
    cbn [socket_call socket_log]. rewrite H2. split; [reflexivity|].
    destruct frame; try contradiction; exact Hfor.
Qed.

(** ** Isolation of sessions *)

Lemma catch_other_sessions this other messageId e s :
  this <> other ->
  client_heap (receiveMessage_catch this messageId e s) !! other
  = client_heap s !! other.
Proof.
  intros Hne. destruct e; cbn [receiveMessage_catch];
    apply update_client_lookup_ne; exact Hne.
Qed.

Lemma try_other_sessions driver this other msg s :
  this <> other ->
  client_heap (receiveMessage_try driver this msg s).1 !! other
  = client_heap s !! other.
Proof.
  intros Hne. unfold receiveMessage_try.
  repeat match goal with
         | |- context [if ?b then _ else _] => destruct b
         end;
    cbn [fst]; try reflexivity;
    unfold sendResultSuccess, sendData;
    rewrite ?update_client_lookup_ne by exact Hne; try reflexivity.
  - destruct (updateLogConfig driver (msg_config msg)); cbn [fst];
      rewrite ?update_client_lookup_ne by exact Hne; reflexivity.
  - pose proof (handle_client_heap (driver_controller driver) msg this s)
      as Hh.
    destruct (ControllerMessageHandler.handle (driver_controller driver)
                msg this s) as [s1 [r|e|call f]];
      cbn [fst] in *; unfold sendResultSuccess, sendData;
      rewrite ?update_client_lookup_ne by exact Hne; rewrite Hh; reflexivity.
  - destruct (Object_prototype _ _) as [[e'|v]|]; cbn [fst];
      unfold sendResultSuccess, sendData;
      rewrite ?update_client_lookup_ne by exact Hne; reflexivity.
Qed.

(** X10: a command only ever writes to the session it came from.  Whatever
    the frame, and whatever the outcome of what the command waited for, the
    fields, the socket state and the socket log of every other session are
    left as they were. *)
Theorem commands_touch_only_their_own_session driver this other data s :
  this <> other ->
  client_heap (receiveMessage driver this data s).1 !! other
  = client_heap s !! other
  /\ forall k o,
      client_heap (receiveMessage_resume this k o s) !! other
      = client_heap s !! other.
Proof.
  intros Hne. split.
  - destruct (JSON_parse data) as [| |msg] eqn:E.
    + rewrite (receiveMessage_SyntaxError _ _ _ _ E).
      apply update_client_lookup_ne. exact Hne.
    + rewrite (receiveMessage_null _ _ _ _ E). reflexivity.
    + rewrite (receiveMessage_message _ _ _ _ _ E).
      pose proof (try_other_sessions driver this other msg s Hne) as Ht.
      destruct (receiveMessage_try driver this msg s) as [s1 [|k|e]];
        cbn [fst] in *; try exact Ht.
      rewrite catch_other_sessions by exact Hne. exact Ht.
  - intros k [v|e]; cbn [receiveMessage_resume].
    + apply update_client_lookup_ne. exact Hne.
    + apply catch_other_sessions. exact Hne.
Qed.

(** ** Probes and acknowledgements *)

(** X11: [checkAlive] tolerates one missed acknowledgement and no more.  A
    pong between two probes keeps the socket open, and the second probe
    sends a second ping; two probes with no pong in between close the
    socket, and the second probe sends no ping. *)
Theorem probe_needs_an_acknowledgement this s c :
  client_heap s !! this = Some c ->
  _outstandingPing c = false ->
  client_heap (checkAlive this (on_pong this (checkAlive this s))) !! this
  = Some (mkClient (receiveEvents c) true (schemaVersion c) (receiveLogs c)
            (socket_open c) (socket_log c ++ [Ping; Ping]))
  /\ client_heap (checkAlive this (checkAlive this s)) !! this
     = Some (mkClient (receiveEvents c) true (schemaVersion c) (receiveLogs c)
               false (socket_log c ++ [Ping; Close])).
Proof.
  intros Hc Hp. split.
  - pose proof (checkAlive_first_probe this s c Hc Hp) as H1.
    pose proof (on_pong_clears this _ _ H1) as H2.
    rewrite (checkAlive_first_probe this _ _ H2) by reflexivity.
    unfold socket_call, socket_close, set_outstandingPing; cbn.
    rewrite <- app_assoc. reflexivity.
  - rewrite (checkAlive_twice_disconnects this s c Hc Hp).
    unfold socket_call, socket_close, set_outstandingPing; cbn.
    rewrite <- app_assoc. reflexivity.
Qed.

(** ** The registry *)

Lemma connected_disconnect x y st :
  connected x st = false ->
  connected y (disconnect x st) = connected y st.
Proof.
  intros Hx. unfold connected, disconnect in *.
  destruct (decide (x = y)) as [<-|Hne].
  - unfold update_client. cbn [client_heap with_client_heap].
    rewrite list_lookup_alter_eq.
    destruct (client_heap st !! x) as [c|]; [|reflexivity]. exact (eq_sym Hx).
  - rewrite update_client_lookup_ne by exact Hne. reflexivity.
Qed.

Lemma open_survives_disconnect x y st c :
  connected x st = false ->
  client_heap st !! y = Some c -> socket_open c = true ->
  client_heap (disconnect x st) !! y = Some c.
Proof.
  intros Hx Hy Ho. unfold disconnect.
  rewrite update_client_lookup_ne; [exact Hy|].
  intros ->. unfold connected in Hx. rewrite Hy in Hx.
  unfold isConnected in Hx. congruence.
Qed.

Lemma pingInterval_loop l st acc :
  let r :=
    foldl
      (fun '(st, acc) client =>
         if connected client st then (st, acc ++ [client])
         else (disconnect client st, acc))
      (st, acc) l in
  r.2 = acc ++ filter (fun x => connected x st = true) l
  /\ (forall x, connected x r.1 = connected x st)
  /\ (forall x c, client_heap st !! x = Some c -> socket_open c = true ->
      client_heap r.1 !! x = Some c)
  /\ coordinator r.1 = coordinator st.
Proof.
  revert st acc. induction l as [|y l IH]; intros st acc; cbn [foldl].
  - cbn. rewrite app_nil_r. repeat split. intros x c H _. exact H.
  - destruct (connected y st) eqn:E.
    + destruct (IH st (acc ++ [y])) as [H1 [H2 [H3 H4]]].
      cbv zeta. split; [|split; [|split]]; try assumption.
      rewrite H1, filter_cons_True by exact E.
      rewrite <- app_assoc. reflexivity.
    + destruct (IH (disconnect y st) acc) as [H1 [H2 [H3 H4]]].
      cbv zeta. split; [|split; [|split]].
      * rewrite H1, filter_cons_False by congruence.
        f_equal. apply list_filter_iff. intros x.
        rewrite (connected_disconnect y x st E). reflexivity.
      * intros x. rewrite H2. apply connected_disconnect. exact E.
      * intros x c Hx Ho. apply H3; [|exact Ho].
        apply (open_survives_disconnect y x st c E Hx Ho).
      * rewrite H4. reflexivity.
Qed.

(** X12: one run of the recurring timer keeps exactly the registered
    sessions whose socket is open, in their order.  The sessions it keeps
    are connected afterwards, a session with an open socket is not touched
    at all, registered or not, and neither is the coordinator. *)
Theorem pingInterval_keeps_the_connected s :
  let s' := pingInterval_callback s in
  clients s' = filter (fun x => connected x s = true) (clients s)
  /\ (forall x, x ∈ clients s' -> connected x s' = true)
  /\ (forall x c, client_heap s !! x = Some c -> socket_open c = true ->
      client_heap s' !! x = Some c)
  /\ coordinator s' = coordinator s.
Proof.
  destruct (pingInterval_loop (clients s) s []) as [H1 [H2 [H3 H4]]].
  unfold pingInterval_callback.
  destruct (foldl _ (s, []) (clients s)) as [s1 newClients].
  cbn [fst snd] in *. cbv zeta. cbn [clients with_clients].
  split; [exact H1|]. split; [|split].
  - intros x Hx. rewrite H1 in Hx. cbn in Hx.
    apply list_elem_of_filter in Hx. destruct Hx as [Hx _].
    change (connected x s1 = true). rewrite H2. exact Hx.
  - intros x c Hx Ho. exact (H3 x c Hx Ho).
  - exact H4.
Qed.

Lemma connected_socket_lost x y s :
  connected x (socket_lost y s) = true -> connected x s = true.
Proof.
  unfold connected, socket_lost.
  destruct (decide (y = x)) as [->|Hne].
  - unfold update_client. cbn [client_heap with_client_heap].
    rewrite list_lookup_alter_eq.
    destruct (client_heap s !! x); cbn; discriminate.
  - rewrite update_client_lookup_ne by exact Hne. exact id.
Qed.

Lemma connected_socket_lost_self x s : connected x (socket_lost x s) = false.
Proof.
  unfold connected, socket_lost, update_client.
  cbn [client_heap with_client_heap]. rewrite list_lookup_alter_eq.
  destruct (client_heap s !! x); reflexivity.
Qed.

Lemma cleanupLoggingEventForwarder_frame r :
  controller (cleanupLoggingEventForwarder r) = controller r
  /\ cleanupScheduled (cleanupLoggingEventForwarder r) = cleanupScheduled r
  /\ timeouts (cleanupLoggingEventForwarder r) = timeouts r.
Proof.
  unfold cleanupLoggingEventForwarder, stop.
  destruct (_ && _); [|repeat split].
  destruct (loggingEventForwarder r); repeat split.
Qed.

Lemma on_close_burst l r :
  let r1 := foldl (fun r0 this => on_close this r0) r l in
  clients (controller r1) = clients (controller r)
  /\ (forall x, connected x (controller r1) = true ->
      connected x (controller r) = true)
  /\ (forall x, x ∈ l -> connected x (controller r1) = false)
  /\ (cleanupScheduled r = true ->
      cleanupScheduled r1 = true /\ timeouts r1 = timeouts r)
  /\ (cleanupScheduled r = false -> l <> [] ->
      cleanupScheduled r1 = true /\ timeouts r1 = S (timeouts r)).
Proof.
  revert r. induction l as [|y l IH]; intros r; cbn [foldl].
  - cbv zeta. split; [reflexivity|]. split; [exact (fun _ H => H)|].
    split; [intros x Hx; inversion Hx|]. split; [intros H; split; [exact H|reflexivity]|].
    intros _ H. congruence.
  - destruct (IH (on_close y r)) as [H1 [H2 [H3 [H4 H5]]]].
    cbv zeta.
    assert (controller (on_close y r) = socket_lost y (controller r)) as Hc.
    { unfold on_close, scheduleClientCleanup, with_controller. cbn.
      destruct (cleanupScheduled r); reflexivity. }
    assert (cleanupScheduled (on_close y r) = true) as Hf.
    { unfold on_close, scheduleClientCleanup, with_controller. cbn.
      destruct (cleanupScheduled r); reflexivity. }
    split; [rewrite H1, Hc; reflexivity|]. split; [|split; [|split]].
    + intros x Hx. apply H2 in Hx. rewrite Hc in Hx.
      exact (connected_socket_lost x y _ Hx).
    + intros x Hx. apply elem_of_cons in Hx. destruct Hx as [->|Hx].
      * destruct (connected y (controller (foldl (fun r0 this => on_close this r0)
                                             (on_close y r) l))) eqn:E;
          [|reflexivity].
        apply H2 in E. rewrite Hc, connected_socket_lost_self in E.
        discriminate.
      * exact (H3 x Hx).
    + intros Ht. destruct (H4 Hf) as [A B]. split; [exact A|]. rewrite B.
      unfold on_close, scheduleClientCleanup, with_controller. cbn.
      rewrite Ht. reflexivity.
    + intros Ht _. destruct (H4 Hf) as [A B]. split; [exact A|]. rewrite B.
      unfold on_close, scheduleClientCleanup, with_controller. cbn.
      rewrite Ht. reflexivity.
Qed.

(** X13: a burst of close events leads to one sweep.  Starting with no
    cleanup scheduled, any number of sockets closing before the timer runs
    leaves exactly one [setTimeout] callback pending; when it runs, the flag
    is cleared, none of the closed sessions is registered any more, and
    every session still registered was registered before and has an open
    socket. *)
Theorem burst_of_closes_one_sweep r l :
  cleanupScheduled r = false ->
  l <> [] ->
  let r1 := foldl (fun r0 this => on_close this r0) r l in
  let r2 := timeout_fires r1 in
  timeouts r1 = S (timeouts r)
  /\ timeouts r2 = timeouts r
  /\ cleanupScheduled r2 = false
  /\ (forall x, x ∈ l -> x ∉ clients (controller r2))
  /\ (forall x, x ∈ clients (controller r2) ->
      x ∈ clients (controller r) /\ connected x (controller r) = true).
Proof.
  intros Hf Hl r1 r2.
  destruct (on_close_burst l r) as [H1 [H2 [H3 [_ H5]]]]. fold r1 in H1, H2, H3, H5.
  destruct (H5 Hf Hl) as [_ Ht].
  assert (clients (controller r2)
          = filter (fun cl => connected cl (controller r1) = true)
              (clients (controller r1))) as Hc.
  { subst r2. unfold timeout_fires, cleanupClients.
    rewrite (proj1 (cleanupLoggingEventForwarder_frame _)). reflexivity. }
  split; [exact Ht|]. split; [|split; [|split]].
  - subst r2. unfold timeout_fires, cleanupClients.
    rewrite (proj2 (proj2 (cleanupLoggingEventForwarder_frame _))).
    cbn [timeouts]. rewrite Ht. reflexivity.
  - subst r2. unfold timeout_fires, cleanupClients.
    rewrite (proj1 (proj2 (cleanupLoggingEventForwarder_frame _))). reflexivity.
  - intros x Hx Hin. rewrite Hc in Hin. apply list_elem_of_filter in Hin.
    destruct Hin as [Hin _]. rewrite (H3 x Hx) in Hin. discriminate.
  - intros x Hin. rewrite Hc in Hin. apply list_elem_of_filter in Hin.
    destruct Hin as [Hcon Hin]. rewrite H1 in Hin. split; [exact Hin|].
    exact (H2 x Hcon).
Qed.

Lemma no_listener_iff s l :
  (length (filter (fun cl => wants_logs s cl = true) l) =? 0)%nat
  = negb (existsb (wants_logs s) l).
Proof.
  induction l as [|x l IH]; [reflexivity|].
  cbn [existsb]. rewrite filter_cons.
  destruct (decide (wants_logs s x = true)) as [E|E].
  - rewrite E. reflexivity.
  - apply not_true_is_false in E. rewrite E. exact IH.
Qed.

Lemma cleanupLoggingEventForwarder_idempotent r :
  cleanupLoggingEventForwarder (cleanupLoggingEventForwarder r)
  = cleanupLoggingEventForwarder r.
Proof.
  unfold cleanupLoggingEventForwarder at 2 3.
  destruct (_ && _) eqn:E.
  - unfold cleanupLoggingEventForwarder.
    assert (loggingEventForwarderStarted (stop r) = false) as ->.
    { unfold stop, loggingEventForwarderStarted.
      destruct (loggingEventForwarder r) as [f|] eqn:F; [reflexivity|].
      rewrite F. reflexivity. }
    rewrite andb_false_r. reflexivity.
  - unfold cleanupLoggingEventForwarder. rewrite E. reflexivity.
Qed.

Lemma cleanupLoggingEventForwarder_started r :
  loggingEventForwarderStarted (cleanupLoggingEventForwarder r)
  = loggingEventForwarderStarted r
    && existsb (wants_logs (controller r)) (clients (controller r)).
Proof.
  unfold cleanupLoggingEventForwarder. rewrite no_listener_iff.
  destruct (existsb _ _); cbn [negb andb].
  - rewrite andb_true_r. reflexivity.
  - rewrite andb_false_r.
    destruct (loggingEventForwarderStarted r) eqn:E; [|exact E].
    unfold stop, loggingEventForwarderStarted in *.
    destruct (loggingEventForwarder r); [reflexivity|discriminate].
Qed.

(** X14: the sweep is idempotent: run twice, [cleanupClients] leaves the
    registry as after the first run.  After a sweep the log forwarder is
    started exactly if it was started before and some registered session
    with an open socket wants logs. *)
Theorem cleanupClients_idempotent r :
  cleanupClients (cleanupClients r) = cleanupClients r
  /\ loggingEventForwarderStarted (cleanupClients r)
     = loggingEventForwarderStarted r
       && existsb (fun x => wants_logs (controller r) x && connected x (controller r))
            (clients (controller r)).
Proof.
  split.
  - set (r0 := mkRegistry
                  (with_clients
                     (filter (fun cl => connected cl (controller r) = true)
                        (clients (controller r)))
                     (controller r))
                  false (timeouts r) (loggingEventForwarder r) (logConfig r)
                  (transports_made r)).
    change (cleanupClients r) with (cleanupLoggingEventForwarder r0).
    unfold cleanupClients.
    destruct (cleanupLoggingEventForwarder_frame r0) as [Hc [Hf Ht]].
    rewrite Hc.
    assert (with_clients
              (filter (fun cl => connected cl (controller r0) = true)
                 (clients (controller r0)))
              (controller r0) = controller r0) as ->.
    { subst r0. cbn [controller clients with_clients].
      unfold with_clients at 1. cbn.
      rewrite list_filter_filter_l by (intros x H; exact H).
      reflexivity. }
    assert (mkRegistry (controller r0) false
              (timeouts (cleanupLoggingEventForwarder r0))
              (loggingEventForwarder (cleanupLoggingEventForwarder r0))
              (logConfig (cleanupLoggingEventForwarder r0))
              (transports_made (cleanupLoggingEventForwarder r0))
            = cleanupLoggingEventForwarder r0) as ->.
    { destruct (cleanupLoggingEventForwarder r0) as [a b c d e f].
      cbn in *. subst. reflexivity. }
    apply cleanupLoggingEventForwarder_idempotent.
  - unfold cleanupClients.
    rewrite cleanupLoggingEventForwarder_started.
    cbn [controller clients with_clients].
    f_equal.
    assert (forall l', wants_logs (with_clients l' (controller r))
                       = wants_logs (controller r)) as -> by reflexivity.
    induction (clients (controller r)) as [|x l IH]; [reflexivity|].
    rewrite filter_cons. cbn [existsb].
    destruct (decide (connected x (controller r) = true)) as [E|E].
    + cbn [existsb]. rewrite E, andb_true_r, IH. reflexivity.
    + apply not_true_is_false in E. rewrite E, andb_false_r. exact IH.
Qed.

Lemma disconnect_all l st :
  let st' := foldl (fun st0 client => disconnect client st0) st l in
  clients st' = clients st
  /\ pingInterval st' = pingInterval st
  /\ eventForwarder st' = eventForwarder st
  /\ driver_calls st' = driver_calls st
  /\ coordinator st' = coordinator st
  /\ (forall x, x ∉ l -> client_heap st' !! x = client_heap st !! x)
  /\ (forall x c, x ∈ l -> client_heap st !! x = Some c ->
      exists n, client_heap st' !! x = Some (Nat.iter (S n) socket_close c))
  /\ (forall x, connected x st = false -> connected x st' = false).
Proof.
  revert st. induction l as [|y l IH]; intros st; cbn [foldl]; cbv zeta.
  - repeat split; try reflexivity; try (intros; assumption).
    intros x c Hx. inversion Hx.
  - destruct (IH (disconnect y st)) as [H1 [H2 [H3 [H4 [H5 [H6 [H7 H8]]]]]]].
    split; [rewrite H1; reflexivity|]. split; [rewrite H2; reflexivity|].
    split; [rewrite H3; reflexivity|]. split; [rewrite H4; reflexivity|].
    split; [rewrite H5; reflexivity|]. split; [|split].
    + intros x Hx. apply not_elem_of_cons in Hx. destruct Hx as [Hne Hx].
      rewrite (H6 x Hx). unfold disconnect.
      apply update_client_lookup_ne. congruence.
    + intros x c Hx Hc. destruct (decide (y = x)) as [->|Hne].
      * assert (client_heap (disconnect x st) !! x = Some (socket_close c)) as Hd
          by (apply update_client_lookup; exact Hc).
        destruct (decide (x ∈ l)) as [Hin|Hout].
        -- destruct (H7 x _ Hin Hd) as [n Hn]. exists (S n). rewrite Hn.
           f_equal. symmetry. apply Nat.iter_succ_r.
        -- exists 0. rewrite (H6 x Hout). exact Hd.
      * apply elem_of_cons in Hx. destruct Hx as [->|Hx]; [congruence|].
        apply (H7 x c Hx). unfold disconnect.
        rewrite update_client_lookup_ne by exact Hne. exact Hc.
    + intros x Hx. apply H8. unfold connected, disconnect in *.
      destruct (decide (y = x)) as [->|Hne].
      * unfold update_client. cbn [client_heap with_client_heap].
        rewrite list_lookup_alter_eq.
        destruct (client_heap st !! x); reflexivity.
      * rewrite update_client_lookup_ne by exact Hne. exact Hx.
Qed.

(** X15: [ClientsController.disconnect()] tears the registry down.  The
    recurring timer is cleared, no session stays registered, the log
    forwarder is not started afterwards, the socket of every session that
    was registered has been closed and no other session is touched; the
    pending interactive exchanges and the event forwarder are left as they
    were.  A second call changes nothing. *)
Theorem disconnect_tears_the_registry_down r :
  let r' := ClientsController_disconnect r in
  clients (controller r') = []
  /\ pingInterval (controller r') = false
  /\ loggingEventForwarderStarted r' = false
  /\ (forall x c, x ∈ clients (controller r) ->
      client_heap (controller r) !! x = Some c ->
      exists c', client_heap (controller r') !! x = Some c'
                 /\ socket_open c' = false
                 /\ Close ∈ socket_log c'
                 /\ firstn (length (socket_log c)) (socket_log c') = socket_log c)
  /\ (forall x, x ∉ clients (controller r) ->
      client_heap (controller r') !! x = client_heap (controller r) !! x)
  /\ coordinator (controller r') = coordinator (controller r)
  /\ eventForwarder (controller r') = eventForwarder (controller r)
  /\ ClientsController_disconnect r' = r'.
Proof.
  intros r'.
  set (s1 := with_pingInterval false (controller r)).
  set (s2 := foldl (fun st client => disconnect client st) s1 (clients s1)).
  set (r0 := with_controller (with_clients [] s2) r).
  assert (r' = cleanupLoggingEventForwarder r0) as Hr' by reflexivity.
  clearbody r'. subst r'.
  destruct (disconnect_all (clients s1) s1) as [H1 [H2 [H3 [H4 [H5 [H6 [H7 H8]]]]]]].
  fold s2 in H1, H2, H3, H4, H5, H6, H7, H8.
  destruct (cleanupLoggingEventForwarder_frame r0) as [Hc _].
  assert (loggingEventForwarderStarted (cleanupLoggingEventForwarder r0) = false)
    as Hs.
  { rewrite cleanupLoggingEventForwarder_started. subst r0. cbn.
    apply andb_false_r. }
  rewrite Hc.
  split; [reflexivity|]. split; [exact H2|]. split; [exact Hs|].
  split; [|split; [|split; [|split]]].
  - intros x c Hx Hl. destruct (H7 x c Hx Hl) as [n Hn].
    exists (Nat.iter (S n) socket_close c). split; [exact Hn|].
    split; [reflexivity|]. split.
    + cbn [Nat.iter socket_close socket_log]. apply elem_of_app. right. left.
    + clear. induction n as [|n IH].
      * cbn. rewrite firstn_app, firstn_all, Nat.sub_diag. apply app_nil_r.
      * change (Nat.iter (S (S n)) socket_close c)
          with (socket_close (Nat.iter (S n) socket_close c)).
        unfold socket_close at 1. cbn [socket_log].
        rewrite <- IH at 2.
        rewrite firstn_app.
        assert (length (socket_log c)
                <= length (socket_log (Nat.iter (S n) socket_close c))) as Hle.
        { rewrite <- IH at 1. rewrite length_firstn. lia. }
        replace (length (socket_log c)
                 - length (socket_log (Nat.iter (S n) socket_close c)))
          with 0 by lia.
        cbn [firstn]. apply app_nil_r.
  - intros x Hx. exact (H6 x Hx).
  - exact H5.
  - exact H3.
  - unfold ClientsController_disconnect. cbv zeta. rewrite Hc.
    assert (with_controller
              (with_clients []
                 (foldl (fun st client => disconnect client st)
                    (with_pingInterval false (controller r0))
                    (clients (with_pingInterval false (controller r0)))))
              (cleanupLoggingEventForwarder r0)
            = cleanupLoggingEventForwarder r0) as ->.
    { assert (with_clients []
                (foldl (fun st client => disconnect client st)
                   (with_pingInterval false (controller r0))
                   (clients (with_pingInterval false (controller r0))))
              = controller r0) as ->.
      { clearbody s2. subst r0.
        unfold with_controller, with_clients, with_pingInterval. cbn.
        rewrite H2. reflexivity. }
      rewrite <- Hc.
      destruct (cleanupLoggingEventForwarder r0); reflexivity. }
    apply cleanupLoggingEventForwarder_idempotent.
Qed.

Lemma filter_keeps_all {A} (f : A -> bool) (l : list A) :
  (forall x, x ∈ l -> f x = true) ->
  filter (fun x => f x = true) l = l.
Proof.
  induction l as [|x l IH]; intros H; [reflexivity|].
  rewrite filter_cons_True by (apply H; left).
  f_equal. apply IH. intros y Hy. apply H. right. exact Hy.
Qed.

Lemma known_transports_differ r t :
  transports_known r -> t ∈ transports (logConfig r) ->
  negb (same_transport t
          (Some (mkTransport (transports_made r) (level (logConfig r)))))
  = true.
Proof.
  intros Hk Ht. destruct t as [name|a]; [reflexivity|].
  apply Hk in Ht. cbn. apply negb_true_iff, Nat.eqb_neq. lia.
Qed.

Lemma filter_negb {A} (f : A -> bool) (l : list A) :
  filter (fun x => f x = false) l = filter (fun x => negb (f x) = true) l.
Proof.
  apply list_filter_iff. intros x. destruct (f x); cbn; split; congruence.
Qed.

Lemma stop_start r :
  transports_known r ->
  logConfig (stop (start r)) = logConfig r.
Proof.
  intros Hk. unfold stop, start. cbn.
  rewrite filter_negb, filter_app.
  rewrite (filter_keeps_all
             (fun t => negb (same_transport t
                               (Some (mkTransport (transports_made r)
                                        (level (logConfig r)))))))
    by (intros t Ht; exact (known_transports_differ r t Hk Ht)).
  rewrite filter_cons_False, filter_nil, app_nil_r.
  - destruct (logConfig r); reflexivity.
  - cbn. rewrite Nat.eqb_refl. discriminate.
Qed.

(** X16: stopping the log forwarder undoes starting it.  [start] attaches
    one new transport of the driver's current level after the transports
    the driver has; [stop] removes exactly that transport again, so the
    driver's log configuration is as it was before, and the forwarder is no
    longer started. *)
Theorem stop_undoes_start r :
  transports_known r ->
  loggingEventForwarderStarted (start r) = true
  /\ transports (logConfig (start r))
     = transports (logConfig r)
       ++ [ServerTransport
             (mkTransport (transports_made r) (level (logConfig r)))]
  /\ logConfig (stop (start r)) = logConfig r
  /\ loggingEventForwarderStarted (stop (start r)) = false
  /\ controller (stop (start r)) = controller r
  /\ transports_known (stop (start r)).
Proof.
  intros Hk. split; [reflexivity|]. split; [reflexivity|].
  split; [exact (stop_start r Hk)|]. split; [reflexivity|].
  split; [reflexivity|].
  intros t Ht. rewrite (stop_start r Hk) in Ht. apply Hk in Ht.
  cbn. lia.
Qed.

(** X17: [restartIfNeeded] reconciles the forwarder with the driver's log
    level.  When the forwarder is started with a transport of another
    level than the driver's current one, the old transport is detached and
    one new transport of the current level is attached in its place; the
    driver's other transports and its level are kept.  When the levels
    agree nothing changes. *)
Theorem restart_brings_the_transport_to_the_current_level r f t :
  transports_known r ->
  loggingEventForwarder r = Some f ->
  serverTransport f = Some t ->
  let r' := restartLoggingEventForwarderIfNeeded r in
  (transport_level t = level (logConfig r) -> r' = r)
  /\ (transport_level t <> level (logConfig r) ->
      exists t',
        loggingEventForwarder r' = Some (mkForwarder (Some t'))
        /\ transport_level t' = level (logConfig r)
        /\ level (logConfig r') = level (logConfig r)
        /\ transports (logConfig r')
           = filter (fun x => same_transport x (Some t) = false)
               (transports (logConfig r))
             ++ [ServerTransport t']
        /\ (forall x, x ∈ transports (logConfig r) ->
            same_transport x (Some t') = false)
        /\ controller r' = controller r).
Proof.
  intros Hk Hf Ht r'. subst r'. unfold restartLoggingEventForwarderIfNeeded.
  rewrite Hf, Ht. split.
  - intros ->. rewrite String.eqb_refl. reflexivity.
  - intros Hne. apply String.eqb_neq in Hne. rewrite Hne. cbn [negb].
    exists (mkTransport (transports_made r) (level (logConfig r))).
    unfold start, stop. rewrite Hf, Ht. cbn.
    repeat split.
    intros x Hx. apply negb_true_iff.
    exact (known_transports_differ r x Hk Hx).
Qed.

(** X18: [configureLoggingEventForwarder] makes sure the forwarder runs.
    Afterwards it is started in every case; when it was started already
    nothing is changed, so no second transport is attached, and calling it
    again changes nothing. *)
Theorem configure_starts_the_forwarder_once r :
  loggingEventForwarderStarted (configureLoggingEventForwarder r) = true
  /\ (loggingEventForwarderStarted r = true ->
      configureLoggingEventForwarder r = r)
  /\ (loggingEventForwarderStarted r = false ->
      transports (logConfig (configureLoggingEventForwarder r))
      = transports (logConfig r)
        ++ [ServerTransport
              (mkTransport (transports_made r) (level (logConfig r)))])
  /\ configureLoggingEventForwarder (configureLoggingEventForwarder r)
     = configureLoggingEventForwarder r.
Proof.
  assert (forall r0, loggingEventForwarderStarted r0 = true ->
                     configureLoggingEventForwarder r0 = r0) as Hid.
  { intros r0 H. unfold configureLoggingEventForwarder.
    unfold loggingEventForwarderStarted in *.
    destruct (loggingEventForwarder r0) as [f|] eqn:F; [|discriminate].
    cbv zeta. rewrite F, H. reflexivity. }
  assert (loggingEventForwarderStarted (configureLoggingEventForwarder r) = true)
    as Hs.
  { unfold configureLoggingEventForwarder, loggingEventForwarderStarted.
    destruct (loggingEventForwarder r) as [f|] eqn:F; cbv zeta.
    - rewrite F. destruct (serverTransport f) eqn:T; cbn; [|reflexivity].
      rewrite F, T. reflexivity.
    - reflexivity. }
  split; [exact Hs|]. split; [exact (Hid r)|]. split; [|exact (Hid _ Hs)].
  intros H. unfold configureLoggingEventForwarder, loggingEventForwarderStarted in *.
  destruct (loggingEventForwarder r) as [f|] eqn:F; cbv zeta.
  - rewrite F. destruct (serverTransport f); [discriminate|]. reflexivity.
  - reflexivity.
Qed.

(** ** Sessions over the steps of the server *)

Lemma extends_refl c : extends c c.
Proof. exists []. rewrite app_nil_r. split; reflexivity. Qed.

Lemma extends_trans a b c : extends a b -> extends b c -> extends a c.
Proof.
  intros [l1 [H1 N1]] [l2 [H2 N2]]. exists (l1 ++ l2).
  rewrite H2, H1, app_assoc. split; [reflexivity|].
  unfold no_version in *. rewrite forallb_app, N1, N2. reflexivity.
Qed.

Lemma extends_quiet c c' : socket_log c' = socket_log c -> extends c c'.
Proof. intros H. exists []. rewrite app_nil_r. split; [exact H|reflexivity]. Qed.

Lemma extends_call c op : is_version op = false -> extends c (socket_call op c).
Proof.
  intros H. exists [op]. split; [reflexivity|]. cbn. rewrite H. reflexivity.
Qed.

Lemma extends_close c : extends c (socket_close c).
Proof. exists [Close]. split; reflexivity. Qed.

Lemma sessions_extend_refl s : sessions_extend s s.
Proof. intros x c H. exists c. split; [exact H|apply extends_refl]. Qed.

Lemma sessions_extend_trans a b c :
  sessions_extend a b -> sessions_extend b c -> sessions_extend a c.
Proof.
  intros H1 H2 x ca Ha. destruct (H1 x ca Ha) as [cb [Hb E1]].
  destruct (H2 x cb Hb) as [cc [Hc E2]]. exists cc. split; [exact Hc|].
  exact (extends_trans _ _ _ E1 E2).
Qed.

Lemma sessions_extend_ext s s' :
  client_heap s' = client_heap s -> sessions_extend s s'.
Proof.
  intros H x c Hx. exists c. rewrite H. split; [exact Hx|apply extends_refl].
Qed.

Lemma sessions_extend_update this f s :
  (forall c, extends c (f c)) -> sessions_extend s (update_client this f s).
Proof.
  intros Hf x c Hx. destruct (decide (this = x)) as [->|Hne].
  - exists (f c). split; [apply update_client_lookup; exact Hx|apply Hf].
  - exists c. rewrite update_client_lookup_ne by exact Hne.
    split; [exact Hx|apply extends_refl].
Qed.

Lemma sessions_extend_sendData this m compress s :
  is_version (Send m compress) = false ->
  sessions_extend s (sendData this m compress s).
Proof.
  intros H. apply sessions_extend_update. intros c. apply extends_call. exact H.
Qed.

Lemma sessions_extend_length s s' :
  sessions_extend s s' -> length (client_heap s) <= length (client_heap s').
Proof.
  intros H. destruct (client_heap s) as [|c0 l0] eqn:E; [cbn; lia|].
  rewrite <- E.
  destruct (lookup_lt_is_Some_2 (client_heap s) (length (client_heap s) - 1))
    as [c Hc]; [rewrite E; cbn; lia|].
  destruct (H _ c Hc) as [c' [Hc' _]].
  apply lookup_lt_Some in Hc'. lia.
Qed.

Lemma evolves_refl s : evolves s s.
Proof. repeat split. apply sessions_extend_refl. Qed.

Lemma evolves_trans a b c : evolves a b -> evolves b c -> evolves a c.
Proof.
  intros [A1 [A2 A3]] [B1 [B2 B3]]. split; [congruence|]. split; [congruence|].
  exact (sessions_extend_trans _ _ _ A3 B3).
Qed.

Lemma evolves_ext s s' :
  client_heap s' = client_heap s -> clients s' = clients s -> evolves s s'.
Proof.
  intros H1 H2. split; [exact H2|]. split; [rewrite H1; reflexivity|].
  apply sessions_extend_ext. exact H1.
Qed.

Lemma evolves_update this f s :
  (forall c, extends c (f c)) -> evolves s (update_client this f s).
Proof.
  intros Hf. split; [reflexivity|]. split.
  - unfold update_client. cbn [client_heap with_client_heap].
    apply length_alter.
  - apply sessions_extend_update. exact Hf.
Qed.

Lemma evolves_sendData this m compress s :
  is_version (Send m compress) = false ->
  evolves s (sendData this m compress s).
Proof.
  intros H. apply evolves_update. intros c. apply extends_call. exact H.
Qed.

Lemma evolves_quiet this f s :
  (forall c, socket_log (f c) = socket_log c) ->
  evolves s (update_client this f s).
Proof.
  intros H. apply evolves_update. intros c. apply extends_quiet. apply H.
Qed.

Lemma evolves_catch this messageId e s :
  evolves s (receiveMessage_catch this messageId e s).
Proof.
  destruct e; cbn [receiveMessage_catch]; apply evolves_sendData; reflexivity.
Qed.

Lemma run_microtasks_clients s : clients (run_microtasks s) = clients s.
Proof.
  unfold run_microtasks.
  change (clients s) with (clients (with_microtasks [] s)).
  generalize (with_microtasks [] s). generalize (microtasks s).
  induction l as [|m ms IH]; intros st; cbn [foldl]; [reflexivity|].
  rewrite IH. destruct m as [ch env]. cbn.
  destruct (closures st !! env); [|reflexivity].
  destruct (same_promise _ _); [|reflexivity]. destruct ch; reflexivity.
Qed.

Lemma evolves_task job s : evolves s (job s) -> evolves s (task job s).
Proof.
  intros H. apply (evolves_trans _ _ _ H). apply evolves_ext.
  - apply run_microtasks_client_heap.
  - apply run_microtasks_clients.
Qed.

Lemma evolves_try driver this msg s :
  evolves s (receiveMessage_try driver this msg s).1.
Proof.
  unfold receiveMessage_try.
  repeat match goal with
         | |- context [if ?b then _ else _] => destruct b
         end;
    cbn [fst]; try apply evolves_refl.
  - apply evolves_quiet. reflexivity.
  - eapply evolves_trans; [|apply evolves_sendData; reflexivity].
    apply evolves_quiet. reflexivity.
  - eapply evolves_trans; [|apply evolves_quiet; reflexivity].
    apply evolves_sendData. reflexivity.
  - destruct (updateLogConfig driver (msg_config msg)); cbn [fst].
    + apply evolves_ext; reflexivity.
    + eapply evolves_trans; [|apply evolves_sendData; reflexivity].
      apply evolves_ext; reflexivity.
  - apply evolves_sendData. reflexivity.
  - pose proof (handle_client_heap (driver_controller driver) msg this s)
      as Hh.
    pose proof (handle_clients (driver_controller driver) msg this s) as Hc.
    destruct (ControllerMessageHandler.handle (driver_controller driver)
                msg this s) as [s1 [r|e|call f]];
      cbn [fst] in *.
    + eapply evolves_trans; [apply evolves_ext; eassumption|].
      apply evolves_sendData. reflexivity.
    + apply evolves_ext; assumption.
    + apply evolves_ext; assumption.
  - destruct (Object_prototype _ _) as [[e'|v]|]; cbn [fst];
      try apply evolves_refl.
    apply evolves_sendData. reflexivity.
Qed.

Lemma evolves_receiveMessage driver this data s :
  evolves s (receiveMessage driver this data s).1.
Proof.
  destruct (JSON_parse data) as [| |msg] eqn:E.
  - rewrite (receiveMessage_SyntaxError _ _ _ _ E). cbn [fst].
    apply evolves_update. apply extends_close.
  - rewrite (receiveMessage_null _ _ _ _ E). apply evolves_refl.
  - rewrite (receiveMessage_message _ _ _ _ _ E).
    pose proof (evolves_try driver this msg s) as Ht.
    destruct (receiveMessage_try driver this msg s) as [s1 [|k|e]];
      cbn [fst] in *; try exact Ht.
    apply (evolves_trans _ _ _ Ht). apply evolves_catch.
Qed.

Lemma evolves_resume this k o s : evolves s (receiveMessage_resume this k o s).
Proof.
  destruct o; cbn [receiveMessage_resume].
  - apply evolves_sendData. reflexivity.
  - apply evolves_catch.
Qed.

Lemma evolves_user_callback ch event env s :
  evolves s (user_callback ch event env s).
Proof.
  unfold user_callback.
  destruct (closures s !! env) as [c|]; [|apply evolves_refl].
  cbn [createDeferredPromise].
  eapply evolves_trans; [|apply evolves_sendData; reflexivity].
  apply evolves_ext; destruct ch; reflexivity.
Qed.

Lemma evolves_abort env s : evolves s (abort_callback env s).
Proof.
  unfold abort_callback.
  destruct (closures s !! env) as [c|]; [|apply evolves_refl].
  eapply evolves_trans; [|apply evolves_sendData; reflexivity].
  apply evolves_ext.
  - rewrite !reject_if_defined_client_heap. reflexivity.
  - destruct (local_validateDSKAndEnterPinPromise c),
      (local_grantSecurityClassesPromise c); cbn [reject_if_defined];
      rewrite ?settle_clients; reflexivity.
Qed.

Lemma evolves_checkAlive this s : evolves s (checkAlive this s).
Proof.
  unfold checkAlive. destruct (client_heap s !! this) as [c|];
    [|apply evolves_refl].
  destruct (_outstandingPing c).
  - apply evolves_update. apply extends_close.
  - eapply evolves_trans; [apply evolves_quiet|apply evolves_update].
    + reflexivity.
    + intros c'. apply extends_call. reflexivity.
Qed.

Lemma evolves_sendEvent_all event l s :
  evolves s (foldl (fun st client => sendEvent client event st) s l).
Proof.
  revert s. induction l as [|x l IH]; intros s; cbn [foldl];
    [apply evolves_refl|].
  eapply evolves_trans; [|apply IH]. apply evolves_sendData. reflexivity.
Qed.

Lemma addSocket_sessions driver s :
  client_heap (addSocket driver s)
  = client_heap s
    ++ [socket_call
          (Send (VersionMessage libVersion version (homeId driver)
                   minSchemaVersion maxSchemaVersion) false)
          new_Client]
  /\ clients (addSocket driver s) = clients s ++ [length (client_heap s)].
Proof.
  unfold addSocket, sendVersion, sendData, update_client.
  cbn [client_heap clients with_client_heap with_clients].
  rewrite alter_app_r_alt by lia.
  replace (length (client_heap s) - length (client_heap s)) with 0 by lia.
  split; reflexivity.
Qed.

Lemma pingInterval_sessions s :
  length (client_heap (pingInterval_callback s)) = length (client_heap s)
  /\ sessions_extend s (pingInterval_callback s)
  /\ clients (pingInterval_callback s)
     = filter (fun x => connected x s = true) (clients s).
Proof.
  unfold pingInterval_callback.
  assert (forall l st acc,
            let r :=
              foldl
                (fun '(st, acc) client =>
                   if connected client st then (st, acc ++ [client])
                   else (disconnect client st, acc))
                (st, acc) l in
            length (client_heap r.1) = length (client_heap st)
            /\ sessions_extend st r.1) as Hloop.
  { induction l as [|x l IH]; intros st acc; cbn [foldl]; cbv zeta.
    - split; [reflexivity|apply sessions_extend_refl].
    - destruct (connected x st); [apply IH|].
      destruct (IH (disconnect x st) acc) as [H1 H2].
      destruct (evolves_update x socket_close st extends_close) as [_ [E1 E2]].
      split; [rewrite H1; exact E1|].
      exact (sessions_extend_trans _ _ _ E2 H2). }
  destruct (Hloop (clients s) s []) as [H1 H2].
  destruct (pingInterval_loop (clients s) s []) as [H3 _].
  destruct (foldl _ (s, []) (clients s)) as [s1 newClients].
  cbn [fst snd] in *. split; [exact H1|]. split; [exact H2|exact H3].
Qed.

Lemma step_sessions s s' :
  step s s' ->
  evolves s s'
  \/ (exists driver,
        client_heap s'
        = client_heap s
          ++ [socket_call
                (Send (VersionMessage libVersion version (homeId driver)
                         minSchemaVersion maxSchemaVersion) false)
                new_Client]
        /\ clients s' = clients s ++ [length (client_heap s)])
  \/ (length (client_heap s') = length (client_heap s)
      /\ sessions_extend s s'
      /\ clients s' = filter (fun x => connected x s = true) (clients s)).
Proof.
  intros Hstep.
  destruct Hstep;
    try (left; apply evolves_task;
         first [ apply evolves_receiveMessage
               | apply evolves_resume
               | apply evolves_user_callback
               | apply evolves_abort
               | apply evolves_checkAlive
               | apply evolves_sendEvent_all
               | apply evolves_quiet; reflexivity ]).
  - right. left. exists driver. unfold task.
    rewrite run_microtasks_client_heap, run_microtasks_clients.
    apply addSocket_sessions.
  - right. right. unfold task.
    destruct (pingInterval_sessions s) as [A [B C]].
    rewrite run_microtasks_client_heap, run_microtasks_clients.
    split; [exact A|]. split; [|exact C].
    apply (sessions_extend_trans _ _ _ B).
    apply sessions_extend_ext. apply run_microtasks_client_heap.
Qed.

Lemma greeted_extends c c' :
  greeted c = true -> extends c c' -> greeted c' = true.
Proof.
  intros H [l [Hl Hn]]. unfold greeted in *. rewrite Hl.
  destruct (socket_log c) as [|[[lv v h mn mx| | | |] [|]| |] rest];
    try discriminate.
  cbn [app]. apply andb_true_iff in H. destruct H as [H Hr].
  rewrite H. cbn [andb]. unfold no_version in *.
  rewrite forallb_app, Hr, Hn. reflexivity.
Qed.




Lemma sendEvent_all_lookup event l s x c :
  NoDup l ->
  client_heap s !! x = Some c ->
  client_heap (foldl (fun st client => sendEvent client event st) s l) !! x
  = Some (if bool_decide (x ∈ l)
          then socket_call (Send (EventMessage event) false) c
          else c).
Proof.
  revert s c. induction l as [|y l IH]; intros s c Hnd Hx; cbn [foldl].
  - exact Hx.
  - apply NoDup_cons in Hnd. destruct Hnd as [Hy Hnd].
    destruct (decide (y = x)) as [->|Hne].
    + rewrite (IH _ (socket_call (Send (EventMessage event) false) c) Hnd).
      * rewrite (bool_decide_eq_false_2 (x ∈ l)) by exact Hy.
        rewrite (bool_decide_eq_true_2 (x ∈ x :: l)) by left. reflexivity.
      * unfold sendEvent, sendData. apply update_client_lookup. exact Hx.
    + rewrite (IH _ c Hnd).
      * f_equal. destruct (decide (x ∈ l)) as [Hin|Hout].
        -- rewrite (bool_decide_eq_true_2 (x ∈ l)) by exact Hin.
           rewrite (bool_decide_eq_true_2 (x ∈ y :: l)) by (right; exact Hin).
           reflexivity.
        -- rewrite (bool_decide_eq_false_2 (x ∈ l)) by exact Hout.
           rewrite (bool_decide_eq_false_2 (x ∈ y :: l)); [reflexivity|].
           intros Hin. apply elem_of_cons in Hin. destruct Hin; congruence.
      * unfold sendEvent, sendData.
        rewrite update_client_lookup_ne by exact Hne. exact Hx.
Qed.

(** X22: a log record of the driver reaches exactly the listening
    sessions.  When no session is registered twice, [log] makes one call on
    the socket of every registered session that has [receiveLogs] set and an
    open socket: it sends the logging event, uncompressed.  Every other
    session is left as it was, and so are the registry and the
    coordinator. *)
Theorem log_reaches_exactly_the_listening_sessions info s x c :
  NoDup (clients s) ->
  client_heap s !! x = Some c ->
  client_heap (log info s) !! x
  = Some (if bool_decide (x ∈ clients s) && receiveLogs c && isConnected c
          then socket_call (Send (EventMessage (LoggingEvent info)) false) c
          else c)
  /\ clients (log info s) = clients s
  /\ coordinator (log info s) = coordinator s.
Proof.
  intros Hnd Hx. unfold log. split; [|split].
  - rewrite (sendEvent_all_lookup _ _ s x c) by
      (try apply NoDup_filter; assumption).
    f_equal.
    destruct (decide (x ∈ clients s)) as [Hin|Hout].
    + rewrite (bool_decide_eq_true_2 (x ∈ clients s)) by exact Hin.
      cbn [andb].
      destruct (receiveLogs c && isConnected c) eqn:E.
      * rewrite bool_decide_eq_true_2; [reflexivity|].
        apply list_elem_of_filter. split; [|exact Hin].
        unfold connected. rewrite (this_lookup _ _ _ Hx), Hx. exact E.
      * rewrite bool_decide_eq_false_2; [reflexivity|].
        intros H. apply list_elem_of_filter in H. destruct H as [H _].
        unfold connected in H. rewrite (this_lookup _ _ _ Hx), Hx in H.
        congruence.
    + rewrite (bool_decide_eq_false_2 (x ∈ clients s)) by exact Hout.
      cbn [andb].
      rewrite bool_decide_eq_false_2; [reflexivity|].
      intros H. apply list_elem_of_filter in H. destruct H as [_ H].
      exact (Hout H).
  - apply (evolves_sendEvent_all (LoggingEvent info) _ s).
  - apply coordinator_sendEvent_all.
Qed.

(** ** The keys of the configuration file *)

Ltac nibble d :=
  let H := fresh "H" in
  assert (d = 0 \/ d = 1 \/ d = 2 \/ d = 3 \/ d = 4 \/ d = 5 \/ d = 6 \/ d = 7
          \/ d = 8 \/ d = 9 \/ d = 10 \/ d = 11 \/ d = 12 \/ d = 13 \/ d = 14
          \/ d = 15)%N as H by lia;
  repeat (destruct H as [->|H]); [..|subst d].

Lemma unhex_hex_digit upper d :
  (d < 16)%N -> Bin.unhex (hex_digit upper d) = Some d.
Proof. intros Hd. nibble d; destruct upper; reflexivity. Qed.

Lemma toLowerCase_hex_digit upper d :
  (d < 16)%N -> Bin.toLowerCase_char (hex_digit upper d) = hex_digit false d.
Proof. intros Hd. nibble d; destruct upper; reflexivity. Qed.

Lemma hex_digit_plain d c :
  (d < 16)%N -> c = "x"%char \/ c = ","%char ->
  Ascii.eqb (hex_digit false d) c = false.
Proof. intros Hd [->| ->]; nibble d; reflexivity. Qed.

Lemma nibbles b :
  (b < 256)%N ->
  (b / 16 < 16)%N /\ (b mod 16 < 16)%N /\ (16 * (b / 16) + b mod 16 = b)%N.
Proof.
  intros Hb. split; [apply N.Div0.div_lt_upper_bound; lia|].
  split; [apply N.mod_lt; lia|].
  symmetry. apply N.div_mod. lia.
Qed.

Lemma Buffer_from_hex_byte upper b rest :
  (b < 256)%N ->
  Bin.Buffer_from_hex (hex_byte upper b rest) = b :: Bin.Buffer_from_hex rest.
Proof.
  intros Hb. destruct (nibbles b Hb) as [H1 [H2 H3]].
  unfold hex_byte. cbn [Bin.Buffer_from_hex].
  rewrite (unhex_hex_digit upper _ H1), (unhex_hex_digit upper _ H2), H3.
  reflexivity.
Qed.

Lemma Buffer_from_hex_string upper bs :
  Forall (fun b => (b < 256)%N) bs ->
  Bin.Buffer_from_hex (hex_string upper bs) = bs.
Proof.
  induction 1 as [|b bs Hb _ IH]; [reflexivity|].
  cbn [hex_string]. rewrite (Buffer_from_hex_byte upper b _ Hb), IH.
  reflexivity.
Qed.

Lemma hex_string_length upper bs :
  String.length (hex_string upper bs) = 2 * length bs.
Proof. induction bs as [|b bs IH]; [reflexivity|]. cbn. rewrite IH. lia. Qed.

Lemma openzwave_string_length upper bs :
  bs <> [] -> String.length (openzwave_string upper bs) + 2 = 6 * length bs.
Proof.
  induction bs as [|b bs IH]; [congruence|]. intros _.
  destruct bs as [|b' bs]; [reflexivity|].
  cbn [openzwave_string hex_byte String.length length] in *.
  specialize (IH ltac:(discriminate)). lia.
Qed.

Lemma toLowerCase_openzwave_string upper bs :
  Forall (fun b => (b < 256)%N) bs ->
  Bin.toLowerCase (openzwave_string upper bs) = openzwave_string false bs.
Proof.
  induction 1 as [|b bs Hb _ IH]; [reflexivity|].
  destruct (nibbles b Hb) as [H1 [H2 _]].
  cbn [openzwave_string]. unfold hex_byte. cbn [Bin.toLowerCase].
  rewrite (toLowerCase_hex_digit upper _ H1), (toLowerCase_hex_digit upper _ H2).
  change (Bin.toLowerCase_char "0") with "0"%char.
  change (Bin.toLowerCase_char "x") with "x"%char.
  destruct bs as [|b' bs]; [reflexivity|].
  cbn [Bin.toLowerCase].
  change (Bin.toLowerCase_char ",") with ","%char.
  change (Bin.toLowerCase_char " ") with " "%char.
  rewrite IH. reflexivity.
Qed.

Lemma remove_all_skip a b c s :
  Ascii.eqb c a = false ->
  Bin.remove_all a b (String c s) = String c (Bin.remove_all a b s).
Proof.
  intros H. destruct s as [|d s]; cbn [Bin.remove_all].
  - reflexivity.
  - rewrite H. reflexivity.
Qed.

Lemma remove_all_skip_second a b c d s :
  Ascii.eqb d b = false ->
  Bin.remove_all a b (String c (String d s))
  = String c (Bin.remove_all a b (String d s)).
Proof.
  intros H. cbn [Bin.remove_all]. rewrite H, andb_false_r. reflexivity.
Qed.

Lemma remove_all_match a b s :
  Bin.remove_all a b (String a (String b s)) = Bin.remove_all a b s.
Proof. cbn [Bin.remove_all]. rewrite !Ascii.eqb_refl. reflexivity. Qed.

Lemma remove_all_single a b c :
  Bin.remove_all a b (String c EmptyString) = String c EmptyString.
Proof. reflexivity. Qed.

Lemma remove_all_openzwave_string bs :
  Forall (fun b => (b < 256)%N) bs ->
  Bin.remove_all "," " " (Bin.remove_all "0" "x" (openzwave_string false bs))
  = hex_string false bs.
Proof.
  induction 1 as [|b bs Hb _ IH]; [reflexivity|].
  destruct (nibbles b Hb) as [H1 [H2 _]].
  cbn [openzwave_string hex_string]. unfold hex_byte.
  rewrite remove_all_match.
  rewrite remove_all_skip_second
    by (apply hex_digit_plain; [exact H2|left; reflexivity]).
  destruct bs as [|b' bs].
  - rewrite remove_all_single.
    rewrite remove_all_skip
      by (apply hex_digit_plain; [exact H1|right; reflexivity]).
    rewrite remove_all_single. reflexivity.
  - rewrite (remove_all_skip_second "0" "x" _ ",") by reflexivity.
    rewrite (remove_all_skip "0" "x" ",") by reflexivity.
    rewrite (remove_all_skip "0" "x" " ") by reflexivity.
    rewrite (remove_all_skip "," " ")
      by (apply hex_digit_plain; [exact H1|right; reflexivity]).
    rewrite (remove_all_skip "," " ")
      by (apply hex_digit_plain; [exact H2|right; reflexivity]).
    rewrite remove_all_match, IH. reflexivity.
Qed.

(** X23: both spellings of a key give its bytes.  For every non-empty
    sequence of bytes, [normalizeKey] turns its OpenZWave spelling
    [0x01, 0x02, ...] into exactly these bytes, with small or capital
    digits; for 16 bytes it turns the spelling in 32 hexadecimal digits
    into the same bytes.  Neither spelling is refused. *)
Theorem both_spellings_give_the_bytes_of_the_key upper bs keyName :
  Forall (fun b => (b < 256)%N) bs ->
  bs <> [] ->
  Bin.normalizeKey (Bin.KeyString (openzwave_string upper bs)) keyName = inr bs
  /\ (length bs = 16 ->
      Bin.normalizeKey (Bin.KeyString (hex_string upper bs)) keyName = inr bs).
Proof.
  intros Hbs Hne. split.
  - unfold Bin.normalizeKey.
    pose proof (openzwave_string_length upper bs Hne) as Hlen.
    destruct (Nat.eqb_spec (String.length (openzwave_string upper bs)) 32)
      as [E|_]; [lia|].
    cbv zeta. rewrite (toLowerCase_openzwave_string upper bs Hbs).
    assert (Bin.includes "0x" (openzwave_string false bs) = true) as ->.
    { destruct bs as [|b bs]; [congruence|]. reflexivity. }
    rewrite (remove_all_openzwave_string bs Hbs).
    rewrite (Buffer_from_hex_string false bs Hbs). reflexivity.
  - intros Hlen. unfold Bin.normalizeKey.
    rewrite hex_string_length, Hlen. cbn [Nat.mul Nat.add Nat.eqb].
    rewrite (Buffer_from_hex_string upper bs Hbs). reflexivity.
Qed.

Lemma unhex_bound c x : Bin.unhex c = Some x -> (x < 16)%N.
Proof.
  unfold Bin.unhex. cbv zeta.
  repeat match goal with
         | |- context [(?a <=? ?b)%N] => destruct (N.leb_spec a b)
         end; cbn [andb]; intros Hx; try discriminate;
    injection Hx as <-; lia.
Qed.

Lemma Buffer_from_hex_bytes s :
  Forall (fun b => (b < 256)%N) (Bin.Buffer_from_hex s).
Proof.
  assert (forall n s0, String.length s0 <= n ->
                       Forall (fun b => (b < 256)%N) (Bin.Buffer_from_hex s0))
    as Hn.
  { induction n as [|n IH]; intros s0 Hs.
    - destruct s0; [constructor|cbn in Hs; lia].
    - destruct s0 as [|a [|b rest]]; try constructor.
      cbn [Bin.Buffer_from_hex].
      destruct (Bin.unhex a) as [x|] eqn:Ea; [|constructor].
      destruct (Bin.unhex b) as [y|] eqn:Eb; [|constructor].
      apply unhex_bound in Ea, Eb. constructor; [lia|].
      apply IH. cbn in Hs. lia. }
  exact (Hn _ s (le_n _)).
Qed.

Lemma Buffer_from_hex_length n s :
  String.length s = 2 * n ->
  length (Bin.Buffer_from_hex s) <= n
  /\ (length (Bin.Buffer_from_hex s) = n
      <-> Forall (fun c => Bin.unhex c <> None) (list_ascii_of_string s)).
Proof.
  revert s. induction n as [|n IH]; intros s Hs.
  - destruct s; [|discriminate]. cbn. split; [lia|]. split; [constructor|reflexivity].
  - destruct s as [|a [|b rest]]; cbn in Hs; try lia.
    destruct (IH rest ltac:(lia)) as [H1 H2].
    cbn [Bin.Buffer_from_hex list_ascii_of_string].
    destruct (Bin.unhex a) as [x|] eqn:Ea.
    + destruct (Bin.unhex b) as [y|] eqn:Eb.
      * cbn [length]. split; [lia|]. split.
        -- intros H. constructor; [congruence|]. constructor; [congruence|].
           apply H2. lia.
        -- intros H. inversion H as [|? ? _ H']. inversion H' as [|? ? _ H''].
           f_equal. apply H2. exact H''.
      * cbn [length]. split; [lia|]. split; [lia|].
        intros H. inversion H as [|? ? _ H']. inversion H' as [|? ? Hb _].
        congruence.
    + cbn [length]. split; [lia|]. split; [lia|].
      intros H. inversion H as [|? ? Ha _]. congruence.
Qed.


Lemma normalize_named_failed e names :
  foldl Bin.normalize_named (inl e) names = inl e.
Proof. induction names as [|n names IH]; [reflexivity|exact IH]. Qed.

Lemma normalize_named_step keys name keys' :
  Bin.normalize_named (inr keys) name = inr keys' ->
  (forall m, m <> name -> keys' !! m = keys !! m)
  /\ (forall v, keys' !! name = Some v -> exists b, v = Bin.KeyBuffer b)
  /\ (forall m b, keys !! m = Some (Bin.KeyBuffer b) ->
      keys' !! m = Some (Bin.KeyBuffer b))
  /\ (forall m, keys !! m = None -> keys' !! m = None).
Proof.
  unfold Bin.normalize_named.
  destruct (keys !! name) as [value|] eqn:E.
  - destruct (Bin.normalizeKey value _) as [e|b] eqn:N; [discriminate|].
    intros H. injection H as <-. split; [|split; [|split]].
    + intros m Hm. apply lookup_insert_ne. congruence.
    + intros v Hv. rewrite lookup_insert_eq in Hv. injection Hv as <-.
      exists b. reflexivity.
    + intros m b0 Hm. destruct (decide (name = m)) as [->|Hne].
      * rewrite E in Hm. injection Hm as ->. cbn in N. injection N as ->.
        apply lookup_insert_eq.
      * rewrite lookup_insert_ne by exact Hne. exact Hm.
    + intros m Hm. rewrite lookup_insert_ne; [exact Hm|]. congruence.
  - intros H. injection H as <-. split; [reflexivity|]. split; [|split].
    + intros v Hv. congruence.
    + intros m b Hm. exact Hm.
    + intros m Hm. exact Hm.
Qed.

Lemma normalize_named_all names keys keys' :
  foldl Bin.normalize_named (inr keys) names = inr keys' ->
  (forall m, m ∉ names -> keys' !! m = keys !! m)
  /\ (forall m v, m ∈ names -> keys' !! m = Some v ->
      exists b, v = Bin.KeyBuffer b)
  /\ (forall m b, keys !! m = Some (Bin.KeyBuffer b) ->
      keys' !! m = Some (Bin.KeyBuffer b))
  /\ (forall m, keys !! m = None -> keys' !! m = None).
Proof.
  revert keys. induction names as [|n names IH]; intros keys; cbn [foldl].
  - intros H. injection H as <-. split; [reflexivity|]. split; [|split].
    + intros m v Hm. inversion Hm.
    + intros m b Hm. exact Hm.
    + intros m Hm. exact Hm.
  - destruct (Bin.normalize_named (inr keys) n) as [e|keys1] eqn:E.
    { rewrite normalize_named_failed. discriminate. }
    intros H. destruct (IH keys1 H) as [A1 [A2 [A3 A4]]].
    destruct (normalize_named_step keys n keys1 E) as [B1 [B2 [B3 B4]]].
    split; [|split; [|split]].
    + intros m Hm. apply not_elem_of_cons in Hm. destruct Hm as [Hne Hm].
      rewrite (A1 m Hm). apply B1. exact Hne.
    + intros m v Hm Hv. destruct (decide (m ∈ names)) as [Hin|Hout].
      * exact (A2 m v Hin Hv).
      * apply elem_of_cons in Hm. destruct Hm as [->|Hm]; [|contradiction].
        rewrite (A1 n Hout) in Hv. exact (B2 v Hv).
    + intros m b Hm. apply A3, B3. exact Hm.
    + intros m Hm. apply A4, B4. exact Hm.
Qed.

Lemma normalize_named_buffers names keys :
  (forall m v, m ∈ names -> keys !! m = Some v -> exists b, v = Bin.KeyBuffer b) ->
  foldl Bin.normalize_named (inr keys) names = inr keys.
Proof.
  induction names as [|n names IH]; intros H; cbn [foldl]; [reflexivity|].
  assert (Bin.normalize_named (inr keys) n = inr keys) as ->.
  { unfold Bin.normalize_named. destruct (keys !! n) as [v|] eqn:E; [|reflexivity].
    destruct (H n v ltac:(left) E) as [b ->]. cbn.
    rewrite insert_id by exact E. reflexivity. }
  apply IH. intros m v Hm. apply H. right. exact Hm.
Qed.

Lemma truthy_false_not_buffer k b :
  Bin.truthy k = false -> k <> Some (Bin.KeyBuffer b).
Proof. intros H ->. discriminate. Qed.

(** X25: what a loaded configuration gives the driver.  When the block
    that reads the configuration throws nothing, the options have a
    [securityKeys] object in which [S0_Legacy] is defined and each of the
    four named keys that is present is a [Buffer]; the keys of other names
    are as in the file, no truthy [networkKey] is left, and a truthy
    [networkKey] of the file has become [S0_Legacy].  Loading the result
    once more changes nothing. *)
Theorem loaded_config_holds_buffers options options' :
  Bin.load_config options = inr options' ->
  exists keys b,
    Bin.securityKeys options' = Some keys
    /\ keys !! "S0_Legacy" = Some (Bin.KeyBuffer b)
    /\ (forall name v, name ∈ Bin.securityKeyNames -> keys !! name = Some v ->
        exists b', v = Bin.KeyBuffer b')
    /\ (forall name, name ∉ Bin.securityKeyNames ->
        keys !! name = default ∅ (Bin.securityKeys options) !! name)
    /\ Bin.truthy (Bin.networkKey options') = false
    /\ (Bin.truthy (Bin.networkKey options) = true ->
        Bin.networkKey options' = None
        /\ exists value, Bin.networkKey options = Some value
                         /\ Bin.normalizeKey value "networkKey" = inr b)
    /\ Bin.load_config options' = inr options'.
Proof.
  unfold Bin.load_config at 1.
  destruct (_ && _) eqn:Both; [discriminate|]. cbv zeta.
  assert (forall keys b nk,
            keys !! "S0_Legacy" = Some (Bin.KeyBuffer b) ->
            (forall name v, name ∈ Bin.securityKeyNames ->
                            keys !! name = Some v ->
                            exists b', v = Bin.KeyBuffer b') ->
            Bin.truthy nk = false ->
            Bin.load_config (Bin.mkOptions (Some keys) nk)
            = inr (Bin.mkOptions (Some keys) nk)) as Hagain.
  { intros keys b nk HS0 Hnamed Hnk. unfold Bin.load_config.
    cbn [Bin.securityKeys Bin.networkKey mbind option_bind].
    rewrite Hnk, andb_false_r. cbv zeta.
    rewrite (normalize_named_buffers _ keys Hnamed).
    destruct nk as [value|].
    - rewrite Hnk. unfold Bin.require_S0_Legacy. cbn [Bin.securityKeys].
      rewrite HS0. reflexivity.
    - unfold Bin.require_S0_Legacy. cbn [Bin.securityKeys].
      rewrite HS0. reflexivity. }
  assert (forall sk keys1,
            Bin.require_S0_Legacy (Bin.mkOptions sk (Bin.networkKey options))
            = inr options' ->
            sk = Some keys1 ->
            (forall m v, m ∈ Bin.securityKeyNames -> keys1 !! m = Some v ->
                         exists b, v = Bin.KeyBuffer b) ->
            exists b, options' = Bin.mkOptions (Some keys1) (Bin.networkKey options)
                      /\ keys1 !! "S0_Legacy" = Some (Bin.KeyBuffer b)) as Hreq.
  { intros sk keys1 H -> Hnamed. unfold Bin.require_S0_Legacy in H.
    cbn [Bin.securityKeys] in H.
    destruct (keys1 !! "S0_Legacy") as [v|] eqn:E; [|discriminate].
    destruct (Hnamed "S0_Legacy" v ltac:(left) E) as [b ->].
    cbn in H. injection H as <-. exists b. split; reflexivity. }
  destruct (Bin.securityKeys options) as [keys0|] eqn:SK.
  - destruct (foldl Bin.normalize_named (inr keys0) Bin.securityKeyNames)
      as [e|keys1] eqn:F; [discriminate|].
    destruct (normalize_named_all _ _ _ F) as [A1 [A2 [A3 A4]]].
    destruct (Bin.networkKey options) as [value|] eqn:NK.
    + destruct (Bin.truthy (Some value)) eqn:T.
      * destruct (Bin.normalizeKey value "networkKey") as [e|b] eqn:N;
          [discriminate|].
        intros H. injection H as <-.
        exists (<["S0_Legacy" := Bin.KeyBuffer b]> keys1), b.
        cbn [Bin.securityKeys Bin.networkKey default].
        assert (forall name v,
                  name ∈ Bin.securityKeyNames ->
                  <["S0_Legacy" := Bin.KeyBuffer b]> keys1 !! name = Some v ->
                  exists b', v = Bin.KeyBuffer b') as Hnamed.
        { intros name v Hn Hv.
          destruct (decide ("S0_Legacy" = name)) as [<-|Hne].
          - rewrite lookup_insert_eq in Hv. injection Hv as <-.
            exists b. reflexivity.
          - rewrite lookup_insert_ne in Hv by exact Hne.
            exact (A2 name v Hn Hv). }
        split; [reflexivity|]. split; [apply lookup_insert_eq|].
        split; [exact Hnamed|]. split; [|split; [reflexivity|split]].
        -- intros name Hn. rewrite lookup_insert_ne.
           ++ apply A1. exact Hn.
           ++ intros <-. apply Hn. left.
        -- intros _. split; [reflexivity|]. exists value. split; [reflexivity|exact N].
        -- apply (Hagain _ b); [apply lookup_insert_eq|exact Hnamed|reflexivity].
      * intros H. destruct (Hreq _ keys1 H eq_refl A2) as [b [-> HS0]].
        exists keys1, b. cbn [Bin.securityKeys Bin.networkKey default].
        split; [reflexivity|]. split; [exact HS0|]. split; [exact A2|].
        split; [exact A1|]. split; [exact T|]. split; [congruence|].
        apply (Hagain _ b); [exact HS0|exact A2|exact T].
    + intros H. destruct (Hreq _ keys1 H eq_refl A2) as [b [-> HS0]].
      exists keys1, b. cbn [Bin.securityKeys Bin.networkKey default].
      split; [reflexivity|]. split; [exact HS0|]. split; [exact A2|].
      split; [exact A1|]. split; [reflexivity|]. split; [discriminate|].
      apply (Hagain _ b); [exact HS0|exact A2|reflexivity].
  - destruct (Bin.networkKey options) as [value|] eqn:NK.
    + destruct (Bin.truthy (Some value)) eqn:T; [|discriminate].
      destruct (Bin.normalizeKey value "networkKey") as [e|b] eqn:N;
        [discriminate|].
      intros H. injection H as <-.
      exists (<["S0_Legacy" := Bin.KeyBuffer b]> ∅), b.
      cbn [Bin.securityKeys Bin.networkKey default].
      assert (forall name v,
                name ∈ Bin.securityKeyNames ->
                <["S0_Legacy" := Bin.KeyBuffer b]> (∅ : gmap string Bin.Key)
                  !! name = Some v ->
                exists b', v = Bin.KeyBuffer b') as Hnamed.
      { intros name v _ Hv.
        destruct (decide ("S0_Legacy" = name)) as [<-|Hne].
        - rewrite lookup_insert_eq in Hv. injection Hv as <-.
          exists b. reflexivity.
        - rewrite lookup_insert_ne, lookup_empty in Hv by exact Hne.
          discriminate. }
      split; [reflexivity|]. split; [apply lookup_insert_eq|].
      split; [exact Hnamed|]. split; [|split; [reflexivity|split]].
      * intros name Hn. rewrite lookup_insert_ne; [reflexivity|].
        intros <-. apply Hn. left.
      * intros _. split; [reflexivity|]. exists value. split; [reflexivity|exact N].
      * apply (Hagain _ b); [apply lookup_insert_eq|exact Hnamed|reflexivity].
    + discriminate.
Qed.

(** X26: the S0 key has exactly one source.  A configuration in which
    both [securityKeys.S0_Legacy] and [networkKey] are truthy is refused
    with the error that asks to remove [networkKey], and a configuration in
    which neither is truthy is refused as well; when it has no
    [securityKeys] object at all, what is thrown is the [TypeError] of the
    property read, not the error about the missing key. *)
Theorem the_S0_key_needs_exactly_one_source options :
  let S0 := Bin.securityKeys options ≫= (fun keys => keys !! "S0_Legacy") in
  (Bin.truthy S0 = true -> Bin.truthy (Bin.networkKey options) = true ->
   Bin.load_config options
   = inl (ThrowOther
            "Both `networkKey` and `securityKeys.S0_Legacy` options are present in the config. Remove `networkKey`."))
  /\ (Bin.truthy S0 = false -> Bin.truthy (Bin.networkKey options) = false ->
      exists e, Bin.load_config options = inl e
                /\ (Bin.securityKeys options = None -> e = TypeError)).
Proof.
  cbv zeta. split.
  - intros H1 H2. unfold Bin.load_config. rewrite H1, H2. reflexivity.
  - intros H1 H2. unfold Bin.load_config. rewrite H1. cbn [andb]. cbv zeta.
    assert (forall sk,
              match Bin.networkKey options with
              | Some value =>
                  if Bin.truthy (Some value)
                  then
                    match Bin.normalizeKey value "networkKey" with
                    | inl e => inl e
                    | inr b =>
                        inr (Bin.mkOptions
                               (Some (<["S0_Legacy" := Bin.KeyBuffer b]>
                                        (default ∅ sk)))
                               None)
                    end
                  else Bin.require_S0_Legacy
                         (Bin.mkOptions sk (Bin.networkKey options))
              | None => Bin.require_S0_Legacy
                          (Bin.mkOptions sk (Bin.networkKey options))
              end
              = Bin.require_S0_Legacy (Bin.mkOptions sk (Bin.networkKey options)))
      as Hnk.
    { intros sk. destruct (Bin.networkKey options) as [value|]; [|reflexivity].
      rewrite H2. reflexivity. }
    destruct (Bin.securityKeys options) as [keys0|] eqn:SK.
    + cbn [mbind option_bind] in H1.
      destruct (foldl Bin.normalize_named (inr keys0) Bin.securityKeyNames)
        as [e|keys1] eqn:F.
      * exists e. split; [reflexivity|discriminate].
      * rewrite Hnk. unfold Bin.require_S0_Legacy. cbn [Bin.securityKeys].
        assert (Bin.truthy (keys1 !! "S0_Legacy") = false) as ->.
        { destruct (keys0 !! "S0_Legacy") as [[b|str]|] eqn:E.
          - discriminate.
          - cbn in H1. apply negb_false_iff, String.eqb_eq in H1. subst str.
            unfold Bin.securityKeyNames in F. cbn [foldl] in F.
            unfold Bin.normalize_named at 4 in F. rewrite E in F.
            cbn in F. discriminate.
          - destruct (normalize_named_all _ _ _ F) as [_ [_ [_ A4]]].
            rewrite (A4 _ E). reflexivity. }
        eexists. split; [reflexivity|discriminate].
    + rewrite Hnk. exists TypeError. split; reflexivity.
Qed.


End Properties.

(** * The claims on the concrete server *)

Lemma example_connected_reachable : example_reachable example_connected.
Proof.
  eapply reachable_step; [apply reachable_initial|].
  apply (step_addSocket unit 0 9 "1.0" "8.0" (fun _ => 1%Z) example_dump
           example_dump (fun _ _ => None) example_parse example_controller example_value tt).
Qed.

Lemma example_started_reachable : example_reachable example_started.
Proof.
  eapply reachable_step; [apply example_connected_reachable|].
  apply (step_receiveMessage unit 0 9 "1.0" "8.0" (fun _ => 1%Z) example_dump
           example_dump (fun _ _ => None) example_parse example_controller example_value tt 0 "begin").
Qed.

Lemma example_asked_reachable : example_reachable example_asked.
Proof.
  eapply reachable_step; [apply example_started_reachable|].
  apply step_grantSecurityClasses.
Qed.

Example example_asked_state :
  grantSecurityClassesPromise example_asked = Some 0
  /\ state_of 0 example_asked = Some Pending
  /\ closures example_asked = [mkClosure 0 (Some 0) None]
  /\ socket_log_of 0 example_asked
     = [Send (VersionMessage "8.0" "1.0" 1 0 9) false;
        Send (EventMessage
                (GrantSecurityClassesEvent (JArray [JNumber 0; JNumber 1])))
          false].
Proof. vm_compute. repeat split. Qed.

(** C10 on a legacy [begin_inclusion] without the flag. *)
Lemma legacy_inclusion_strategy_witness :
  processInclusionOptions 0
    (example_message ControllerCommand.beginInclusion) example_connected
  = (example_connected, mkInclusionOptions Security_S0 None []).
Proof.
  exact (proj1 (legacy_inclusion_strategy (example_controller tt)
                  (example_message ControllerCommand.beginInclusion) 0
                  example_connected eq_refl)).
Defined.

(** C1 at the failing input: a grant exchange is pending, and
    [replace_failed_node] with the Default strategy calls the driver. *)
Lemma replaceFailedNode_ignores_pending_witness :
  exists s1,
    ControllerMessageHandler.handle (example_controller tt)
      (example_inclusion ControllerCommand.replaceFailedNode Default) 0
      example_asked
    = (s1, Await (call_replaceFailedNode (JNumber 5)
                    (mkInclusionOptions Default (Some 1) []))
             (Some "success"))
    /\ driver_calls s1
       = driver_calls example_asked
         ++ [call_replaceFailedNode (JNumber 5)
               (mkInclusionOptions Default (Some 1) [])]
    /\ grantSecurityClassesPromise s1 = Some 0.
Proof.
  apply (replaceFailedNode_ignores_pending (example_controller tt)
           (example_inclusion ControllerCommand.replaceFailedNode Default) 0
           example_asked (mkInclusionOptions Default None []) 0);
    try reflexivity.
  exists (mkDeferred Pending GrantChannel 0). split; reflexivity.
Defined.

(** C8 on an answer that arrives while nothing is pending. *)
Lemma answer_needs_pending_exchange_witness :
  ControllerMessageHandler.handle (example_controller tt) example_grant 0 example_connected
  = (example_connected,
     Throw (ThrowBaseError
              (InclusionPhaseNotInProgressError "grantSecurityClassesPromise"))).
Proof.
  exact (proj1 (proj1 (answer_needs_pending_exchange unit 0 9 example_dump
                         example_dump (fun _ _ => None) example_parse example_controller example_value (example_controller tt)
                         GrantChannel example_grant 0 example_connected
                         eq_refl) eq_refl)).
Defined.

(** A frame that does not parse. *)
Example failures_end_at_the_session_boundary_example :
  exists s',
    receiveMessage unit 0 9 example_dump example_dump (fun _ _ => None)
      example_parse example_controller example_value tt 0 "{" example_connected = (s', Done)
    /\ client_heap s' !! 0
       = Some (socket_close
                 (mkClient false false 0 false true
                    [Send (VersionMessage "8.0" "1.0" 1 0 9) false])).
Proof.
  exact (proj1 (failures_end_at_the_session_boundary unit 0 9 example_dump
                  example_dump (fun _ _ => None) example_parse example_controller example_value tt 0 "{"
                  example_connected _ eq_refl) eq_refl).
Qed.

(** C3 at the failing input: the frame [null] on a connected session. *)
Lemma null_frame_escapes_the_catch_block_witness :
  exists e,
    receiveMessage unit 0 9 example_dump example_dump (fun _ _ => None)
      example_parse example_controller example_value tt 0 "null" example_connected
    = (example_connected, Escaped e)
    /\ socket_log_of 0
         (receiveMessage unit 0 9 example_dump example_dump (fun _ _ => None)
            example_parse example_controller example_value tt 0 "null" example_connected).1
       = [Send (VersionMessage "8.0" "1.0" 1 0 9) false]
    /\ connected 0
         (receiveMessage unit 0 9 example_dump example_dump (fun _ _ => None)
            example_parse example_controller example_value tt 0 "null" example_connected).1
       = true.
Proof.
  exact (null_frame_escapes_the_catch_block unit 0 9 example_dump example_dump
           (fun _ _ => None) example_parse example_controller example_value tt 0 "null" example_connected
           eq_refl).
Defined.

(** C9 on a version above the maximum. *)
Lemma setApiSchema_negotiation_witness :
  exists s' c',
    receiveMessage unit 0 9 example_dump example_dump (fun _ _ => None)
      example_parse example_controller example_value tt 0 "schema 99" example_connected = (s', Done)
    /\ client_heap s' !! 0 = Some c'
    /\ socket_open c' = true
    /\ socket_log c'
       = [Send (VersionMessage "8.0" "1.0" 1 0 9) false;
          Send (ResultError "m2" schemaIncompatible [("schemaId", JNumber 99)])
            false].
Proof.
  destruct (setApiSchema_negotiation unit 0 9 example_dump example_dump
              (fun _ _ => None) example_parse example_controller example_value tt 0 "schema 99"
              (example_schema 99) example_connected
              (mkClient false false 0 false true
                 [Send (VersionMessage "8.0" "1.0" 1 0 9) false])
              eq_refl eq_refl eq_refl)
    as [s' [c' [H1 [H2 [H3 [H4 _]]]]]].
  exists s', c'. split; [exact H1|]. split; [exact H2|]. split; [exact H3|].
  apply H4. right. reflexivity.
Defined.

(** C2 at the failing input: version 99 is refused, then [start_listening]
    dumps the state under version 99. *)
Lemma refused_schema_version_is_kept_witness :
  schemaVersion
    (this_ 0 0 (example_receiveMessage 0 "schema 99" example_connected)) = 99%Z
  /\ socket_log_of 0
       (example_receiveMessage 0 "listen"
          (example_receiveMessage 0 "schema 99" example_connected))
     = [Send (VersionMessage "8.0" "1.0" 1 0 9) false;
        Send (ResultError "m2" schemaIncompatible [("schemaId", JNumber 99)])
          false;
        Send (ResultSuccess "m1"
                (JObject [("state", JObject [("schema", JNumber 99)])])) true].
Proof.
  destruct (refused_schema_version_is_kept unit 0 9 example_dump example_dump
              (fun _ _ => None) example_parse example_controller example_value tt 0
              "schema 99" (example_schema 99)
              "listen" (example_message ServerCommand.startListening)
              example_connected
              (mkClient false false 0 false true
                 [Send (VersionMessage "8.0" "1.0" 1 0 9) false])
              eq_refl eq_refl (or_intror eq_refl) eq_refl eq_refl eq_refl)
    as [H1 [_ H3]].
  split; [exact H1|exact H3].
Defined.

(** C7 on the pending grant exchange: the client answers. *)
Lemma settled_exchange_frees_its_slot_witness :
  let s' := task (fun s0 => (ControllerMessageHandler.handle (example_controller tt) example_grant 0 s0).1)
              example_asked in
  state_of 0 s' = Some (Fulfilled (JObject [("clientSideAuth", JBool false)]))
  /\ slot GrantChannel s' = None.
Proof.
  exact (proj1 (settled_exchange_frees_its_slot (example_controller tt) example_asked
                  (reachable_wf _ _ _ _ _ _ _ _ _ _ _ _ _ example_asked_reachable))
           GrantChannel example_grant 0 0 eq_refl eq_refl).
Defined.

(** C4 as amended, on the pending grant exchange: the controller aborts. *)
Lemma abort_rejects_own_deferreds_and_always_notifies_witness :
  let s' := task (abort_callback 0) example_asked in
  state_of 0 s' = Some (Rejected "aborted")
  /\ slot GrantChannel s' = None
  /\ socket_log_of 0 s'
     = socket_log_of 0 example_asked
       ++ [Send (EventMessage InclusionAbortedEvent) false].
Proof.
  destruct (abort_rejects_own_deferreds_and_always_notifies example_asked 0
              (mkClosure 0 (Some 0) None)
              (mkClient false false 0 false true
                 [Send (VersionMessage "8.0" "1.0" 1 0 9) false;
                  Send (EventMessage
                          (GrantSecurityClassesEvent
                             (JArray [JNumber 0; JNumber 1]))) false])
              (reachable_wf _ _ _ _ _ _ _ _ _ _ _ _ _ example_asked_reachable)
              eq_refl eq_refl)
    as [H1 [_ [H3 _]]].
  destruct (H3 GrantChannel 0 eq_refl) as [H4 H5].
  { exists (mkDeferred Pending GrantChannel 0). split; reflexivity. }
  cbv zeta. split; [exact H4|]. split; [exact (H5 eq_refl)|].
  unfold socket_log_of. cbn [closure_client] in H1. rewrite H1. reflexivity.
Defined.

(** C4 as stated fails: both channels are idle, and the abort still pushes
    its event, so it is not a no-op. *)
Lemma abort_while_idle_still_notifies :
  slot GrantChannel example_started = None
  /\ slot ValidateChannel example_started = None
  /\ socket_log_of 0 (task (abort_callback 0) example_started)
     = socket_log_of 0 example_started
       ++ [Send (EventMessage InclusionAbortedEvent) false]
  /\ task (abort_callback 0) example_started <> example_started.
Proof.
  split; [reflexivity|]. split; [reflexivity|]. split; [reflexivity|].
  intros H. apply (f_equal (socket_log_of 0)) in H. vm_compute in H.
  discriminate H.
Defined.

(** C6 at the failing input: two runs of the timer with no pong, and the
    session has been sent nothing but its version frame and is still
    registered and connected. *)
Lemma pingInterval_never_probes_witness :
  Nat.iter 2 pingInterval_callback example_connected = example_connected
  /\ socket_log_of 0 example_connected
     = [Send (VersionMessage "8.0" "1.0" 1 0 9) false]
  /\ clients example_connected = [0]
  /\ connected 0 example_connected = true.
Proof.
  split; [|repeat split].
  apply (pingInterval_never_probes example_connected 2).
  intros this H. apply list_elem_of_singleton in H. subst this. reflexivity.
Defined.



(** * Further properties on the concrete server *)

Lemma example_pair_reachable : example_reachable example_pair.
Proof.
  eapply reachable_step; [apply example_connected_reachable|].
  apply (step_addSocket unit 0 9 "1.0" "8.0" (fun _ => 1%Z) example_dump
           example_dump (fun _ _ => None) example_parse example_controller example_value tt).
Qed.

(** X1 on a second [begin_inclusion] while the grant exchange is pending. *)
Lemma beginInclusion_refused_while_exchange_pending_witness :
  exists s',
    receiveMessage unit 0 9 example_dump example_dump (fun _ _ => None)
      example_parse example_controller example_value tt 0 "begin" example_asked = (s', Done)
    /\ client_heap s' !! 0
       = Some (socket_call
                 (Send (ResultError "m3" inclusionAlreadyInProgress []) false)
                 (mkClient false false 0 false true
                    [Send (VersionMessage "8.0" "1.0" 1 0 9) false;
                     Send (EventMessage
                             (GrantSecurityClassesEvent
                                (JArray [JNumber 0; JNumber 1]))) false]))
    /\ driver_calls s' = driver_calls example_asked
    /\ coordinator s' = coordinator example_asked.
Proof.
  exact (beginInclusion_refused_while_exchange_pending unit 0 9 example_dump
           example_dump (fun _ _ => None) example_parse example_controller example_value tt 0 "begin"
           (example_inclusion ControllerCommand.beginInclusion Default)
           example_asked _ eq_refl eq_refl eq_refl eq_refl).
Defined.

(** X4 on the two spellings with the same node. *)
Lemma both_spellings_remove_node_from_all_associations_witness :
  ControllerMessageHandler.handle (example_controller tt)
    (example_message ControllerCommand.removeNodeFromAllAssocations) 0
    example_connected
  = ControllerMessageHandler.handle (example_controller tt)
      (example_message ControllerCommand.removeNodeFromAllAssociations) 0
      example_connected.
Proof.
  exact (proj1 (both_spellings_remove_node_from_all_associations (example_controller tt)
                  (example_message ControllerCommand.removeNodeFromAllAssocations)
                  (example_message ControllerCommand.removeNodeFromAllAssociations)
                  0 example_connected eq_refl eq_refl eq_refl)).
Defined.

(** X5 on the first session of two: it starts an inclusion, and the
    driver's request reaches it and not the second session. *)
Lemma installed_callbacks_reach_the_requesting_session_witness :
  exists s1,
    ControllerMessageHandler.handle (example_controller tt)
      (example_inclusion ControllerCommand.beginInclusion Default) 0
      example_pair
    = (s1, Await (call_beginInclusion (mkInclusionOptions Default (Some 0) []))
             (Some "success"))
    /\ socket_log_of 0 (task (grantSecurityClasses_callback 0 JNull) s1)
       = [Send (VersionMessage "8.0" "1.0" 1 0 9) false;
          Send (EventMessage (GrantSecurityClassesEvent JNull)) false]
    /\ client_heap (task (grantSecurityClasses_callback 0 JNull) s1) !! 1
       = client_heap example_pair !! 1.
Proof.
  destruct (installed_callbacks_reach_the_requesting_session (example_controller tt)
              (example_inclusion ControllerCommand.beginInclusion Default) 0
              example_pair (mkInclusionOptions Default None [])
              (mkClient false false 0 false true
                 [Send (VersionMessage "8.0" "1.0" 1 0 9) false])
              JNull
              (reachable_wf _ _ _ _ _ _ _ _ _ _ _ _ _ example_pair_reachable)
              eq_refl eq_refl eq_refl eq_refl eq_refl eq_refl)
    as [s1 [H1 [H2 [H3 _]]]].
  change (length (closures example_pair)) with 0 in H1, H2, H3.
  exists s1. split; [exact H1|]. split.
  - unfold socket_log_of. rewrite H2. reflexivity.
  - apply H3. discriminate.
Defined.

(** X6 on the started inclusion: the driver asks, the client answers. *)
Lemma request_then_answer_round_trip_witness :
  let s2 :=
    task (fun s0 => (ControllerMessageHandler.handle (example_controller tt) example_grant 0 s0).1)
      example_asked in
  slot GrantChannel example_asked = Some 0
  /\ state_of 0 s2
     = Some (Fulfilled (JObject [("clientSideAuth", JBool false)]))
  /\ slot GrantChannel s2 = None.
Proof.
  destruct (request_then_answer_round_trip (example_controller tt) example_started GrantChannel
              (GrantSecurityClassesEvent (JArray [JNumber 0; JNumber 1])) 0
              (mkClosure 0 None None) example_grant 0
              (reachable_wf _ _ _ _ _ _ _ _ _ _ _ _ _ example_started_reachable)
              eq_refl eq_refl)
    as [H1 [_ [H3 [H4 _]]]].
  split; [exact H1|]. split; [exact H3|exact H4].
Defined.

(** X7 on the pending grant exchange: the driver asks a second time. *)
Lemma repeated_request_replaces_the_pending_one_witness :
  let s1 := task (grantSecurityClasses_callback 0 JNull) example_asked in
  let s2 :=
    task (fun s0 => (ControllerMessageHandler.handle (example_controller tt) example_grant 0 s0).1) s1 in
  slot GrantChannel s1 = Some 1
  /\ state_of 1 s2
     = Some (Fulfilled (JObject [("clientSideAuth", JBool false)]))
  /\ state_of 0 s2 = Some Pending
  /\ slot GrantChannel s2 = None.
Proof.
  destruct (repeated_request_replaces_the_pending_one (example_controller tt) example_asked
              GrantChannel 0 (GrantSecurityClassesEvent JNull) 0
              (mkClosure 0 (Some 0) None) example_grant 0
              (reachable_wf _ _ _ _ _ _ _ _ _ _ _ _ _ example_asked_reachable)
              eq_refl eq_refl eq_refl)
    as [_ [H2 [_ [H4 [H5 H6]]]]].
  split; [exact H2|]. split; [exact H4|]. split; [exact H5|exact H6].
Defined.

(** X8 on the pending grant exchange: the controller aborts twice. *)
Lemma abort_twice_witness :
  let s1 := task (abort_callback 0) example_asked in
  let s2 := task (abort_callback 0) s1 in
  coordinator s2 = coordinator s1
  /\ socket_log_of 0 s2
     = socket_log_of 0 example_asked
       ++ [Send (EventMessage InclusionAbortedEvent) false;
           Send (EventMessage InclusionAbortedEvent) false].
Proof.
  destruct (abort_twice example_asked 0 (mkClosure 0 (Some 0) None)
              (mkClient false false 0 false true
                 [Send (VersionMessage "8.0" "1.0" 1 0 9) false;
                  Send (EventMessage
                          (GrantSecurityClassesEvent
                             (JArray [JNumber 0; JNumber 1]))) false])
              (reachable_wf _ _ _ _ _ _ _ _ _ _ _ _ _ example_asked_reachable)
              eq_refl eq_refl)
    as [H1 H2].
  split; [exact H1|].
  unfold socket_log_of. cbn [closure_client] in H2. rewrite H2. reflexivity.
Defined.

(** X9 on a [start_listening] frame: one result, with the frame's id. *)
Lemma one_result_per_command_witness :
  exists s' op,
    receiveMessage unit 0 9 example_dump example_dump (fun _ _ => None)
      example_parse example_controller example_value tt 0 "listen" example_connected = (s', Done)
    /\ socket_log_of 0 s'
       = [Send (VersionMessage "8.0" "1.0" 1 0 9) false] ++ [op]
    /\ result_for "m1" op.
Proof.
  destruct (one_result_per_command unit 0 9 example_dump example_dump
              (fun _ _ => None) example_parse example_controller example_value tt 0 "listen"
              (example_message ServerCommand.startListening)
              example_connected
              (mkClient false false 0 false true
                 [Send (VersionMessage "8.0" "1.0" 1 0 9) false])
              eq_refl eq_refl)
    as [H|[s' [k [H _]]]].
  - exact H.
  - discriminate H.
Defined.

(** X10 on two sessions: a frame of the first leaves the second alone. *)
Lemma commands_touch_only_their_own_session_witness :
  client_heap (example_receiveMessage 0 "listen" example_pair) !! 1
  = Some (mkClient false false 0 false true
            [Send (VersionMessage "8.0" "1.0" 1 0 9) false]).
Proof.
  exact (proj1 (commands_touch_only_their_own_session unit 0 9 example_dump
                  example_dump (fun _ _ => None) example_parse example_controller example_value tt 0 1 "listen"
                  example_pair ltac:(discriminate))).
Defined.

(** X11 on a connected session. *)
Lemma probe_needs_an_acknowledgement_witness :
  socket_log_of 0 (checkAlive 0 (on_pong 0 (checkAlive 0 example_connected)))
  = [Send (VersionMessage "8.0" "1.0" 1 0 9) false; Ping; Ping]
  /\ socket_log_of 0 (checkAlive 0 (checkAlive 0 example_connected))
     = [Send (VersionMessage "8.0" "1.0" 1 0 9) false; Ping; Close]
  /\ connected 0 (checkAlive 0 (checkAlive 0 example_connected)) = false.
Proof.
  destruct (probe_needs_an_acknowledgement 0 example_connected
              (mkClient false false 0 false true
                 [Send (VersionMessage "8.0" "1.0" 1 0 9) false])
              eq_refl eq_refl)
    as [H1 H2].
  unfold socket_log_of, connected. rewrite H1, H2. repeat split.
Defined.

(** X13 on two sessions whose sockets close in the same turn. *)
Lemma burst_of_closes_one_sweep_witness :
  let r1 := foldl (fun r0 this => on_close this r0) example_registry [0; 1] in
  timeouts r1 = 1
  /\ timeouts (timeout_fires r1) = 0
  /\ cleanupScheduled (timeout_fires r1) = false
  /\ (0 ∉ clients (controller (timeout_fires r1)))
  /\ (1 ∉ clients (controller (timeout_fires r1))).
Proof.
  destruct (burst_of_closes_one_sweep example_registry [0; 1] eq_refl
              ltac:(discriminate))
    as [H1 [H2 [H3 [H4 _]]]].
  split; [exact H1|]. split; [exact H2|]. split; [exact H3|].
  split; apply H4; [left|right; left].
Defined.

(** X16 on the registry of the two sessions. *)
Lemma stop_undoes_start_witness :
  transports (logConfig (start example_registry))
  = [ForeignTransport "console"; ServerTransport (mkTransport 0 "info")]
  /\ logConfig (stop (start example_registry)) = logConfig example_registry
  /\ loggingEventForwarderStarted (stop (start example_registry)) = false.
Proof.
  assert (transports_known example_registry) as Hk.
  { intros t Ht. apply list_elem_of_singleton in Ht. discriminate Ht. }
  destruct (stop_undoes_start example_registry Hk) as [_ [H2 [H3 [H4 _]]]].
  split; [exact H2|]. split; [exact H3|exact H4].
Defined.

(** X17 on a forwarder started at level info while the driver logs at
    level debug. *)
Lemma restart_brings_the_transport_to_the_current_level_witness :
  exists t',
    loggingEventForwarder (restartLoggingEventForwarderIfNeeded example_logging)
    = Some (mkForwarder (Some t'))
    /\ transport_level t' = "debug"
    /\ transports
         (logConfig (restartLoggingEventForwarderIfNeeded example_logging))
       = [ForeignTransport "console"; ServerTransport t'].
Proof.
  assert (transports_known example_logging) as Hk.
  { intros t Ht. apply elem_of_cons in Ht. destruct Ht as [Ht|Ht];
      [discriminate Ht|].
    apply list_elem_of_singleton in Ht. injection Ht as ->. cbn. lia. }
  destruct (proj2 (restart_brings_the_transport_to_the_current_level
                     example_logging
                     (mkForwarder (Some (mkTransport 0 "info")))
                     (mkTransport 0 "info") Hk eq_refl eq_refl)
              ltac:(discriminate))
    as [t' [H1 [H2 [_ [H4 _]]]]].
  exists t'. split; [exact H1|]. split; [exact H2|exact H4].
Defined.




(** X22 on two sessions of which the first receives logs. *)
Lemma log_reaches_exactly_the_listening_sessions_witness :
  socket_log_of 0 (log 0 (JString "log line") example_listening)
  = [Send (VersionMessage "8.0" "1.0" 1 0 9) false;
     Send (EventMessage (LoggingEvent (JString "log line"))) false]
  /\ socket_log_of 1 (log 0 (JString "log line") example_listening)
     = [Send (VersionMessage "8.0" "1.0" 1 0 9) false].
Proof.
  assert (NoDup (clients example_listening)) as Hnd.
  { apply (NoDup_cons_2 0 [1]); [|apply NoDup_singleton].
    intros H. apply list_elem_of_singleton in H. discriminate H. }
  destruct (log_reaches_exactly_the_listening_sessions 0 (JString "log line")
              example_listening 0 _ Hnd eq_refl) as [H0 _].
  destruct (log_reaches_exactly_the_listening_sessions 0 (JString "log line")
              example_listening 1 _ Hnd eq_refl) as [H1 _].
  unfold socket_log_of. rewrite H0, H1. split; reflexivity.
Defined.

(** X23 on a key of 16 bytes, in capital digits. *)
Lemma both_spellings_give_the_bytes_of_the_key_witness :
  Bin.normalizeKey
    (Bin.KeyString
       "0x01, 0x02, 0x03, 0x04, 0x05, 0x06, 0x07, 0x08, 0x09, 0x0A, 0xAB, 0xCD, 0xEF, 0x10, 0x20, 0xFF")
    "networkKey"
  = inr example_key
  /\ Bin.normalizeKey (Bin.KeyString "0102030405060708090AABCDEF1020FF")
       "networkKey"
     = inr example_key.
Proof.
  assert (Forall (fun b => (b < 256)%N) example_key) as Hb.
  { repeat (apply List.Forall_cons; [reflexivity|]). apply List.Forall_nil. }
  destruct (both_spellings_give_the_bytes_of_the_key true example_key
              "networkKey" Hb ltac:(discriminate)) as [H1 H2].
  split; [exact H1|exact (H2 eq_refl)].
Defined.


(** X25 on a configuration with the deprecated [networkKey] only. *)
Lemma loaded_config_holds_buffers_witness :
  exists keys,
    Bin.securityKeys
      (Bin.mkOptions
         (Some (<["S0_Legacy" := Bin.KeyBuffer example_key]> ∅)) None)
    = Some keys
    /\ keys !! "S0_Legacy" = Some (Bin.KeyBuffer example_key).
Proof.
  assert (Bin.load_config example_options
          = inr (Bin.mkOptions
                   (Some (<["S0_Legacy" := Bin.KeyBuffer example_key]> ∅))
                   None)) as Hload by reflexivity.
  destruct (loaded_config_holds_buffers _ _ Hload)
    as [keys [b [H1 [H2 [_ [_ [_ [H6 _]]]]]]]].
  exists keys. split; [exact H1|]. rewrite H2.
  destruct (H6 eq_refl) as [_ [value [Hv Hn]]].
  injection Hv as <-. cbn in Hn. injection Hn as <-. reflexivity.
Defined.

